(** * Streamlit survey application: a model of [app.py] and its properties

    The development follows the source file from top to bottom:
    - Python values, the [str.replace] builtin and the tone transform
      [preprocess_text_for_tone];
    - pandas tables as far as the upload path uses them;
    - a state-and-exception monad for one run of the Streamlit script
      ([st.session_state], the rendered elements, the uploads performed);
    - the script itself ([init_state], [scroll_to_top], [show_progress],
      [navigation_buttons], the seven step blocks);
    - a small program logic for the monad and the properties proved with it. *)

From Stdlib Require Import String Ascii ZArith List DecimalString.
From stdpp Require Import gmap strings list.

Local Open Scope string_scope.
Local Open Scope list_scope.

(** ** Python strings and [str.replace] *)

Module PyStr.

(** Occurrence of a character in a string. *)
Fixpoint mem (c : ascii) (s : string) : bool :=
  match s with
  | EmptyString => false
  | String d s' => if Ascii.eqb c d then true else mem c s'
  end.

(** Drop the first [n] characters. *)
Fixpoint drop (n : nat) (s : string) : string :=
  match n, s with
  | O, _ => s
  | S k, EmptyString => EmptyString
  | S k, String _ s' => drop k s'
  end.

(** The scan of [str.replace old new] for a non-empty [old]: left to right,
    at each position either [old] starts here, [new] is emitted and the scan
    resumes after the occurrence ([skip] counts the characters of the
    occurrence still to pass over), or the character is copied. *)
Fixpoint replace_scan (old new : string) (skip : nat) (s : string) : string :=
  match s with
  | EmptyString => EmptyString
  | String c s' =>
      match skip with
      | S k => replace_scan old new k s'
      | O =>
          if String.prefix old s
          then new +:+ replace_scan old new (String.length old - 1) s'
          else String c (replace_scan old new 0 s')
      end
  end.

(** With an empty [old] Python inserts [new] before every character and at
    the end. *)
Fixpoint intersperse (new : string) (s : string) : string :=
  match s with
  | EmptyString => new
  | String c s' => new +:+ String c (intersperse new s')
  end.

(** [s.replace(old, new)] *)
Definition replace (old new s : string) : string :=
  match old with
  | EmptyString => intersperse new s
  | String _ _ => replace_scan old new 0 s
  end.

End PyStr.

(** ** The tone transform (app.py, lines 89-108) *)

Definition preprocess_text_for_tone (text : string) (tone : string) : string :=
  if String.eqb tone "empathetic" then
    let text := PyStr.replace "." "... " text in
    let text := PyStr.replace "," ", " text in
    let text := PyStr.replace "Take a slow breath" "Take a slow, deep breath" text in
    let text := PyStr.replace "You're" "You are truly" text in
    text
  else if String.eqb tone "neutral" then
    let text := PyStr.replace "I'm" "I am" text in
    let text := PyStr.replace "you're" "you are" text in
    let text := PyStr.replace "it's" "it is" text in
    let text := PyStr.replace "can't" "cannot" text in
    let text := PyStr.replace "glad" "pleased" text in
    let text := PyStr.replace "wonderful" "acceptable" text in
    text
  else text.


(** ** Python values *)

(** The values the script stores in [st.session_state] and in a record:
    [None], booleans, integers, strings, and dictionaries of those (the
    groups ["gad"], ["panas"], ["emp"], ["emp_post"], ["neu"], ["neu_post"]). *)
Inductive scalar : Type :=
  | SNone
  | SBool (b : bool)
  | SInt (n : Z)
  | SStr (s : string).

Inductive pyval : Type :=
  | PScalar (x : scalar)
  | PDict (d : gmap string scalar).

Coercion PScalar : scalar >-> pyval.

#[global] Instance scalar_eq_dec : EqDecision scalar.
Proof. solve_decision. Defined.

#[global] Instance pyval_eq_dec : EqDecision pyval.
Proof. solve_decision. Defined.

Definition str (s : string) : pyval := PScalar (SStr s).

(** Truth value of a Python object, as [if x:] and [x and y] take it. *)
Definition truthy (v : pyval) : bool :=
  match v with
  | PScalar SNone => false
  | PScalar (SBool b) => b
  | PScalar (SInt n) => negb (Z.eqb n 0)
  | PScalar (SStr s) => negb (String.eqb s "")
  | PDict d => negb (bool_decide (d = ∅))
  end.

(** An optional string ([os.getenv], a default [None] argument). *)
Definition truthy_opt (o : option string) : bool :=
  match o with
  | None => false
  | Some s => negb (String.eqb s "")
  end.

(** [str(i)] for a non-negative integer, as f-strings format it. *)
Definition str_of_nat (i : nat) : string := NilZero.string_of_uint (Nat.to_uint i).

(** [range(a, b)] *)
Definition range (a b : nat) : list nat := seq a (b - a).

(** [enumerate(l, start)] *)
Definition enumerate {A} (l : list A) (start : nat) : list (nat * A) :=
  combine (seq start (length l)) l.

(** [s.split(sep)[0]] for a non-empty [sep]: the text before the first
    occurrence of [sep]. *)
Fixpoint split_first (sep s : string) : string :=
  match s with
  | EmptyString => EmptyString
  | String c s' =>
      if String.prefix sep s then EmptyString else String c (split_first sep s')
  end.

(** Python dictionaries whose order matters (a record, whose keys become
    the columns of a table) are association lists: [d[k] = v] overwrites in
    place or appends. *)
Definition pydict := list (string * pyval).

Fixpoint dict_setitem (d : pydict) (k : string) (v : pyval) : pydict :=
  match d with
  | [] => [(k, v)]
  | (k', v') :: d' =>
      if String.eqb k k' then (k, v) :: d' else (k', v') :: dict_setitem d' k v
  end.

Fixpoint dict_get (d : pydict) (k : string) : option pyval :=
  match d with
  | [] => None
  | (k', v') :: d' => if String.eqb k k' then Some v' else dict_get d' k
  end.

(** ** pandas tables, as the upload path uses them *)

Module pd.

(** A table has named columns and rows; a row maps column names to cells and
    a cell the row has no entry for reads as missing (NaN). *)
Record DataFrame : Type := mkDataFrame {
  columns : list string;
  rows : list pydict
}.

(** [pd.DataFrame(columns=cols)] *)
Definition empty (cols : list string) : DataFrame :=
  {| columns := cols; rows := [] |}.

(** [pd.DataFrame(records)]: the columns are the keys in order of first
    appearance. *)
Definition of_records (records : list pydict) : DataFrame :=
  {| columns := remove_dups (concat (map (map fst) records)); rows := records |}.

(** [pd.concat([a, b], ignore_index=True)]: the columns of [a], then those
    of [b] that [a] lacks; the rows of [a], then the rows of [b], renumbered
    from 0. *)
Definition concat2 (a b : DataFrame) : DataFrame :=
  {| columns := columns a ++ filter (fun c => c ∉ columns a) (columns b);
     rows := rows a ++ rows b |}.

(** The cell of row [i] in column [c]; [None] when the row does not exist. *)
Definition cell (df : DataFrame) (i : nat) (c : string) : option pyval :=
  match rows df !! i with
  | None => None
  | Some row => Some (default (PScalar SNone) (dict_get row c))
  end.

End pd.

(** ** One run of the script *)

(** Exceptions. [RerunException] is Streamlit's control-flow exception
    raised by [st.rerun()]; it is not an [Exception], so [except Exception]
    lets it through. *)
Inductive exn : Type :=
  | RerunException
  | KeyError (key : string)
  | TypeError (msg : string)
  | ValueError (msg : string)
  | HubError (msg : string)      (* raised inside a huggingface_hub call *)
  | ParserError (msg : string).  (* raised by pd.read_csv *)

#[global] Instance exn_eq_dec : EqDecision exn.
Proof. solve_decision. Defined.

Definition is_Exception (e : exn) : bool :=
  match e with
  | RerunException => false
  | _ => true
  end.

(** [str(e)], as [f"{e}"] formats an exception. *)
Definition exn_str (e : exn) : string :=
  match e with
  | RerunException => ""
  | KeyError k => "'" +:+ k +:+ "'"
  | TypeError m | ValueError m | HubError m | ParserError m => m
  end.

(** What the remote store holds at the dataset path when the script reads
    it: the download fails (no such file, network), the file does not
    parse, or it is a table. *)
Inductive RemoteFile : Type :=
  | NotFound (msg : string)
  | NetworkError (msg : string)
  | Malformed (msg : string)
  | Table (df : pd.DataFrame).

(** Everything one run of the script reads from outside: the process
    environment, the clock, the user's widget state and the outcome of the
    calls to the hub. *)
Record Run : Type := mkRun {
  environ : gmap string string;          (* os.environ after load_dotenv() *)
  save_token_fails : option string;      (* writing the token file failing, with its message *)
  utcnow : string;                       (* datetime.utcnow().isoformat() *)
  uuid4 : string;                        (* str(uuid.uuid4()) *)
  clicked : option string;               (* the button whose click started the run *)
  checkbox : string -> bool;             (* state of a checkbox, by label *)
  widget : string -> scalar;             (* value of an input widget, by key or label *)
  remote : RemoteFile;
  upload_raises : option string          (* to_csv / upload_file raising, with its message *)
}.

(** The run Streamlit starts after [st.rerun()]: the same widgets, no click. *)
Definition rerun_of (r : Run) : Run :=
  {| environ := environ r; save_token_fails := save_token_fails r;
     utcnow := utcnow r; uuid4 := uuid4 r; clicked := None;
     checkbox := checkbox r; widget := widget r; remote := remote r;
     upload_raises := upload_raises r |}.

(** Elements a run puts on the page. Static prose ([st.write] of fixed
    text) is not recorded. *)
Inductive Element : Type :=
  | EError (msg : string)
  | EWarning (msg : string)
  | ESuccess (msg : string)
  | EHeader (text : string)
  | EScrollTop
  | EProgress (index total : nat)
  | EButton (label ident : string)
  | ECheckbox (label : string)
  | EInput (ident : string)
  | ESpeech (unique_id safe_text rate pitch : string).

#[global] Instance Element_eq_dec : EqDecision Element.
Proof. solve_decision. Defined.

(** A file written to the hub by [upload_file]. *)
Record Upload : Type := mkUpload {
  up_repo : option string;
  up_path : string;
  up_table : pd.DataFrame
}.

(** The state a run works on: [st.session_state], the page built so far
    and the uploads performed so far. [session] holds the entries of
    [st.session_state] the script assigns and reads. The entries Streamlit
    itself keeps there for widgets with a [key=] (their current value, under
    that key, while the widget is on the page) are not in [session]: the
    script never reads or assigns them, and the value of a widget is given
    with the run ([widget], [clicked]). *)
Record State : Type := mkState {
  session : gmap string pyval;
  rendered : list Element;
  uploads : list Upload
}.

Definition set_session (f : gmap string pyval -> gmap string pyval) (σ : State) : State :=
  {| session := f (session σ); rendered := rendered σ; uploads := uploads σ |}.

Definition add_rendered (e : Element) (σ : State) : State :=
  {| session := session σ; rendered := rendered σ ++ [e]; uploads := uploads σ |}.

Definition add_upload (u : Upload) (σ : State) : State :=
  {| session := session σ; rendered := rendered σ; uploads := uploads σ ++ [u] |}.

(** *** The monad: state and exceptions *)

Inductive result (A : Type) : Type :=
  | Ok (a : A)
  | Raise (e : exn).
Arguments Ok {A} a.
Arguments Raise {A} e.

Definition M (A : Type) : Type := State -> State * result A.

Definition ret {A} (a : A) : M A := fun σ => (σ, Ok a).

Definition bind {A B} (m : M A) (f : A -> M B) : M B :=
  fun σ =>
    match m σ with
    | (σ', Ok a) => f a σ'
    | (σ', Raise e) => (σ', Raise e)
    end.

Definition raise {A} (e : exn) : M A := fun σ => (σ, Raise e).

(** [try: m except Exception as e: h e] *)
Definition try_except {A} (m : M A) (h : exn -> M A) : M A :=
  fun σ =>
    match m σ with
    | (σ', Raise e) => if is_Exception e then h e σ' else (σ', Raise e)
    | (σ', Ok a) => (σ', Ok a)
    end.

Declare Scope py_scope.
Delimit Scope py_scope with py.
Notation "x <- m ;; k" := (bind m (fun x => k))
  (at level 100, m at next level, k at level 200, right associativity) : py_scope.
Notation "m ;; k" := (bind m (fun _ => k))
  (at level 100, k at level 200, right associativity) : py_scope.
Local Open Scope py_scope.

(** [for x in l: body x] *)
Fixpoint for_ {A} (l : list A) (body : A -> M unit) : M unit :=
  match l with
  | [] => ret tt
  | x :: l' => body x ;; for_ l' body
  end.

(** A loop that updates a local variable [acc]. *)
Fixpoint for_acc {A B} (l : list A) (acc : B) (body : B -> A -> M B) : M B :=
  match l with
  | [] => ret acc
  | x :: l' => acc' <- body acc x ;; for_acc l' acc' body
  end.

(** [if b: m] *)
Definition when (b : bool) (m : M unit) : M unit := if b then m else ret tt.

(** *** [st.session_state] *)

(** [st.session_state[k]] *)
Definition ss_getitem (k : string) : M pyval :=
  fun σ =>
    match session σ !! k with
    | Some v => (σ, Ok v)
    | None => (σ, Raise (KeyError k))
    end.

(** [st.session_state.get(k, d)] *)
Definition ss_get (k : string) (d : pyval) : M pyval :=
  fun σ => (σ, Ok (default d (session σ !! k))).

(** [k in st.session_state] *)
Definition ss_contains (k : string) : M bool :=
  fun σ => (σ, Ok (bool_decide (is_Some (session σ !! k)))).

(** [st.session_state[k] = v] *)
Definition ss_setitem (k : string) (v : pyval) : M unit :=
  fun σ => (set_session (insert k v) σ, Ok tt).

(** [st.session_state[g][k]] *)
Definition ss_getitem_in (g k : string) : M pyval :=
  d <- ss_getitem g ;;
  match d with
  | PDict m =>
      match m !! k with
      | Some v => ret (PScalar v)
      | None => raise (KeyError k)
      end
  | PScalar _ => raise (TypeError "object is not subscriptable")
  end.

(** [st.session_state[g][k] = v]: the dictionary stored under [g] is
    updated in place; nothing else refers to it. *)
Definition ss_setitem_in (g k : string) (v : scalar) : M unit :=
  d <- ss_getitem g ;;
  match d with
  | PDict m => ss_setitem g (PDict (<[k := v]> m))
  | PScalar _ => raise (TypeError "object does not support item assignment")
  end.

(** *** Streamlit calls *)

Definition render (e : Element) : M unit := fun σ => (add_rendered e σ, Ok tt).

Definition st_error (msg : string) : M unit := render (EError msg).
Definition st_warning (msg : string) : M unit := render (EWarning msg).
Definition st_success (msg : string) : M unit := render (ESuccess msg).
Definition st_header (text : string) : M unit := render (EHeader text).

(** [st.rerun()] *)
Definition st_rerun {A} : M A := raise RerunException.

(** [st.button(label, key=key)]: true in the run its click started. A
    button without a key is identified by its label. *)
Definition st_button (r : Run) (label : string) (key : option string) : M bool :=
  let ident := default label key in
  render (EButton label ident) ;;
  ret (bool_decide (clicked r = Some ident)).

(** [st.checkbox(label)] *)
Definition st_checkbox (r : Run) (label : string) : M bool :=
  render (ECheckbox label) ;;
  ret (checkbox r label).

(** [st.number_input], [st.selectbox], [st.radio], [st.text_input],
    [st.text_area]: the current value of the widget, identified by its key
    or else by its label. Which values a widget can take is the widget's
    business. *)
Definition st_input (r : Run) (label : string) (key : option string) : M scalar :=
  let ident := default label key in
  render (EInput ident) ;;
  ret (widget r ident).

(** ** The script (app.py) *)

(** Survey flow (line 15). *)
Definition steps : list string :=
  ["consent"; "demographics"; "baseline"; "session_emp"; "session_neu"; "open"; "review"].

(** Environment variables (lines 21-23). *)
Definition HF_TOKEN (r : Run) : option string := environ r !! "HF_TOKEN".
Definition HF_DATASET_REPO (r : Run) : option string := environ r !! "HF_DATASET_REPO".
Definition HF_DATASET_PATH (r : Run) : string :=
  default "responses.csv" (environ r !! "HF_DATASET_PATH").

(** Basic validations (lines 26-29). *)
Definition basic_validations (r : Run) : M unit :=
  when (negb (truthy_opt (HF_TOKEN r))) (st_error "Missing HF_TOKEN in .env") ;;
  when (negb (truthy_opt (HF_DATASET_REPO r))) (st_error "Missing HF_DATASET_REPO in .env").

(** [HfFolder.save_token(HF_TOKEN)] (line 33) writes its argument to the
    token file with [Path.write_text]. With no token in the environment the
    argument is [None] and the write raises [TypeError]; with a token
    whether the write fails is given with the run. [save_token_raises] is
    the exception the call raises, if any. *)
Definition save_token_raises (r : Run) : option exn :=
  match HF_TOKEN r with
  | None => Some (TypeError "data must be str, not NoneType")
  | Some _ => HubError <$> save_token_fails r
  end.

Definition HfFolder_save_token (r : Run) : M unit :=
  match save_token_raises r with
  | Some e => raise e
  | None => ret tt
  end.

(** Voice configuration (lines 42-83). Rate and pitch are kept as the text
    an f-string prints for them. *)
Record VoiceConfig : Type := mkVoice {
  gender : string;
  accent : string;
  description : string;
  voice_name : string;
  rate : string;
  pitch : string
}.

Definition VOICE_OPTIONS : list (string * VoiceConfig) :=
  [ ("Female Voice 1",
      mkVoice "Female" "American" "Warm, friendly female voice"
              "Google US English Female" "1.0" "1.0");
    ("Female Voice 2",
      mkVoice "Female" "British" "Professional British female voice"
              "Google UK English Female" "1.0" "1.1");
    ("Male Voice 1",
      mkVoice "Male" "American" "Clear, confident male voice"
              "Google US English Male" "1.0" "0.9");
    ("Slow Empathetic",
      mkVoice "Female" "American" "Slower, more caring pace for empathy"
              "Google US English Female" "0.8" "1.1");
    ("Neutral Robotic",
      mkVoice "Male" "Neutral" "Faster, monotone for neutral tone"
              "Google US English Male" "1.2" "0.8") ].

Fixpoint voice_lookup (name : string) (l : list (string * VoiceConfig)) : option VoiceConfig :=
  match l with
  | [] => None
  | (n, c) :: l' => if String.eqb name n then Some c else voice_lookup name l'
  end.

(** The separator of a voice label, [" — "] (space, em dash, space). *)
Definition voice_sep : string := " — ".

(** [create_speech_html] (lines 110-210): the text is transformed for the
    tone and escaped for JavaScript; the markup around it is presentation
    and is kept as one element. *)
Definition quote : string := String (ascii_of_nat 34) "".
Definition backslash : string := String (ascii_of_nat 92) "".
Definition newline : string := String (ascii_of_nat 10) "".

Definition create_speech_html (text : string) (voice_config : VoiceConfig)
    (tone unique_id : string) : Element :=
  let processed_text := preprocess_text_for_tone text tone in
  let safe_text :=
    PyStr.replace newline (backslash +:+ "n")
      (PyStr.replace quote (backslash +:+ quote)
         (PyStr.replace "'" (backslash +:+ "'") processed_text)) in
  ESpeech unique_id safe_text (rate voice_config) (pitch voice_config).

(** Remote dataset (lines 212-233). *)

Definition hf_hub_download (r : Run) (repo_id : option string) (filename : string) : M RemoteFile :=
  match remote r with
  | NotFound msg => raise (HubError msg)
  | NetworkError msg => raise (HubError msg)
  | f => ret f
  end.

Definition pd_read_csv (local_path : RemoteFile) : M pd.DataFrame :=
  match local_path with
  | Table df => ret df
  | Malformed msg => raise (ParserError msg)
  | NotFound msg | NetworkError msg => raise (HubError msg)
  end.

Definition load_existing_hf_csv (r : Run) (repo_id : option string) (path_in_repo : string)
    : M pd.DataFrame :=
  try_except
    (local_path <- hf_hub_download r repo_id path_in_repo ;;
     pd_read_csv local_path)
    (fun _ => ret (pd.empty ["participant_id"])).

(** [df.to_csv] into a temporary file, then [hf_api.upload_file]: either
    the call raises, or the file at [path_in_repo] is replaced by the table. *)
Definition upload_csv_to_hf (r : Run) (df : pd.DataFrame) (repo_id : option string)
    (path_in_repo : string) : M unit :=
  match upload_raises r with
  | Some msg => raise (HubError msg)
  | None => fun σ => (add_upload (mkUpload repo_id path_in_repo df) σ, Ok tt)
  end.

(** [init_state] (lines 235-277). *)

(** [{f"q{i}": None for i in range(1, n)}] *)
Definition q_key (i : nat) : string := "q" +:+ str_of_nat i.

Definition none_group (a b : nat) : gmap string scalar :=
  list_to_map (map (fun i => (q_key i, SNone)) (range a b)).

Definition defaults (r : Run) : pydict :=
  [ ("consented", PScalar (SBool false));
    ("step", str "consent");
    ("participant_id", str (uuid4 r));
    ("start_ts", str (utcnow r));
    ("age", PScalar SNone);
    ("gender", PScalar SNone);
    ("gender_other", str "");
    ("education", PScalar SNone);
    ("voice_exp", PScalar SNone);
    ("used_assistants", PScalar SNone);
    ("tech_comfort", PScalar SNone);
    ("gad", PDict (none_group 1 8));
    ("gad_impact", PScalar SNone);
    ("panas", PDict (none_group 1 11));
    ("single_mood", PScalar SNone);
    ("emp", PDict (none_group 1 9));
    ("emp_state_anxiety", PScalar SNone);
    ("emp_post", PDict (none_group 1 8));
    ("neu", PDict (none_group 1 9));
    ("neu_state_anxiety", PScalar SNone);
    ("neu_post", PDict (none_group 1 8));
    ("open_emp", str "");
    ("open_neu", str "");
    ("open_compare", str "");
    ("open_pref", str "");
    ("open_empathy", str "");
    ("open_trust", str "");
    ("open_triggers", str "");
    ("open_improve", str "");
    ("open_more_1", str "");
    ("open_more_2", str "") ].

Definition init_state (r : Run) : M unit :=
  for_ (defaults r) (fun '(k, v) =>
    present <- ss_contains k ;;
    when (negb present) (ss_setitem k v)).

(** [scroll_to_top] (lines 284-290). *)
Definition scroll_to_top : M unit :=
  step_changed <- ss_get "step_changed" (PScalar (SBool false)) ;;
  when (truthy step_changed)
    (render EScrollTop ;;
     ss_setitem "step_changed" (PScalar (SBool false))).

(** [steps.index(x)] *)
Fixpoint list_index (x : pyval) (l : list string) : option nat :=
  match l with
  | [] => None
  | y :: l' => if bool_decide (x = str y) then Some 0 else S <$> list_index x l'
  end.

(** [show_progress] (lines 294-299). *)
Definition show_progress : M unit :=
  current_step <- ss_get "step" (str "consent") ;;
  match list_index current_step steps with
  | None => raise (ValueError "is not in list")
  | Some current_index =>
      render (EProgress (current_index + 1) (length steps))
  end.

(** [navigation_buttons] (lines 303-314). *)
Definition back_label : string := "⬅ Back".
Definition continue_label : string := "Continue ➡".

Definition navigation_buttons (r : Run) (prev_step next_step : option string)
    (prev_label next_label : string) : M unit :=
  match prev_step with
  | Some p =>
      if truthy_opt prev_step then
        pressed <- st_button r prev_label (Some ("back_" +:+ p)) ;;
        when pressed
          (ss_setitem "step" (str p) ;;
           ss_setitem "step_changed" (PScalar (SBool true)) ;;
           st_rerun)
      else ret tt
  | None => ret tt
  end ;;
  match next_step with
  | Some n =>
      if truthy_opt next_step then
        pressed <- st_button r next_label (Some ("next_" +:+ n)) ;;
        when pressed
          (ss_setitem "step" (str n) ;;
           ss_setitem "step_changed" (PScalar (SBool true)) ;;
           st_rerun)
      else ret tt
  | None => ret tt
  end.

(** [if st.session_state["step"] == name: body] *)
Definition if_step (name : string) (body : M unit) : M unit :=
  step <- ss_getitem "step" ;;
  when (bool_decide (step = str name)) body.

(** CONSENT (lines 323-352). *)
Definition consent_page (r : Run) : M unit :=
  st_header "Informed Consent" ;;
  consent <- st_checkbox r "I agree to participate." ;;
  pressed <- st_button r continue_label None ;;
  when pressed
    (if consent then
       ss_setitem "consented" (PScalar (SBool true)) ;;
       ss_setitem "step" (str "demographics") ;;
       st_rerun
     else
       st_warning "You must agree to continue.").

Definition consent_block (r : Run) : M unit :=
  if_step "consent" (consent_page r).

(** DEMOGRAPHICS (lines 358-374). *)
Definition demographics_page (r : Run) : M unit :=
  st_header "Demographic Information" ;;
  age <- st_input r "Q1. Enter your age (years)" None ;;
  ss_setitem "age" age ;;
  gender_choice <- st_input r "Q2. Your gender" None ;;
  ss_setitem "gender" gender_choice ;;
  when (bool_decide (gender_choice = SStr "Non-binary/Other (specify)"))
    (other <- st_input r "Please specify:" None ;;
     ss_setitem "gender_other" other) ;;
  education <- st_input r "Q3. Select your highest education level" None ;;
  ss_setitem "education" education ;;
  voice_exp <- st_input r "Q4. Do you have any voice technology experience?" None ;;
  ss_setitem "voice_exp" voice_exp ;;
  used <- st_input r "Q5. Have you used voice assistants (e.g. Siri, Alexa)  before?" None ;;
  ss_setitem "used_assistants" used ;;
  comfort <- st_input r "Q6.How comfortable are you with using technology (e.g., smartphones, computers, voice assistants)? " None ;;
  ss_setitem "tech_comfort" comfort ;;
  navigation_buttons r (Some "consent") (Some "baseline") back_label continue_label.

Definition demographics_block (r : Run) : M unit :=
  if_step "demographics" (demographics_page r).

(** Baseline: GAD-7 + PANAS + Mood (lines 379-423). *)
Definition gad_items : list string :=
  [ "Q7.1 Feeling nervous, anxious, or on edge.";
    "Q7.2 Not being able to stop or control worrying.";
    "Q7.3 Worrying too much about different things.";
    "Q7.4 Trouble relaxing.";
    "Q7.5 Being so restless that it is hard to sit still.";
    "Q7.6 Becoming easily annoyed or irritable.";
    "Q7.7 Feeling afraid as if something awful might happen." ].

Definition panas_items : list string :=
  [ "Interested"; "Distressed"; "Excited"; "Upset"; "Strong"; "Guilty"; "Scared";
    "Hostile(Aggressive)"; "Enthusiastic"; "Proud" ].

Definition baseline_page (r : Run) : M unit :=
  st_header "Baseline Mental Health and Mood" ;;
  for_ (enumerate gad_items 1) (fun '(i, label) =>
    v <- st_input r label None ;;
    ss_setitem_in "gad" (q_key i) v) ;;
  impact <- st_input r " Q8. If you checked any problems above, how difficult have these made it for you to do your work, take care of things at home, or get along with other people??" None ;;
  ss_setitem "gad_impact" impact ;;
  for_ (enumerate panas_items 1) (fun '(i, label) =>
    v <- st_input r ("Q9." +:+ str_of_nat i +:+ " " +:+ label) None ;;
    ss_setitem_in "panas" (q_key i) v) ;;
  mood <- st_input r "Q10.Overall, right now I feel… (1=very negative, 5=very positive):" None ;;
  ss_setitem "single_mood" mood ;;
  navigation_buttons r (Some "demographics") (Some "session_emp") back_label continue_label.

Definition baseline_block (r : Run) : M unit :=
  if_step "baseline" (baseline_page r).

(** Questions of the two voice sessions (lines 429-449). *)
Definition empathetic_questions : list (string * string) :=
  [ ("Q11", "I felt the voice was warm and caring.");
    ("Q12", "The voice seemed to understand or respond to my feelings.");
    ("Q13", "I felt comfortable listening to this voice.");
    ("Q14", "The voice spoke in a calm, soothing tone.");
    ("Q15", "I would trust this voice to give helpful advice.");
    ("Q16", "The voice helped me feel supported.");
    ("Q17", "The pace (speed) of the voice's speech was comfortable.");
    ("Q18", "I found it easy to pay attention to this voice.") ].

Definition neutral_questions : list (string * string) :=
  [ ("Q20", "The voice sounded neutral or robotic (monotone).");
    ("Q21", "I felt the voice gave factual, impersonal responses.");
    ("Q22", "I felt comfortable listening to this voice.");
    ("Q23", "I would trust this voice to give accurate information.");
    ("Q24", "The voice's tone seemed emotionless.");
    ("Q25", "The pace of the voice's speech was comfortable.");
    ("Q26", "I found it easy to pay attention to this voice.");
    ("Q27", "The voice delivered the information clearly and understandably.") ].

(** The part shared by the two session blocks up to the speech element:
    voice selection, script text, [VOICE_OPTIONS[name]], the speech markup. *)
Definition voice_session (r : Run) (select_label select_key script_label script_key
    tone unique_id : string) : M unit :=
  voice_label <- st_input r select_label (Some select_key) ;;
  script <- st_input r script_label (Some script_key) ;;
  match voice_label, script with
  | SStr label, SStr text =>
      let name := split_first voice_sep label in
      match voice_lookup name VOICE_OPTIONS with
      | Some voice_config => render (create_speech_html text voice_config tone unique_id)
      | None => raise (KeyError name)
      end
  | _, _ => raise (TypeError "expected str")
  end.

(** Empathetic Voice Session (lines 454-499). *)
Definition session_emp_page (r : Run) : M unit :=
  st_header "Empathetic Voice Session" ;;
  voice_session r "Choose empathetic voice:" "emp_voice_select"
    "Empathetic script:" "emp_script_text" "empathetic" "empathetic" ;;
  for_ (enumerate empathetic_questions 11) (fun '(i, (key, question)) =>
    v <- st_input r ("Q" +:+ str_of_nat i +:+ ". " +:+ question) (Some key) ;;
    ss_setitem_in "emp" (q_key (i - 10)) v) ;;
  anxiety <- st_input r "" (Some "emp_anxiety") ;;
  ss_setitem "emp_state_anxiety" anxiety ;;
  navigation_buttons r (Some "baseline") (Some "session_neu") back_label continue_label.

Definition session_emp_block (r : Run) : M unit :=
  if_step "session_emp" (session_emp_page r).

(** Neutral Voice Session (lines 504-550). *)
Definition session_neu_page (r : Run) : M unit :=
  st_header "Neutral / Robotic Voice Session" ;;
  voice_session r "Choose neutral voice:" "neu_voice_select"
    "Neutral script:" "neu_script_text" "neutral" "neutral" ;;
  for_ (enumerate neutral_questions 20) (fun '(i, (key, question)) =>
    v <- st_input r ("Q" +:+ str_of_nat i +:+ ". " +:+ question) (Some key) ;;
    ss_setitem_in "neu" (q_key (i - 19)) v) ;;
  anxiety <- st_input r "" (Some "neu_anxiety") ;;
  ss_setitem "neu_state_anxiety" anxiety ;;
  navigation_buttons r (Some "session_emp") (Some "open") back_label continue_label.

Definition session_neu_block (r : Run) : M unit :=
  if_step "session_neu" (session_neu_page r).

(** Open-Ended Feedback (lines 555-578). *)
Definition open_questions : list (string * string) :=
  [ ("open_emp", "Q29.How did you feel during and after interacting with the empathetic AI voice? What kinds of emotions, thoughts, or reactions did it bring up for you? ");
    ("open_neu", "Q30.How did you feel during and after interacting with the neutral or robotic AI voice? What kinds of emotions, thoughts, or reactions did it bring up for you?");
    ("open_compare", "Q31.What differences, if any, did you notice between the two voices in terms of how they made you feel? Which one made you feel more comfortable or anxious, and why? ");
    ("open_pref", "Q32.Which voice did you prefer overall? What specific features (tone, pace, warmth, etc.) did you like or dislike about each voice?");
    ("open_empathy", "Q33.Did the empathetic voice make you feel understood or cared for in any way? If so, can you describe a moment or response that gave you that feeling? ");
    ("open_trust", "Q34.Did you feel that either voice was trustworthy or helpful? Why or why not? In what ways did the voice help (or fail to help) you feel supported? ");
    ("open_triggers", "Q35.Was there anything in either voice interaction that made you feel uneasy, anxious, or emotionally uncomfortable? Please explain if so.");
    ("open_improve", "Q36.If you could improve or change anything about the voices or how the interaction worked, what would you recommend to make it more helpful or emotionally supportive? ");
    ("open_more_1", "Q37.Is there anything else you'd like to share about your experience in this study?");
    ("open_more_2", "Q38.Any thoughts that haven't been covered by the previous questions?") ].

(** The ten assignments of the page are written as a loop over the key and
    the label of each. *)
Definition open_page (r : Run) : M unit :=
  st_header "Open-Ended Qualitative Questions" ;;
  for_ open_questions (fun '(k, label) =>
    v <- st_input r label None ;;
    ss_setitem k v) ;;
  navigation_buttons r (Some "session_neu") (Some "review") back_label "Review & Submit ➡".

Definition open_block (r : Run) : M unit :=
  if_step "open" (open_page r).

(** Review & Submit (lines 583-616). *)

(** The record (lines 587-609). *)
Definition record_group (prefix group : string) (a b : nat) (record : pydict) : M pydict :=
  for_acc (range a b) record (fun record i =>
    v <- ss_getitem_in group (q_key i) ;;
    ret (dict_setitem record (prefix +:+ str_of_nat i) v)).

Definition open_keys : list string :=
  [ "open_emp"; "open_neu"; "open_compare"; "open_pref"; "open_empathy"; "open_trust";
    "open_triggers"; "open_improve"; "open_more_1"; "open_more_2" ].

Definition build_record (r : Run) : M pydict :=
  participant_id <- ss_getitem "participant_id" ;;
  start_ts <- ss_getitem "start_ts" ;;
  age <- ss_getitem "age" ;;
  gender <- ss_getitem "gender" ;;
  gender_other <- ss_get "gender_other" (str "") ;;
  education <- ss_getitem "education" ;;
  voice_exp <- ss_getitem "voice_exp" ;;
  used_assistants <- ss_getitem "used_assistants" ;;
  tech_comfort <- ss_getitem "tech_comfort" ;;
  single_mood <- ss_getitem "single_mood" ;;
  let record : pydict :=
    [ ("participant_id", participant_id);
      ("start_ts_utc", start_ts);
      ("submit_ts_utc", str (utcnow r));
      ("age", age); ("gender", gender);
      ("gender_other", gender_other);
      ("education", education);
      ("voice_exp", voice_exp); ("used_assistants", used_assistants);
      ("tech_comfort", tech_comfort);
      ("single_mood", single_mood) ] in
  record <- record_group "gad_q" "gad" 1 8 record ;;
  gad_impact <- ss_getitem "gad_impact" ;;
  let record := dict_setitem record "gad_impact" gad_impact in
  record <- record_group "panas_q" "panas" 1 11 record ;;
  record <- record_group "emp_q" "emp" 1 9 record ;;
  emp_state_anxiety <- ss_getitem "emp_state_anxiety" ;;
  let record := dict_setitem record "emp_state_anxiety" emp_state_anxiety in
  record <- record_group "emp_post_q" "emp_post" 1 8 record ;;
  record <- record_group "neu_q" "neu" 1 9 record ;;
  neu_state_anxiety <- ss_getitem "neu_state_anxiety" ;;
  let record := dict_setitem record "neu_state_anxiety" neu_state_anxiety in
  record <- record_group "neu_post_q" "neu_post" 1 8 record ;;
  for_acc open_keys record (fun record k =>
    v <- ss_getitem k ;;
    ret (dict_setitem record k v)).

(** The submission (lines 610-616). *)
Definition submit (r : Run) (record : pydict) : M unit :=
  try_except
    (existing_df <- load_existing_hf_csv r (HF_DATASET_REPO r) (HF_DATASET_PATH r) ;;
     let updated_df := pd.concat2 existing_df (pd.of_records [record]) in
     upload_csv_to_hf r updated_df (HF_DATASET_REPO r) (HF_DATASET_PATH r) ;;
     st_success "Submitted successfully!")
    (fun e => st_error ("Upload failed: " +:+ exn_str e)).

Definition review_page (r : Run) : M unit :=
  st_header "Review & Submit" ;;
  pressed <- st_button r "Submit" None ;;
  when pressed
    (record <- build_record r ;;
     submit r record).

Definition review_block (r : Run) : M unit :=
  if_step "review" (review_page r).

(** The whole script, top to bottom. *)
Definition prelude (r : Run) : M unit :=
  basic_validations r ;;
  HfFolder_save_token r ;;
  init_state r ;;
  scroll_to_top ;;
  show_progress ;;
  present <- ss_contains "step" ;;
  when (negb present) (ss_setitem "step" (str "consent")).

Definition pages (r : Run) : M unit :=
  consent_block r ;;
  demographics_block r ;;
  baseline_block r ;;
  session_emp_block r ;;
  session_neu_block r ;;
  open_block r ;;
  review_block r.

Definition script (r : Run) : M unit :=
  prelude r ;; pages r.

(** ** Sessions *)

(** Streamlit runs the script on an empty page each time. *)
Definition run_script (r : Run) (σ : State) : State * result unit :=
  script r {| session := session σ; rendered := []; uploads := uploads σ |}.

(** One interaction of the user: the script runs; if it asks for a rerun it
    runs again at once, this time with no button clicked. *)
Definition interact (r : Run) (σ : State) : State * result unit :=
  match run_script r σ with
  | (σ', Raise RerunException) => run_script (rerun_of r) σ'
  | out => out
  end.

(** A browser session starts with an empty [st.session_state]. *)
Definition new_session : State := {| session := ∅; rendered := []; uploads := [] |}.

(** The states a session goes through under a sequence of interactions. *)
Fixpoint session_states (rs : list Run) (σ : State) : list State :=
  match rs with
  | [] => []
  | r :: rs' => let σ' := (interact r σ).1 in σ' :: session_states rs' σ'
  end.

(** [st.session_state.get("step", "consent")], the current step. *)
Definition current_step (σ : State) : pyval :=
  default (str "consent") (session σ !! "step").

(** ** Vocabulary of the program logic *)

Local Open Scope py_scope.

(** [keeps J E m]: started in a state satisfying [J], [m] either returns in
    a state satisfying [J] or raises [e] in a state satisfying [E e]. *)
Definition keeps {A} (J : State -> Prop) (E : exn -> State -> Prop) (m : M A) : Prop :=
  forall σ, J σ ->
    match m σ with
    | (σ', Ok _) => J σ'
    | (σ', Raise e) => E e σ'
    end.

(** [J] does not depend on the page. *)
Class StableR (J : State -> Prop) : Prop :=
  stable_render : forall e σ, J σ -> J (add_rendered e σ).

(** [J] does not depend on the uploads. *)
Class StableU (J : State -> Prop) : Prop :=
  stable_upload : forall u σ, J σ -> J (add_upload u σ).

(** [J] survives the assignment [st.session_state[k] = v]. *)
Definition allows (J : State -> Prop) (k : string) (v : pyval) : Prop :=
  forall σ, J σ -> J (set_session (insert k v) σ).

(** ... when [k] is not yet a key. *)
Definition allows_new (J : State -> Prop) (k : string) (v : pyval) : Prop :=
  forall σ, J σ -> session σ !! k = None -> J (set_session (insert k v) σ).


(** The state after [navigation_buttons] has acted on a click. *)
Definition moved (target : string) (σ : State) : State :=
  set_session (insert "step_changed" (PScalar (SBool true)))
    (set_session (insert "step" (str target)) σ).

(** The state after the consent page has accepted [Continue]. *)
Definition consent_moved (σ : State) : State :=
  set_session (insert "step" (str "demographics"))
    (set_session (insert "consented" (PScalar (SBool true))) σ).

(** The keys the pages assign widget values to, and the groups they assign
    items of. *)
Definition scalar_answer_keys : list string :=
  [ "age"; "gender"; "gender_other"; "education"; "voice_exp"; "used_assistants";
    "tech_comfort"; "gad_impact"; "single_mood"; "emp_state_anxiety";
    "neu_state_anxiety" ] ++ open_keys.

Definition group_answer_keys : list string := [ "gad"; "panas"; "emp"; "neu" ].

(** [J] survives the assignment [st.session_state[g][k] = v]. *)
Definition allows_item (J : State -> Prop) (g : string) : Prop :=
  forall σ d k (v : scalar), J σ -> session σ !! g = Some (PDict d) ->
    J (set_session (insert g (PDict (<[k := v]> d))) σ).

(** [J] survives what the pages write. *)
Definition allows_answers (J : State -> Prop) : Prop :=
  (forall k (v : scalar), k ∈ scalar_answer_keys -> allows J k (PScalar v)) /\
  (forall g, g ∈ group_answer_keys -> allows_item J g).

(** Exceptions other than the rerun request are of no interest to [E]. *)
Definition tolerated (J : State -> Prop) (E : exn -> State -> Prop) : Prop :=
  forall e σ, e <> RerunException -> J σ -> E e σ.

(** What [E] must accept when [navigation_buttons] acts on a click. *)
Definition nav_ok (J : State -> Prop) (E : exn -> State -> Prop)
    (r : Run) (p n : string) : Prop :=
  (clicked r = Some ("back_" +:+ p) -> forall σ, J σ -> E RerunException (moved p σ)) /\
  (clicked r = Some ("next_" +:+ n) -> forall σ, J σ -> E RerunException (moved n σ)).

(** [hoare P m Q E]: started in a state satisfying [P], [m] either returns
    in a state satisfying [Q] or raises [e] in a state satisfying [E e]. *)
Definition hoare {A} (P : State -> Prop) (m : M A) (Q : State -> Prop)
    (E : exn -> State -> Prop) : Prop :=
  forall σ, P σ ->
    match m σ with
    | (σ', Ok _) => Q σ'
    | (σ', Raise e) => E e σ'
    end.

(** No exception is expected. *)
Definition no_exn : exn -> State -> Prop := fun _ _ => False.

(** [yields m σ Φ]: run in [σ], [m] leaves the state as it is and, if it
    returns, returns a value satisfying [Φ]. *)
Definition yields {A} (m : M A) (σ : State) (Φ : A -> Prop) : Prop :=
  match m σ with
  | (σ', Ok a) => σ' = σ /\ Φ a
  | (σ', Raise _) => σ' = σ
  end.

(** [returns m σ Φ]: run in [σ], [m] leaves the state as it is and returns
    a value satisfying [Φ]. *)
Definition returns {A} (m : M A) (σ : State) (Φ : A -> Prop) : Prop :=
  exists a, m σ = (σ, Ok a) /\ Φ a.

(** ** Vocabulary of the properties *)

(** The forward edges of the step machine; the backward edges are these
    reversed. *)
Definition forward_edges : list (string * string) :=
  [ ("consent", "demographics"); ("demographics", "baseline");
    ("baseline", "session_emp"); ("session_emp", "session_neu");
    ("session_neu", "open"); ("open", "review") ].

(** [st.session_state["step"]] is [s]. *)
Definition at_step (s : string) (σ : State) : Prop :=
  session σ !! "step" = Some (str s).

(** The pages that call [navigation_buttons(prev_step=p, next_step=n)],
    with [p] and [n]. *)
Definition nav_links : list (string * (string * string)) :=
  [ ("demographics", ("consent", "baseline"));
    ("baseline", ("demographics", "session_emp"));
    ("session_emp", ("baseline", "session_neu"));
    ("session_neu", ("session_emp", "open"));
    ("open", ("session_neu", "review")) ].

(** The ways a run started at step [s0] ends with a navigation: the consent
    page accepts Continue, or [navigation_buttons] acts on Back or on
    Continue. [σ'] is the state in which the run asks for a rerun. *)
Inductive transition (r : Run) (s0 : string) (σ' : State) : Prop :=
  | consent_continue :
      s0 = "consent" ->
      clicked r = Some continue_label ->
      checkbox r "I agree to participate." = true ->
      at_step "demographics" σ' ->
      transition r s0 σ'
  | nav_back (p n : string) :
      clicked r = Some ("back_" +:+ p) ->
      (s0, (p, n)) ∈ nav_links ->
      at_step p σ' ->
      session σ' !! "step_changed" = Some (PScalar (SBool true)) ->
      transition r s0 σ'
  | nav_next (p n : string) :
      clicked r = Some ("next_" +:+ n) ->
      (s0, (p, n)) ∈ nav_links ->
      at_step n σ' ->
      session σ' !! "step_changed" = Some (PScalar (SBool true)) ->
      transition r s0 σ'.

(** What a run started at step [s0] may raise, and in which state. *)
Definition nav_exc (r : Run) (s0 : string) (e : exn) (σ' : State) : Prop :=
  match e with
  | RerunException => transition r s0 σ'
  | _ => current_step σ' = str s0
  end.

(** The step of a state is one of the seven. *)
Definition in_steps (σ : State) : Prop :=
  exists s, s ∈ steps /\ current_step σ = str s.

(** [st.session_state.get("step", "consent")] is [s]. *)
Definition step_is (s : string) (σ : State) : Prop :=
  current_step σ = str s.

(** The click that started the run is on a Continue button (the one of the
    consent page or a [next_...] button of [navigation_buttons]), or on a
    Back button. *)
Definition is_continue (c : option string) : Prop :=
  c = Some continue_label \/ exists n, c = Some ("next_" +:+ n).

Definition is_back (c : option string) : Prop :=
  exists p, c = Some ("back_" +:+ p).

(** The run accepts a navigation: every handler that assigns
    [st.session_state["step"]] ends with [st.rerun()], and nothing else
    asks for a rerun. *)
Definition accepted (r : Run) (σ : State) : Prop :=
  (run_script r σ).2 = Raise RerunException.

(** One interaction respects the step machine: from a step [a] it leads to a
    step [b]; an accepted Continue follows a forward edge, an accepted Back
    a backward edge, and without an accepted navigation the step is kept. *)
Definition nav_step_ok (r : Run) (σ : State) : Prop :=
  exists a b, a ∈ steps /\ b ∈ steps /\ step_is a σ /\ step_is b (interact r σ).1 /\
    ((accepted r σ /\ is_continue (clicked r) /\ (a, b) ∈ forward_edges) \/
     (accepted r σ /\ is_back (clicked r) /\ (b, a) ∈ forward_edges) \/
     (~ accepted r σ /\ b = a)).

(** A whole session respects the step machine. *)
Fixpoint follows_edges (σ : State) (rs : list Run) : Prop :=
  match rs with
  | [] => True
  | r :: rs' => nav_step_ok r σ /\ follows_edges (interact r σ).1 rs'
  end.

(** ** The record and the tables *)

(** The flat keys [f"{prefix}{i}"] for [i] in [range(a, b)]. *)
Definition flat_keys (prefix : string) (a b : nat) : list string :=
  map (fun i => prefix +:+ str_of_nat i) (range a b).

(** The keys of a record, in order. *)
Definition record_columns : list string :=
  [ "participant_id"; "start_ts_utc"; "submit_ts_utc"; "age"; "gender"; "gender_other";
    "education"; "voice_exp"; "used_assistants"; "tech_comfort"; "single_mood" ]
  ++ flat_keys "gad_q" 1 8 ++ ["gad_impact"] ++ flat_keys "panas_q" 1 11
  ++ flat_keys "emp_q" 1 9 ++ ["emp_state_anxiety"] ++ flat_keys "emp_post_q" 1 8
  ++ flat_keys "neu_q" 1 9 ++ ["neu_state_anxiety"] ++ flat_keys "neu_post_q" 1 8
  ++ open_keys.

(** The keys copied to the record under their own name. *)
Definition copied_keys : list string :=
  [ "age"; "gender"; "education"; "voice_exp"; "used_assistants"; "tech_comfort";
    "single_mood"; "gad_impact"; "emp_state_anxiety"; "neu_state_anxiety" ] ++ open_keys.

(** The groups expanded into flat keys: prefix, group, end of the range. *)
Definition record_groups : list (string * string * nat) :=
  [ ("gad_q", "gad", 8); ("panas_q", "panas", 11); ("emp_q", "emp", 9);
    ("emp_post_q", "emp_post", 8); ("neu_q", "neu", 9); ("neu_post_q", "neu_post", 8) ].

(** [record] is the flattening of the session [s] stamped with [now]. *)
Definition flattens (s : gmap string pyval) (now : string) (record : pydict) : Prop :=
  map fst record = record_columns /\
  dict_get record "participant_id" = s !! "participant_id" /\
  dict_get record "start_ts_utc" = s !! "start_ts" /\
  dict_get record "submit_ts_utc" = Some (str now) /\
  dict_get record "gender_other" = Some (default (str "") (s !! "gender_other")) /\
  Forall (fun k => dict_get record k = s !! k) copied_keys /\
  Forall (fun '(prefix, g, b) =>
            exists d, s !! g = Some (PDict d) /\
              Forall (fun i => dict_get record (prefix +:+ str_of_nat i)
                               = PScalar <$> (d !! q_key i)) (range 1 b))
         record_groups.

(** The table the submission starts from: the remote one, or the empty
    table with the single column [participant_id]. *)
Definition fetched_table (f : RemoteFile) : pd.DataFrame :=
  match f with
  | Table df => df
  | NotFound _ | NetworkError _ | Malformed _ => pd.empty ["participant_id"]
  end.

(** The remote read fails. *)
Definition read_fails (f : RemoteFile) : Prop :=
  match f with
  | Table _ => False
  | NotFound _ | NetworkError _ | Malformed _ => True
  end.

(** The keys the record assembly reads with [st.session_state[k]]. *)
Definition read_keys : list string := [ "participant_id"; "start_ts" ] ++ copied_keys.

(** The group [g] of the session [s] is a dictionary with the keys
    [q1] ... [q(b-1)]. *)
Definition group_ok (s : gmap string pyval) (g : string) (b : nat) : Prop :=
  match s !! g with
  | Some (PDict d) => Forall (fun i => is_Some (d !! q_key i)) (range 1 b)
  | _ => False
  end.

#[global] Instance group_ok_dec s g b : Decision (group_ok s g b).
Proof. unfold group_ok. destruct (s !! g) as [[x|d]|]; apply _. Defined.

Definition groups_ok (s : gmap string pyval) : Prop :=
  Forall (fun pgb => group_ok s pgb.1.2 pgb.2) record_groups.

(** The session holds everything the record assembly reads; [init_state]
    establishes this and the pages keep it. *)
Definition well_formed (σ : State) : Prop :=
  Forall (fun k => is_Some (session σ !! k)) read_keys /\ groups_ok (session σ).

#[global] Instance well_formed_dec σ : Decision (well_formed σ).
Proof. unfold well_formed, groups_ok. apply _. Defined.

(** A session before [init_state] has run, or a well-formed one. *)
Definition empty_or_well_formed (σ : State) : Prop :=
  session σ = ∅ \/ well_formed σ.

(** The page as the review step leaves it before it acts on Submit. *)
Definition review_rendered (σ : State) : State :=
  add_rendered (EButton "Submit" "Submit") (add_rendered (EHeader "Review & Submit") σ).

(** What the review step does with a click on Submit, in terms of the
    record it builds: the fetched table with the record as its last row is
    written in one upload and success is reported, or the upload raises and
    the failure is reported with the message of the exception. *)
Definition submission (r : Run) (σ : State) (record : pydict) : Prop :=
  let existing := fetched_table (remote r) in
  let updated := pd.concat2 existing (pd.of_records [record]) in
  let σ' := (review_block r σ).1 in
  flattens (session σ) (utcnow r) record /\
  pd.rows updated = pd.rows existing ++ [record] /\
  (review_block r σ).2 = Ok tt /\
  session σ' = session σ /\
  match upload_raises r with
  | None =>
      uploads σ' = uploads σ
                   ++ [mkUpload (HF_DATASET_REPO r) (HF_DATASET_PATH r) updated] /\
      rendered σ' = rendered (review_rendered σ) ++ [ESuccess "Submitted successfully!"]
  | Some msg =>
      uploads σ' = uploads σ /\
      rendered σ' = rendered (review_rendered σ) ++ [EError ("Upload failed: " +:+ msg)]
  end.

(** [updated] is [existing] with [record] appended as its last row: the
    earlier rows are where they were, cell by cell. *)
Definition appended_last (existing updated : pd.DataFrame) (record : pydict) : Prop :=
  (forall i c, i < length (pd.rows existing) ->
               pd.cell updated i c = pd.cell existing i c) /\
  length (pd.rows updated) = S (length (pd.rows existing)) /\
  last (pd.rows updated) = Some record.

(** The review step handles a click on Submit as a whole. *)
Definition submit_appends (r : Run) (σ : State) : Prop :=
  exists record,
    submission r σ record /\
    appended_last (fetched_table (remote r))
      (pd.concat2 (fetched_table (remote r)) (pd.of_records [record])) record /\
    (last (rendered (review_block r σ).1) = Some (ESuccess "Submitted successfully!")
     <-> upload_raises r = None).

(** The remote read is replaced by the empty table and the submission goes
    through with one row. *)
Definition fallback_table (r : Run) : Prop :=
  forall repo path σ0,
    load_existing_hf_csv r repo path σ0 = (σ0, Ok (pd.empty ["participant_id"])).

Definition submits_single_row (r : Run) (σ : State) : Prop :=
  exists record u,
    flattens (session σ) (utcnow r) record /\
    (review_block r σ).2 = Ok tt /\
    uploads (review_block r σ).1 = uploads σ ++ [u] /\
    pd.rows (up_table u) = [record] /\
    last (rendered (review_block r σ).1) = Some (ESuccess "Submitted successfully!").

(** The submission is reported as failed with [msg] and nothing else
    changes. *)
Definition reported_failed (r : Run) (σ : State) (msg : string) : Prop :=
  let σ' := (review_block r σ).1 in
  (review_block r σ).2 = Ok tt /\
  rendered σ' = rendered (review_rendered σ) ++ [EError ("Upload failed: " +:+ msg)] /\
  session σ' = session σ /\
  at_step "review" σ' /\
  uploads σ' = uploads σ /\
  step_is "review" (interact r σ).1.

(** ** What is on the page *)

(** The element [e] is on the page. *)
Definition shows (e : Element) (σ : State) : Prop := e ∈ rendered σ.


(** The step is [s] and its page is being shown. *)
Definition serving (s t : string) (σ : State) : Prop :=
  at_step s σ /\ shows (EHeader t) σ.

(** The consent page has rejected Continue. *)
Definition consent_warned (σ : State) : Prop :=
  at_step "consent" σ /\ shows (EWarning "You must agree to continue.") σ.

(** ** The post-session groups *)

Definition post_groups : list string := [ "emp_post"; "neu_post" ].

(** The flat keys of the record that come from the post-session groups. *)
Definition post_keys : list string :=
  flat_keys "emp_post_q" 1 8 ++ flat_keys "neu_post_q" 1 8.

(** A post-session group of the session is as [init_state] made it (or
    [init_state] has not run yet). *)
Definition posts_untouched (σ : State) : Prop :=
  Forall (fun g => session σ !! g = None \/
                   session σ !! g = Some (PDict (none_group 1 8))) post_groups.

(** The post-session fields of a record are all [None]. *)
Definition record_posts_none (record : pydict) : Prop :=
  Forall (fun k => dict_get record k = Some (PScalar SNone)) post_keys.

(** The row an upload added, its last, has all post-session fields [None]. *)
Definition upload_posts_none (u : Upload) : Prop :=
  exists record, last (pd.rows (up_table u)) = Some record /\ record_posts_none record.

Definition posts_inv (σ : State) : Prop :=
  posts_untouched σ /\ Forall upload_posts_none (uploads σ).

(** The state a run of the script starts from: the page is empty. *)
Definition cleared (σ : State) : State :=
  {| session := session σ; rendered := []; uploads := uploads σ |}.

(** ** Configuration *)

(** A variable the script validates is absent or empty. *)
Definition missing_configuration (r : Run) : Prop :=
  truthy_opt (HF_TOKEN r) = false \/ truthy_opt (HF_DATASET_REPO r) = false.


(** The flag [step_changed] is not set. *)
Definition flag_unset (σ : State) : Prop :=
  session σ !! "step_changed" <> Some (PScalar (SBool true)).

(** ** A sample session, for examples *)

Definition demo_environ : gmap string string :=
  <["HF_TOKEN" := "hf_sample"]> (<["HF_DATASET_REPO" := "study/responses"]> ∅).

Definition demo_widget (ident : string) : scalar :=
  if String.eqb ident "emp_voice_select" then
    SStr "Slow Empathetic — Female | American | Slower, more caring pace for empathy"
  else if String.eqb ident "neu_voice_select" then
    SStr "Neutral Robotic — Male | Neutral | Faster, monotone for neutral tone"
  else if String.eqb ident "emp_script_text" then SStr "Hi, I'm glad you're here."
  else if String.eqb ident "neu_script_text" then SStr "Hello, thank you for participating."
  else if String.eqb ident "Q1. Enter your age (years)" then SInt 25
  else if String.eqb ident "Q2. Your gender" then SStr "Female"
  else SInt 1.

Definition demo_run (click : option string) (agree : bool) (f : RemoteFile)
    (up : option string) : Run :=
  {| environ := demo_environ; save_token_fails := None;
     utcnow := "2025-01-01T10:00:00"; uuid4 := "0f8fad5b-d9cb-469f-a165-70867728950e";
     clicked := click; checkbox := fun _ => agree; widget := demo_widget;
     remote := f; upload_raises := up |}.

(** The page is loaded, then the participant agrees and presses Continue on
    every page up to the review step. *)
Definition demo_walk : list Run :=
  map (fun c => demo_run c true (NotFound "404 Client Error") None)
    [ None; Some continue_label; Some "next_baseline"; Some "next_session_emp";
      Some "next_session_neu"; Some "next_open"; Some "next_review" ].

Definition demo_review : State :=
  default new_session (last (session_states demo_walk new_session)).

(** The page is loaded for the first time. *)
Definition demo_consent : State :=
  (interact (demo_run None false (NotFound "404 Client Error") None) new_session).1.


(** A table with one earlier row. *)
Definition demo_table : pd.DataFrame :=
  {| pd.columns := ["participant_id"; "age"];
     pd.rows := [[("participant_id", str "p-1"); ("age", PScalar (SInt 40))]] |}.

(** ** The tone transform *)

(** [f] rewrites the substring [old] to [new] wherever it stands: around an
    occurrence the text is transformed piece by piece. *)
Definition rewrites (f : string -> string) (old new : string) : Prop :=
  forall a b, f (a +:+ old +:+ b) = f a +:+ new +:+ f b.

(** ** Vocabulary of the further properties *)

(** The value of [st.session_state.get("step_changed", False)] is true. *)
Definition flag_set (σ : State) : bool :=
  truthy (default (PScalar (SBool false)) (session σ !! "step_changed")).

(** [st.session_state[k]] is [v]. *)
Definition holds (k : string) (v : pyval) (σ : State) : Prop :=
  session σ !! k = Some v.

(** The keys of [st.session_state] the script assigns after [init_state]:
    the step, the two flags, and the answers. *)
Definition assigned_keys : list string :=
  [ "step"; "step_changed"; "consented" ] ++ scalar_answer_keys ++ group_answer_keys.

(** The answers each page assigns: the keys it assigns widget values to,
    and the groups it assigns items of. *)
Definition page_scalars (s : string) : list string :=
  if String.eqb s "demographics" then
    [ "age"; "gender"; "gender_other"; "education"; "voice_exp"; "used_assistants";
      "tech_comfort" ]
  else if String.eqb s "baseline" then [ "gad_impact"; "single_mood" ]
  else if String.eqb s "session_emp" then [ "emp_state_anxiety" ]
  else if String.eqb s "session_neu" then [ "neu_state_anxiety" ]
  else if String.eqb s "open" then open_keys
  else [].

Definition page_groups (s : string) : list string :=
  if String.eqb s "baseline" then [ "gad"; "panas" ]
  else if String.eqb s "session_emp" then [ "emp" ]
  else if String.eqb s "session_neu" then [ "neu" ]
  else [].

(** The keys of [st.session_state] a run started at step [s] may assign: the
    step and its flag, the answers of the page of [s], and on the consent
    page the consent flag. *)
Definition written_keys (s : string) : list string :=
  [ "step"; "step_changed" ]
  ++ (if String.eqb s "consent" then [ "consented" ] else [])
  ++ page_scalars s ++ page_groups s.

(** Under [J], an item assignment [st.session_state[g][k] = v] finds a
    dictionary under [g], or else [E] accepts the exception it raises. *)
Definition group_guard (J : State -> Prop) (E : exn -> State -> Prop) (g : string) : Prop :=
  forall σ, J σ ->
    match session σ !! g with
    | Some (PDict _) => True
    | Some (PScalar _) => E (TypeError "object does not support item assignment") σ
    | None => E (KeyError g) σ
    end.

(** Under [J], the widgets of a voice session hold a label that names a
    voice and a text, or else [E] accepts the exception the page raises. *)
Definition voice_guard (J : State -> Prop) (E : exn -> State -> Prop) (r : Run)
    (select_key script_key : string) : Prop :=
  forall σ, J σ ->
    match widget r select_key, widget r script_key with
    | SStr label, SStr _ =>
        match voice_lookup (split_first voice_sep label) VOICE_OPTIONS with
        | Some _ => True
        | None => E (KeyError (split_first voice_sep label)) σ
        end
    | _, _ => E (TypeError "expected str") σ
    end.

(** The step is [s] and the key [k] has the value [v]. *)
Definition frame_inv (s k : string) (v : pyval) (σ : State) : Prop :=
  at_step s σ /\ holds k v σ.

(** The participant is on the consent page or has agreed. *)
Definition consent_given (σ : State) : Prop :=
  step_is "consent" σ \/ holds "consented" (PScalar (SBool true)) σ.

(** The uploads performed so far are [U], and the run is not one that
    submits: when it was started by a click on Submit, the step is not
    [review]. *)
Definition not_submitting (r : Run) (U : list Upload) (σ : State) : Prop :=
  uploads σ = U /\ (clicked r = Some "Submit" -> ~ step_is "review" σ).

(** The uploads performed so far are [U]. *)
Definition uploads_are (U : list Upload) (σ : State) : Prop := uploads σ = U.

(** At most one upload was added to [U], to the repository and the path of
    the configuration. *)
Definition one_upload_more (r : Run) (U : list Upload) (σ : State) : Prop :=
  uploads σ = U \/
  exists df, uploads σ = U ++ [mkUpload (HF_DATASET_REPO r) (HF_DATASET_PATH r) df].

(** ** Voices and speech text *)

(** The label of a voice in the two select boxes (lines 459-460 and
    509-510): [f"{name} — {info['gender']} | {info['accent']} | {info['description']}"]. *)
Definition voice_option_label (name : string) (info : VoiceConfig) : string :=
  name +:+ " — " +:+ gender info +:+ " | " +:+ accent info +:+ " | " +:+ description info.

Definition voice_options : list string :=
  map (fun '(name, info) => voice_option_label name info) VOICE_OPTIONS.

(** Every occurrence of the character [c] in [s] comes right after a
    backslash; [prev] tells whether the character before [s] is one. *)
Fixpoint guarded_from (c : ascii) (prev : bool) (s : string) : bool :=
  match s with
  | EmptyString => true
  | String d s' =>
      (if Ascii.eqb d c then prev else true)
      && guarded_from c (Ascii.eqb d (ascii_of_nat 92)) s'
  end.

Definition backslashed (c : ascii) (s : string) : Prop := guarded_from c false s = true.

(** The text [create_speech_html] puts between the quotes of the JavaScript
    string literal (line 115). *)
Definition safe_text (text tone : string) : string :=
  PyStr.replace newline (backslash +:+ "n")
    (PyStr.replace quote (backslash +:+ quote)
       (PyStr.replace "'" (backslash +:+ "'") (preprocess_text_for_tone text tone))).

(** ** Runs a browser can produce *)

(** The select box with key [key] holds one of the labels it offers. *)
Definition offered (r : Run) (key : string) : Prop :=
  exists name info, (name, info) ∈ VOICE_OPTIONS /\
                    widget r key = SStr (voice_option_label name info).

(** The text area with key [key] holds a text. *)
Definition is_text (r : Run) (key : string) : Prop :=
  exists text, widget r key = SStr text.

(** The token call returns, and the widgets of the two voice sessions hold
    what such widgets can hold. *)
Definition valid_run (r : Run) : Prop :=
  save_token_raises r = None /\
  offered r "emp_voice_select" /\ is_text r "emp_script_text" /\
  offered r "neu_voice_select" /\ is_text r "neu_script_text".

(** The outcome of each interaction of a session. *)
Fixpoint session_outcomes (rs : list Run) (σ : State) : list (result unit) :=
  match rs with
  | [] => []
  | r :: rs' => (interact r σ).2 :: session_outcomes rs' (interact r σ).1
  end.

(** The step is [s] and the session holds what the pages and the record
    assembly read. *)
Definition ready (s : string) (σ : State) : Prop := at_step s σ /\ well_formed σ.

(** The only exception is the request for a rerun. *)
Definition only_rerun (e : exn) (σ : State) : Prop := e = RerunException.

(** Any exception but the request for a rerun. *)
Definition never_rerun (e : exn) (σ : State) : Prop := e <> RerunException.

Definition anything (σ : State) : Prop := True.

(** ** Answers *)

(** [st.session_state[g][k]], when there is such an item. *)
Definition item (σ : State) (g k : string) : option scalar :=
  match session σ !! g with
  | Some (PDict d) => d !! k
  | _ => None
  end.

(** The items of the group [g] other than those in [keys] are those of
    [d]. *)
Definition other_items (σ : State) (g : string) (keys : list string)
    (d : gmap string scalar) : Prop :=
  forall k, k ∉ keys -> item σ g k = d !! k.

(** [st.session_state.get(k)] is [o]: the value of [k], or nothing. *)
Definition reads (k : string) (o : option pyval) (σ : State) : Prop :=
  session σ !! k = o.

(** ** The record assembly *)

(** The exceptions a failed read of [st.session_state] raises. *)
Definition lookup_error (e : exn) : Prop :=
  match e with
  | KeyError _ | TypeError _ => True
  | _ => False
  end.

Definition raises_lookup_error (e : exn) (σ : State) : Prop := lookup_error e.

(** The run reads from the hub the table the last upload wrote. *)
Definition reads_back (r : Run) (σ : State) : Prop :=
  Some (remote r) = (fun u => Table (up_table u)) <$> last (uploads σ).

(** [s.split()]: the words of [s], separated by runs of blanks (the ASCII
    characters [str.isspace] accepts); [cur] is the word being read. *)
Definition is_blank (c : ascii) : bool :=
  let n := nat_of_ascii c in
  (n =? 32)%nat || ((9 <=? n)%nat && (n <=? 13)%nat)
  || ((28 <=? n)%nat && (n <=? 31)%nat).

Fixpoint split_words (s cur : string) : list string :=
  match s with
  | EmptyString => if String.eqb cur "" then [] else [cur]
  | String c s' =>
      if is_blank c then
        (if String.eqb cur "" then split_words s' "" else cur :: split_words s' "")
      else split_words s' (cur +:+ String c "")
  end.

(** ** The keys of the script and the keys of the widgets *)

(** The keys [init_state] creates. With ["step_changed"] they are the keys
    of [st.session_state] the script itself assigns and reads; [session]
    stands for this part of [st.session_state]. *)
Definition state_keys (r : Run) : list string := (defaults r).*1.

(** The [key=] arguments of the widgets of the pages. Streamlit keeps the
    current value of a keyed widget in [st.session_state] under that key
    and drops it when the widget is no longer on the page; these entries
    are the widgets' own ([widget] of the run), no statement of the script
    assigns or reads them. *)
Definition widget_keys : list string :=
  [ "emp_voice_select"; "emp_script_text"; "emp_anxiety";
    "neu_voice_select"; "neu_script_text"; "neu_anxiety" ]
  ++ empathetic_questions.*1 ++ neutral_questions.*1
  ++ flat_map (fun '(_, (p, n)) => [ "back_" +:+ p; "next_" +:+ n ]) nav_links.

(** ** Clicks on the buttons a page offers *)

(** The click on the Continue button of the page of step [a], which leads
    to [b]: the consent page has its own button, identified by its label,
    and acts on it when the box is checked; every other page has the button
    [next_b] of [navigation_buttons]. *)
Definition continue_click (a b : string) (r : Run) : Prop :=
  if String.eqb a "consent"
  then clicked r = Some continue_label /\ checkbox r "I agree to participate." = true
  else clicked r = Some ("next_" +:+ b).

(** The click on the Back button that leads to [a]. *)
Definition back_click (a : string) (r : Run) : Prop :=
  clicked r = Some ("back_" +:+ a).

(** The run [r], started at step [s], was started by a click on a button
    the page of [s] offers, and that button leads to [t]. *)
Definition leads (r : Run) (s t : string) : Prop :=
  (s = "consent" /\ t = "demographics" /\ continue_click s t r) \/
  (exists p n, (s, (p, n)) ∈ nav_links /\
     ((t = n /\ clicked r = Some ("next_" +:+ n)) \/
      (t = p /\ clicked r = Some ("back_" +:+ p)))).

(** In the state [σ] every click on an offered button moves the step: for
    an edge from [a] to [b] of the step machine, Continue at [a] is accepted
    and the interaction ends at [b], and Back at [b] (the review page
    offers none) is accepted and the interaction ends at [a]. *)
Definition clicks_move (σ : State) : Prop :=
  forall r a b, valid_run r -> (a, b) ∈ forward_edges ->
    (step_is a σ -> continue_click a b r ->
     accepted r σ /\ step_is b (interact r σ).1) /\
    (step_is b σ -> b <> "review" -> back_click a r ->
     accepted r σ /\ step_is a (interact r σ).1).

(** The run asks for a rerun at step [t]. *)
Definition reruns_at (t : string) (e : exn) (σ : State) : Prop :=
  e = RerunException /\ at_step t σ.

Definition nowhere (σ : State) : Prop := False.

(** ** The post-session groups, present *)

(** Both post-session groups are in the session, with [q1] ... [q7] all
    [None]. *)
Definition posts_none (σ : State) : Prop :=
  Forall (fun g => holds g (PDict (none_group 1 8)) σ) post_groups.

(** The key [k] is absent or has the value [v]. *)
Definition absent_or (k : string) (v : pyval) (σ : State) : Prop :=
  session σ !! k = None \/ holds k v σ.

(** ** A run without the token *)

(** * Properties *)

(** ** Facts about [str.replace] *)

Module PyStrFacts.
Import PyStr.

(** [s1 +:+ s2] is [String.append], Python's [+] on [str]. *)

Lemma append_nil_l (s : string) : "" +:+ s = s.
Proof. reflexivity. Qed.

Lemma append_cons (c : ascii) (a b : string) :
  String c a +:+ b = String c (a +:+ b).
Proof. reflexivity. Qed.

Lemma append_nil_r (s : string) : s +:+ "" = s.
Proof.
  induction s as [|c s IH]; [reflexivity|].
  now rewrite append_cons, IH.
Qed.

Lemma append_assoc (a b c : string) : (a +:+ b) +:+ c = a +:+ (b +:+ c).
Proof.
  induction a as [|x a IH]; [reflexivity|].
  now rewrite !append_cons, IH.
Qed.

Lemma length_append (a b : string) :
  String.length (a +:+ b) = String.length a + String.length b.
Proof.
  induction a as [|x a IH]; [reflexivity|].
  rewrite append_cons. simpl. now rewrite IH.
Qed.

(** *** Facts about the scan *)

Lemma prefix_length (p s : string) :
  String.prefix p s = true -> String.length p <= String.length s.
Proof.
  revert s. induction p as [|a p IH]; intros [|b s]; simpl; try lia; try discriminate.
  destruct (ascii_dec a b); [|discriminate]. intros H. apply IH in H. lia.
Qed.

Lemma prefix_append_l (p s : string) : String.prefix p (p +:+ s) = true.
Proof.
  induction p as [|a p IH]; [now destruct s|].
  rewrite append_cons. simpl. destruct (ascii_dec a a); [exact IH|congruence].
Qed.

Lemma prefix_append_mono (p x y : string) :
  String.prefix p x = true -> String.prefix p (x +:+ y) = true.
Proof.
  revert x. induction p as [|a p IH]; intros [|b x]; try rewrite append_cons;
    simpl; try discriminate; auto.
  - now destruct y.
  - destruct (ascii_dec a b); [apply IH|discriminate].
Qed.

(** A character that does not occur in [p] stops every occurrence of [p]
    that starts before it. *)
Lemma prefix_barrier (c : ascii) (p x y : string) :
  mem c p = false ->
  String.prefix p (x +:+ String c y) = String.prefix p x.
Proof.
  revert x. induction p as [|a p IH]; intros x Hc; [now destruct x|].
  simpl in Hc. destruct (Ascii.eqb_spec c a) as [->|Hca]; [discriminate|].
  destruct x as [|b x].
  - rewrite append_nil_l. simpl. destruct (ascii_dec a c); congruence.
  - rewrite append_cons. simpl. destruct (ascii_dec a b); [now apply IH|reflexivity].
Qed.

Lemma scan_skip (old new : string) (k : nat) (x y : string) :
  String.length x = k ->
  replace_scan old new k (x +:+ y) = replace_scan old new 0 y.
Proof.
  revert k. induction x as [|b x IH]; intros k Hk; simpl in Hk; subst k.
  - reflexivity.
  - rewrite append_cons. simpl. now apply IH.
Qed.

Lemma scan_barrier (old new : string) (c : ascii) (y : string) :
  old <> "" -> mem c old = false ->
  forall (x : string) (k : nat), k <= String.length x ->
  replace_scan old new k (x +:+ String c y)
  = replace_scan old new k x +:+ String c (replace_scan old new 0 y).
Proof.
  intros Hne Hc. induction x as [|b x IH]; intros k Hk.
  - simpl in Hk. assert (k = 0) as -> by lia.
    rewrite append_nil_l, (append_nil_l (String c _)).
    cbn [replace_scan].
    replace (String.prefix old (String c y)) with false; [reflexivity|].
    destruct old as [|a old]; [congruence|].
    simpl in Hc |- *. destruct (Ascii.eqb_spec c a); [discriminate|].
    destruct (ascii_dec a c); congruence.
  - rewrite append_cons. destruct k as [|k]; cbn [replace_scan].
    + rewrite <- (append_cons b x (String c y)), prefix_barrier by exact Hc.
      destruct (String.prefix old (String b x)) eqn:Hp.
      * apply prefix_length in Hp. simpl in Hp.
        rewrite IH by lia. now rewrite append_assoc.
      * rewrite IH by lia. now rewrite append_cons.
    + simpl in Hk. apply IH. lia.
Qed.

(** An occurrence of [old] whose first character does not occur again in
    [old] is found by the scan wherever it stands. *)
Lemma scan_hit (h : ascii) (t new y : string) :
  mem h t = false ->
  forall (x : string) (k : nat), k <= String.length x ->
  replace_scan (String h t) new k (x +:+ (String h t +:+ y))
  = replace_scan (String h t) new k x
    +:+ (new +:+ replace_scan (String h t) new 0 y).
Proof.
  intros Hh. induction x as [|b x IH]; intros k Hk.
  - simpl in Hk. assert (k = 0) as -> by lia.
    rewrite append_nil_l, (append_nil_l (new +:+ _)).
    generalize (prefix_append_l (String h t) y). rewrite append_cons.
    cbn [replace_scan]. intros ->. f_equal.
    apply scan_skip. simpl. lia.
  - rewrite append_cons. destruct k as [|k]; cbn [replace_scan].
    + assert (String.prefix (String h t) (String b (x +:+ (String h t +:+ y)))
              = String.prefix (String h t) (String b x)) as ->.
      { rewrite append_cons. simpl. destruct (ascii_dec h b); [|reflexivity].
        now apply prefix_barrier. }
      destruct (String.prefix (String h t) (String b x)) eqn:Hp.
      * apply prefix_length in Hp. simpl in Hp.
        rewrite IH by (simpl; lia). now rewrite append_assoc.
      * rewrite IH by lia. now rewrite append_cons.
    + simpl in Hk. apply IH. lia.
Qed.

(** A fresh scan copies a character that is not the first of [old]. *)
Lemma scan_copy (h : ascii) (t new : string) (l y : string) :
  mem h l = false ->
  replace_scan (String h t) new 0 (l +:+ y)
  = l +:+ replace_scan (String h t) new 0 y.
Proof.
  induction l as [|c l IH]; intros Hl; [reflexivity|].
  simpl in Hl. rewrite append_cons. destruct (Ascii.eqb_spec h c); [discriminate|].
  cbn [replace_scan]. simpl String.prefix.
  destruct (ascii_dec h c); [congruence|].
  rewrite IH by exact Hl. now rewrite append_cons.
Qed.

(** *** The two rewriting rules for [replace] used below *)

(** [old] occurs, and its first character occurs only once in it. *)
Lemma replace_hit (h : ascii) (t new x y : string) :
  mem h t = false ->
  replace (String h t) new (x +:+ (String h t +:+ y))
  = replace (String h t) new x +:+ (new +:+ replace (String h t) new y).
Proof. intros Hh. unfold replace. apply scan_hit; [exact Hh|lia]. Qed.

(** A literal [String c l] that starts with a character foreign to [old] and
    nowhere contains the first character of [old] is copied. *)
Lemma replace_pass (h : ascii) (t new : string) (c : ascii) (l x y : string) :
  mem c (String h t) = false -> mem h l = false ->
  replace (String h t) new (x +:+ (String c l +:+ y))
  = replace (String h t) new x +:+ (String c l +:+ replace (String h t) new y).
Proof.
  intros Hc Hl. unfold replace. rewrite append_cons.
  rewrite scan_barrier by (try exact Hc; try lia; congruence).
  now rewrite scan_copy, append_cons.
Qed.

End PyStrFacts.

Example replace_overlap : PyStr.replace "aa" "b" "aaaaa" = "bba".
Proof. reflexivity. Qed.

Example replace_empty_old : PyStr.replace "" "-" "abc" = "-a-b-c-".
Proof. reflexivity. Qed.

Example tone_neutral_D :
  preprocess_text_for_tone "I'm glad you're wonderful" "neutral"
  = "I am pleased you are acceptable".
Proof. reflexivity. Qed.

Example tone_empathetic_D :
  preprocess_text_for_tone "I'm glad. You're wonderful, truly." "empathetic"
  = "I'm glad...  You are truly wonderful,  truly... ".
Proof. reflexivity. Qed.

(** ** Rules of the program logic *)

Local Open Scope py_scope.

Section Rules.
Context (J : State -> Prop) (E : exn -> State -> Prop).

Lemma keeps_ret {A} (a : A) : keeps J E (ret a).
Proof. intros σ HJ. exact HJ. Qed.

Lemma keeps_raise {A} (e : exn) :
  (forall σ, J σ -> E e σ) -> keeps J E (raise (A := A) e).
Proof. intros H σ HJ. apply H, HJ. Qed.

Lemma keeps_bind {A B} (m : M A) (f : A -> M B) :
  keeps J E m -> (forall a, keeps J E (f a)) -> keeps J E (bind m f).
Proof.
  intros Hm Hf σ HJ. unfold bind. specialize (Hm σ HJ).
  destruct (m σ) as [σ' [a|e]]; [apply Hf, Hm|exact Hm].
Qed.

Lemma keeps_bind_ret {A B} (a : A) (f : A -> M B) :
  keeps J E (f a) -> keeps J E (bind (ret a) f).
Proof. intros H σ HJ. apply H, HJ. Qed.

Lemma keeps_bind_assoc {A B C} (m : M A) (g : A -> M B) (f : B -> M C) :
  keeps J E (bind m (fun x => bind (g x) f)) -> keeps J E (bind (bind m g) f).
Proof.
  intros H σ HJ. specialize (H σ HJ). unfold bind in *.
  destruct (m σ) as [σ' [a|e]]; exact H.
Qed.

Lemma keeps_when (b : bool) (m : M unit) :
  (b = true -> keeps J E m) -> keeps J E (when b m).
Proof. destruct b; intros H; [now apply H|apply keeps_ret]. Qed.

Lemma keeps_for {A} (l : list A) (body : A -> M unit) :
  (forall x, x ∈ l -> keeps J E (body x)) -> keeps J E (for_ l body).
Proof.
  induction l as [|x l IH]; intros H; simpl; [apply keeps_ret|].
  apply keeps_bind; [apply H; left|intros _; apply IH].
  intros y Hy. apply H. now right.
Qed.

Lemma keeps_for_acc {A B} (l : list A) (acc : B) (body : B -> A -> M B) :
  (forall acc x, x ∈ l -> keeps J E (body acc x)) -> keeps J E (for_acc l acc body).
Proof.
  revert acc. induction l as [|x l IH]; intros acc H; simpl; [apply keeps_ret|].
  apply keeps_bind; [apply H; left|intros acc'; apply IH].
  intros acc'' y Hy. apply H. now right.
Qed.

Lemma keeps_try_except {A} (m : M A) (h : exn -> M A) :
  keeps J (fun e σ => if is_Exception e then J σ else E e σ) m ->
  (forall e, keeps J E (h e)) ->
  keeps J E (try_except m h).
Proof.
  intros Hm Hh σ HJ. unfold try_except. specialize (Hm σ HJ).
  destruct (m σ) as [σ' [a|e]]; [exact Hm|].
  destruct (is_Exception e); [apply Hh, Hm|exact Hm].
Qed.

(** *** [st.session_state] *)

Lemma keeps_ss_getitem (k : string) :
  (forall σ, J σ -> session σ !! k = None -> E (KeyError k) σ) ->
  keeps J E (ss_getitem k).
Proof.
  intros H σ HJ. unfold ss_getitem.
  destruct (session σ !! k) eqn:Hk; [exact HJ|now apply H].
Qed.

Lemma keeps_ss_get (k : string) (d : pyval) : keeps J E (ss_get k d).
Proof. intros σ HJ. exact HJ. Qed.

Lemma keeps_ss_contains (k : string) : keeps J E (ss_contains k).
Proof. intros σ HJ. exact HJ. Qed.

Lemma keeps_ss_setitem (k : string) (v : pyval) :
  allows J k v -> keeps J E (ss_setitem k v).
Proof. intros H σ HJ. apply H, HJ. Qed.

(** [if k not in st.session_state: st.session_state[k] = v] *)
Lemma keeps_set_if_absent (k : string) (v : pyval) :
  allows_new J k v ->
  keeps J E (present <- ss_contains k ;; when (negb present) (ss_setitem k v)).
Proof.
  intros H σ HJ. unfold bind, ss_contains, when.
  case_bool_decide as Hk; simpl; [exact HJ|].
  apply H; [exact HJ|]. now apply eq_None_not_Some.
Qed.

(** *** Streamlit *)

Lemma keeps_render `{!StableR J} (e : Element) : keeps J E (render e).
Proof. intros σ HJ. now apply stable_render. Qed.

(** A widget call returns a value the run determines; what follows is
    examined for that value. *)
Lemma keeps_bind_button `{!StableR J} {B} (r : Run) (label : string)
    (key : option string) (f : bool -> M B) :
  keeps J E (f (bool_decide (clicked r = Some (default label key)))) ->
  keeps J E (bind (st_button r label key) f).
Proof.
  intros H. unfold st_button. apply keeps_bind_assoc, keeps_bind.
  - now apply keeps_render.
  - intros _. now apply keeps_bind_ret.
Qed.

Lemma keeps_bind_checkbox `{!StableR J} {B} (r : Run) (label : string)
    (f : bool -> M B) :
  keeps J E (f (checkbox r label)) ->
  keeps J E (bind (st_checkbox r label) f).
Proof.
  intros H. unfold st_checkbox. apply keeps_bind_assoc, keeps_bind.
  - now apply keeps_render.
  - intros _. now apply keeps_bind_ret.
Qed.

Lemma keeps_st_input `{!StableR J} (r : Run) (label : string) (key : option string) :
  keeps J E (st_input r label key).
Proof.
  unfold st_input. apply keeps_bind; [now apply keeps_render|].
  intros _. apply keeps_ret.
Qed.

End Rules.

Lemma keeps_weaken {A} (J : State -> Prop) (E E' : exn -> State -> Prop) (m : M A) :
  (forall e σ, E e σ -> E' e σ) -> keeps J E m -> keeps J E' m.
Proof.
  intros HE Hm σ HJ. specialize (Hm σ HJ).
  destruct (m σ) as [σ' [a|e]]; [exact Hm|now apply HE].
Qed.

(** ** Sequencing with changing assertions *)

Lemma hoare_seq {A B} (P Q R : State -> Prop) (E : exn -> State -> Prop)
    (m : M A) (f : A -> M B) :
  hoare P m Q E -> (forall a, hoare Q (f a) R E) -> hoare P (bind m f) R E.
Proof.
  intros Hm Hf σ HP. unfold bind. specialize (Hm σ HP).
  destruct (m σ) as [σ' [a|e]]; [apply Hf, Hm|exact Hm].
Qed.

Lemma hoare_conseq {A} (P P' Q Q' : State -> Prop) (E E' : exn -> State -> Prop)
    (m : M A) :
  (forall σ, P' σ -> P σ) -> (forall σ, Q σ -> Q' σ) ->
  (forall e σ, E e σ -> E' e σ) ->
  hoare P m Q E -> hoare P' m Q' E'.
Proof.
  intros HP HQ HE Hm σ H. specialize (Hm σ (HP σ H)).
  destruct (m σ) as [σ' [a|e]]; auto.
Qed.



(** ** Rules for the functions of the script *)

(** Membership in a list given by its elements. *)
Ltac in_list_l :=
  solve [repeat first [apply elem_of_cons; left; reflexivity | apply elem_of_cons; right]].

Ltac keeps_step :=
  lazymatch goal with
  | |- keeps _ _ (bind (st_button _ _ _) _) => apply keeps_bind_button; [assumption|]
  | |- keeps _ _ (bind (st_checkbox _ _) _) => apply keeps_bind_checkbox; [assumption|]
  | |- keeps _ _ (bind (bind _ _) _) => apply keeps_bind_assoc
  | |- keeps _ _ (bind (ret _) _) => apply keeps_bind_ret
  | |- keeps _ _ (bind _ _) => apply keeps_bind; [|intros ?]
  | |- keeps _ _ (ret _) => apply keeps_ret
  | |- keeps _ _ (when _ _) => apply keeps_when; intros ?
  | |- keeps _ _ (for_ _ _) => apply keeps_for; intros [? ?] ?
  | |- keeps _ _ (render _) => apply keeps_render; assumption
  | |- keeps _ _ (st_header _) => apply keeps_render; assumption
  | |- keeps _ _ (st_error _) => apply keeps_render; assumption
  | |- keeps _ _ (st_warning _) => apply keeps_render; assumption
  | |- keeps _ _ (st_success _) => apply keeps_render; assumption
  | |- keeps _ _ (st_input _ _ _) => apply keeps_st_input; assumption
  | |- keeps _ _ (ss_get _ _) => apply keeps_ss_get
  | |- keeps _ _ (ss_contains _) => apply keeps_ss_contains
  | |- keeps _ _ (ss_setitem _ _) => apply keeps_ss_setitem
  | |- keeps _ _ (ss_getitem _) => apply keeps_ss_getitem
  | |- keeps _ _ (raise _) => apply keeps_raise
  | |- keeps _ _ (match ?x with _ => _ end) => destruct x
  end.

(** The token call raises a [TypeError] or an error of the hub, never
    [RerunException]. *)
Lemma save_token_raises_cases (r : Run) (e : exn) :
  save_token_raises r = Some e ->
  (exists msg, e = TypeError msg) \/ (exists msg, e = HubError msg).
Proof.
  unfold save_token_raises. destruct (HF_TOKEN r).
  - destruct (save_token_fails r) as [msg|]; [|discriminate].
    intros [= <-]. right. now exists msg.
  - intros [= <-]. left. now eexists.
Qed.

Section ScriptRules.
Context (J : State -> Prop) (E : exn -> State -> Prop) `{HR : !StableR J}.

Lemma keeps_basic_validations (r : Run) : keeps J E (basic_validations r).
Proof. unfold basic_validations. repeat keeps_step. Qed.

Lemma keeps_save_token (r : Run) :
  (forall e σ, save_token_raises r = Some e -> J σ -> E e σ) ->
  keeps J E (HfFolder_save_token r).
Proof.
  intros H. unfold HfFolder_save_token.
  destruct (save_token_raises r) as [e|] eqn:Hs; repeat keeps_step.
  intros σ. now apply H.
Qed.

Lemma keeps_init_state (r : Run) :
  (forall k v, (k, v) ∈ defaults r -> allows_new J k v) ->
  keeps J E (init_state r).
Proof.
  intros H. unfold init_state. apply keeps_for. intros [k v] Hkv.
  apply keeps_set_if_absent. now apply H.
Qed.

Lemma keeps_scroll_to_top :
  allows J "step_changed" (PScalar (SBool false)) -> keeps J E scroll_to_top.
Proof. intros H. unfold scroll_to_top. repeat keeps_step. exact H. Qed.

Lemma keeps_show_progress :
  (forall σ, J σ -> list_index (current_step σ) steps = None ->
             E (ValueError "is not in list") σ) ->
  keeps J E show_progress.
Proof.
  intros H σ HJ. unfold show_progress, bind, ss_get. fold (current_step σ).
  destruct (list_index (current_step σ) steps) eqn:Hi; simpl.
  - now apply stable_render.
  - now apply H.
Qed.

Lemma keeps_prelude (r : Run) :
  (forall e σ, save_token_raises r = Some e -> J σ -> E e σ) ->
  (forall k v, (k, v) ∈ defaults r -> allows_new J k v) ->
  allows J "step_changed" (PScalar (SBool false)) ->
  (forall σ, J σ -> list_index (current_step σ) steps = None ->
             E (ValueError "is not in list") σ) ->
  keeps J E (prelude r).
Proof.
  intros Hs Hd Hc Hp. unfold prelude.
  apply keeps_bind; [apply keeps_basic_validations|intros _].
  apply keeps_bind; [now apply keeps_save_token|intros _].
  apply keeps_bind; [now apply keeps_init_state|intros _].
  apply keeps_bind; [now apply keeps_scroll_to_top|intros _].
  apply keeps_bind; [now apply keeps_show_progress|intros _].
  apply keeps_set_if_absent. apply (Hd "step" (str "consent")).
  unfold defaults. in_list_l.
Qed.

(** *** The step guard *)

Lemma keeps_if_step (name : string) (body : M unit) :
  (forall σ, J σ -> session σ !! "step" = None -> E (KeyError "step") σ) ->
  keeps J E body -> keeps J E (if_step name body).
Proof. intros Hk Hb. unfold if_step. repeat keeps_step; assumption. Qed.

Lemma keeps_if_step_skip (name s0 : string) (body : M unit) :
  (forall σ, J σ -> session σ !! "step" = Some (str s0)) ->
  s0 <> name -> keeps J E (if_step name body).
Proof.
  intros Hs Hne σ HJ. unfold if_step, bind, ss_getitem. rewrite (Hs σ HJ).
  rewrite bool_decide_eq_false_2; [exact HJ|]. unfold str. congruence.
Qed.

Lemma keeps_if_step_enter (name : string) (body : M unit) :
  (forall σ, J σ -> session σ !! "step" = Some (str name)) ->
  keeps J E body -> keeps J E (if_step name body).
Proof.
  intros Hs Hb σ HJ. unfold if_step, bind, ss_getitem. rewrite (Hs σ HJ).
  rewrite bool_decide_eq_true_2 by reflexivity. now apply Hb.
Qed.

(** *** Navigation *)

Lemma keeps_navigation_buttons (r : Run) (p n prev_label next_label : string) :
  nav_ok J E r p n ->
  keeps J E (navigation_buttons r (Some p) (Some n) prev_label next_label).
Proof.
  intros [Hp Hn]. unfold navigation_buttons.
  apply keeps_bind; [|intros _].
  - destruct (truthy_opt (Some p)); [|apply keeps_ret].
    keeps_step. apply keeps_when. intros Hc.
    apply bool_decide_eq_true in Hc. simpl in Hc.
    intros σ HJ. apply (Hp Hc σ HJ).
  - destruct (truthy_opt (Some n)); [|apply keeps_ret].
    keeps_step. apply keeps_when. intros Hc.
    apply bool_decide_eq_true in Hc. simpl in Hc.
    intros σ HJ. apply (Hn Hc σ HJ).
Qed.

Lemma hoare_consent_page (P : State -> Prop) (r : Run) :
  (forall σ, P σ -> J (add_rendered (EHeader "Informed Consent") σ)) ->
  (clicked r = Some continue_label ->
   checkbox r "I agree to participate." = true ->
   forall σ, J σ -> E RerunException (consent_moved σ)) ->
  hoare P (consent_page r) J E.
Proof.
  intros Hhead H. unfold consent_page.
  apply hoare_seq with J; [exact Hhead|intros _].
  change (keeps J E (consent <- st_checkbox r "I agree to participate." ;;
                     pressed <- st_button r continue_label None ;;
                     when pressed
                       (if consent then
                          ss_setitem "consented" (PScalar (SBool true)) ;;
                          ss_setitem "step" (str "demographics") ;;
                          st_rerun
                        else
                          st_warning "You must agree to continue."))).
  do 2 keeps_step.
  apply keeps_when. intros Hc. apply bool_decide_eq_true in Hc. simpl in Hc.
  destruct (checkbox r _) eqn:Hb; [|keeps_step].
  intros σ HJ. apply (H Hc eq_refl σ HJ).
Qed.

Lemma keeps_consent_page (r : Run) :
  (clicked r = Some continue_label ->
   checkbox r "I agree to participate." = true ->
   forall σ, J σ -> E RerunException (consent_moved σ)) ->
  keeps J E (consent_page r).
Proof.
  intros H. apply hoare_consent_page; [|exact H].
  intros σ HJ. now apply stable_render.
Qed.

(** *** The pages that collect answers *)

Section Pages.
Context (Htol : tolerated J E) (Hans : allows_answers J).

Lemma keeps_ss_setitem_in (g k : string) (v : scalar) :
  g ∈ group_answer_keys -> keeps J E (ss_setitem_in g k v).
Proof.
  intros Hg σ HJ. unfold ss_setitem_in, bind, ss_getitem.
  destruct (session σ !! g) as [[x|d]|] eqn:Hd; simpl.
  - apply Htol; [discriminate|exact HJ].
  - now apply (proj2 Hans g Hg).
  - apply Htol; [discriminate|exact HJ].
Qed.

Lemma keeps_ss_getitem_in (g k : string) : keeps J E (ss_getitem_in g k).
Proof.
  unfold ss_getitem_in. repeat keeps_step;
    try (intros σ HJ; intros; now apply Htol).
Qed.

Ltac page_step :=
  lazymatch goal with
  | |- keeps _ _ (navigation_buttons _ _ _ _ _) =>
      apply keeps_navigation_buttons; assumption
  | |- keeps _ _ (ss_setitem_in _ _ _) => apply keeps_ss_setitem_in
  | |- keeps _ _ (ss_getitem_in _ _) => apply keeps_ss_getitem_in
  | |- keeps _ _ (for_acc _ _ _) => apply keeps_for_acc; intros ? ? ?
  | _ => keeps_step
  end.

(** What follows the header of a page keeps [J]. *)
Ltac page_rest :=
  lazymatch goal with |- hoare ?J ?m ?J ?E => change (keeps J E m) end.

Lemma hoare_demographics_page (P : State -> Prop) (r : Run) :
  (forall σ, P σ -> J (add_rendered (EHeader "Demographic Information") σ)) ->
  nav_ok J E r "consent" "baseline" -> hoare P (demographics_page r) J E.
Proof.
  intros Hhead Hnav. unfold demographics_page.
  apply hoare_seq with J; [exact Hhead|intros _; page_rest].
  repeat page_step;
    first [apply (proj1 Hans); unfold scalar_answer_keys; apply elem_of_app; left
          | unfold group_answer_keys]; in_list_l.
Qed.

Lemma keeps_demographics_page (r : Run) :
  nav_ok J E r "consent" "baseline" -> keeps J E (demographics_page r).
Proof.
  intros Hnav. apply hoare_demographics_page; [|exact Hnav].
  intros σ H. now apply stable_render.
Qed.

Lemma hoare_baseline_page (P : State -> Prop) (r : Run) :
  (forall σ, P σ -> J (add_rendered (EHeader "Baseline Mental Health and Mood") σ)) ->
  nav_ok J E r "demographics" "session_emp" -> hoare P (baseline_page r) J E.
Proof.
  intros Hhead Hnav. unfold baseline_page.
  apply hoare_seq with J; [exact Hhead|intros _; page_rest].
  repeat page_step;
    first [apply (proj1 Hans); unfold scalar_answer_keys; apply elem_of_app; left
          | unfold group_answer_keys]; in_list_l.
Qed.

Lemma keeps_baseline_page (r : Run) :
  nav_ok J E r "demographics" "session_emp" -> keeps J E (baseline_page r).
Proof.
  intros Hnav. apply hoare_baseline_page; [|exact Hnav].
  intros σ H. now apply stable_render.
Qed.

Lemma keeps_voice_session (r : Run) (a b c d tone uid : string) :
  keeps J E (voice_session r a b c d tone uid).
Proof.
  unfold voice_session.
  apply keeps_bind; [now apply keeps_st_input|intros voice_label].
  apply keeps_bind; [now apply keeps_st_input|intros script].
  destruct voice_label as [| | |label];
    try (apply keeps_raise; intros; now apply Htol).
  destruct script as [| | |text];
    try (apply keeps_raise; intros; now apply Htol).
  destruct (voice_lookup _ _); [now apply keeps_render|].
  apply keeps_raise; intros; now apply Htol.
Qed.

Lemma hoare_session_emp_page (P : State -> Prop) (r : Run) :
  (forall σ, P σ -> J (add_rendered (EHeader "Empathetic Voice Session") σ)) ->
  nav_ok J E r "baseline" "session_neu" -> hoare P (session_emp_page r) J E.
Proof.
  intros Hhead Hnav. unfold session_emp_page.
  apply hoare_seq with J; [exact Hhead|intros _; page_rest].
  apply keeps_bind; [apply keeps_voice_session|intros _].
  repeat page_step;
    first [apply (proj1 Hans); unfold scalar_answer_keys; apply elem_of_app; left
          | unfold group_answer_keys]; in_list_l.
Qed.

Lemma keeps_session_emp_page (r : Run) :
  nav_ok J E r "baseline" "session_neu" -> keeps J E (session_emp_page r).
Proof.
  intros Hnav. apply hoare_session_emp_page; [|exact Hnav].
  intros σ H. now apply stable_render.
Qed.

Lemma hoare_session_neu_page (P : State -> Prop) (r : Run) :
  (forall σ, P σ -> J (add_rendered (EHeader "Neutral / Robotic Voice Session") σ)) ->
  nav_ok J E r "session_emp" "open" -> hoare P (session_neu_page r) J E.
Proof.
  intros Hhead Hnav. unfold session_neu_page.
  apply hoare_seq with J; [exact Hhead|intros _; page_rest].
  apply keeps_bind; [apply keeps_voice_session|intros _].
  repeat page_step;
    first [apply (proj1 Hans); unfold scalar_answer_keys; apply elem_of_app; left
          | unfold group_answer_keys]; in_list_l.
Qed.

Lemma keeps_session_neu_page (r : Run) :
  nav_ok J E r "session_emp" "open" -> keeps J E (session_neu_page r).
Proof.
  intros Hnav. apply hoare_session_neu_page; [|exact Hnav].
  intros σ H. now apply stable_render.
Qed.

Lemma hoare_open_page (P : State -> Prop) (r : Run) :
  (forall σ, P σ -> J (add_rendered (EHeader "Open-Ended Qualitative Questions") σ)) ->
  nav_ok J E r "session_neu" "review" -> hoare P (open_page r) J E.
Proof.
  intros Hhead Hnav. unfold open_page.
  apply hoare_seq with J; [exact Hhead|intros _; page_rest].
  repeat page_step.
  apply (proj1 Hans). unfold scalar_answer_keys. apply elem_of_app. right.
  change open_keys with (fst <$> open_questions).
  match goal with H : (?k, ?l) ∈ open_questions |- _ =>
    apply (list_elem_of_fmap_2 fst _ _ H) end.
Qed.

Lemma keeps_open_page (r : Run) :
  nav_ok J E r "session_neu" "review" -> keeps J E (open_page r).
Proof.
  intros Hnav. apply hoare_open_page; [|exact Hnav].
  intros σ H. now apply stable_render.
Qed.

(** *** The review page *)

Lemma keeps_build_record (r : Run) : keeps J E (build_record r).
Proof.
  unfold build_record, record_group.
  repeat page_step;
    try (intros σ HJ; intros; now apply Htol).
Qed.

Lemma keeps_load_existing (r : Run) (repo : option string) (path : string) :
  keeps J E (load_existing_hf_csv r repo path).
Proof.
  unfold load_existing_hf_csv. apply keeps_try_except; [|intros; apply keeps_ret].
  unfold hf_hub_download, pd_read_csv.
  destruct (remote r); repeat keeps_step;
    try (intros σ HJ; simpl; assumption).
Qed.

End Pages.
End ScriptRules.

Section Review.
Context (J : State -> Prop) (E : exn -> State -> Prop)
        `{HR : !StableR J} `{HU : !StableU J}
        (Htol : tolerated J E).

Lemma keeps_upload (r : Run) (df : pd.DataFrame) (repo : option string) (path : string) :
  keeps J E (upload_csv_to_hf r df repo path).
Proof.
  unfold upload_csv_to_hf. destruct (upload_raises r).
  - apply keeps_raise. intros σ HJ. now apply Htol.
  - intros σ HJ. now apply stable_upload.
Qed.

Lemma keeps_submit (r : Run) (record : pydict) : keeps J E (submit r record).
Proof.
  unfold submit.
  apply keeps_try_except; [|intros; apply keeps_render; assumption].
  set (E' := fun e σ => if is_Exception e then J σ else E e σ).
  assert (tolerated J E') as Htol'.
  { intros e σ He HJ. unfold E'. destruct e; simpl; congruence. }
  apply keeps_bind; [now apply keeps_load_existing|intros df].
  apply keeps_bind.
  - unfold upload_csv_to_hf. destruct (upload_raises r).
    + apply keeps_raise. intros σ HJ. now apply Htol'.
    + intros σ HJ. now apply stable_upload.
  - intros _. apply keeps_render; assumption.
Qed.

Lemma hoare_review_page (P : State -> Prop) (r : Run) :
  (forall σ, P σ -> J (add_rendered (EHeader "Review & Submit") σ)) ->
  hoare P (review_page r) J E.
Proof.
  intros Hhead. unfold review_page.
  apply hoare_seq with J; [exact Hhead|intros _].
  change (keeps J E (pressed <- st_button r "Submit" None ;;
                     when pressed (record <- build_record r ;; submit r record))).
  keeps_step. apply keeps_when. intros _.
  apply keeps_bind; [now apply keeps_build_record|intros record].
  apply keeps_submit.
Qed.

Lemma keeps_review_page (r : Run) : keeps J E (review_page r).
Proof. apply hoare_review_page. intros σ H. now apply stable_render. Qed.

End Review.

(** ** The pages, one at a time *)

Section Pages.
Context (J : State -> Prop) (E : exn -> State -> Prop) (r : Run) (s0 : string).
Context (Hat : forall σ, J σ -> at_step s0 σ).

(** Only the page of the current step runs. *)
Lemma keeps_pages :
  (s0 = "consent" -> keeps J E (consent_page r)) ->
  (s0 = "demographics" -> keeps J E (demographics_page r)) ->
  (s0 = "baseline" -> keeps J E (baseline_page r)) ->
  (s0 = "session_emp" -> keeps J E (session_emp_page r)) ->
  (s0 = "session_neu" -> keeps J E (session_neu_page r)) ->
  (s0 = "open" -> keeps J E (open_page r)) ->
  (s0 = "review" -> keeps J E (review_page r)) ->
  keeps J E (pages r).
Proof.
  intros H1 H2 H3 H4 H5 H6 H7. unfold pages.
  assert (forall name page, (s0 = name -> keeps J E page) ->
                            keeps J E (if_step name page)) as Hblock.
  { intros name page Hpage. destruct (decide (s0 = name)) as [->|Hne].
    - apply keeps_if_step_enter; [exact Hat|now apply Hpage].
    - now apply keeps_if_step_skip with s0. }
  repeat (apply keeps_bind; [now apply Hblock|intros _]).
  now apply Hblock.
Qed.

End Pages.

Lemma hoare_if_step_skip (P : State -> Prop) (E : exn -> State -> Prop)
    (name s0 : string) (body : M unit) :
  (forall σ, P σ -> at_step s0 σ) -> s0 <> name -> hoare P (if_step name body) P E.
Proof. intros. now apply keeps_if_step_skip with s0. Qed.

Lemma hoare_if_step_enter (P Q : State -> Prop) (E : exn -> State -> Prop)
    (name : string) (body : M unit) :
  (forall σ, P σ -> at_step name σ) -> hoare P body Q E ->
  hoare P (if_step name body) Q E.
Proof.
  intros Hs Hb σ HP. unfold if_step, bind, ss_getitem. rewrite (Hs σ HP).
  rewrite bool_decide_eq_true_2 by reflexivity. now apply Hb.
Qed.

(** The pages when the page of the current step changes the assertion. *)
Lemma hoare_pages (P Q : State -> Prop) (E : exn -> State -> Prop) (r : Run) (s0 : string) :
  (forall σ, P σ -> at_step s0 σ) -> (forall σ, Q σ -> at_step s0 σ) ->
  s0 ∈ steps ->
  (s0 = "consent" -> hoare P (consent_page r) Q E) ->
  (s0 = "demographics" -> hoare P (demographics_page r) Q E) ->
  (s0 = "baseline" -> hoare P (baseline_page r) Q E) ->
  (s0 = "session_emp" -> hoare P (session_emp_page r) Q E) ->
  (s0 = "session_neu" -> hoare P (session_neu_page r) Q E) ->
  (s0 = "open" -> hoare P (open_page r) Q E) ->
  (s0 = "review" -> hoare P (review_page r) Q E) ->
  hoare P (pages r) Q E.
Proof.
  intros HP HQ Hs0 H1 H2 H3 H4 H5 H6 H7. unfold pages.
  unfold consent_block, demographics_block, baseline_block, session_emp_block,
    session_neu_block, open_block, review_block.
  unfold steps in Hs0.
  repeat (apply elem_of_cons in Hs0 as [->|Hs0];
    [ repeat (eapply hoare_seq;
        [ first [ eapply hoare_if_step_skip; [eassumption|discriminate]
                | apply hoare_if_step_enter; [assumption|eauto] ]
        | intros _ ]);
      first [ eapply hoare_if_step_skip; [eassumption|discriminate]
            | apply hoare_if_step_enter; [assumption|eauto] ]
    | ]).
  now apply elem_of_nil in Hs0.
Qed.

Lemma bind_Ok_inv {A B} (m : M A) (f : A -> M B) (σ σ' : State) (b : B) :
  bind m f σ = (σ', Ok b) ->
  exists σ1 a, m σ = (σ1, Ok a) /\ f a σ1 = (σ', Ok b).
Proof.
  unfold bind. destruct (m σ) as [σ1 [a|e]]; [|discriminate].
  intros H. now exists σ1, a.
Qed.

(** After the prelude the key ["step"] is present. *)
Lemma prelude_step_present (r : Run) (σ σ' : State) (u : unit) :
  prelude r σ = (σ', Ok u) -> is_Some (session σ' !! "step").
Proof.
  unfold prelude. intros H.
  do 5 (apply bind_Ok_inv in H as (? & ? & _ & H)).
  apply bind_Ok_inv in H as (σ1 & present & Hc & H).
  unfold ss_contains in Hc. injection Hc as <- <-.
  unfold when, ss_setitem in H. case_bool_decide as Hs; simpl in H; injection H as <-.
  - exact Hs.
  - simpl. rewrite lookup_insert_eq. eauto.
Qed.

(** The script is the prelude followed by the pages; the pages start with
    the key ["step"] present. *)
Lemma hoare_script (J0 P Q : State -> Prop) (E : exn -> State -> Prop) (r : Run) :
  keeps J0 E (prelude r) ->
  (forall σ, J0 σ -> is_Some (session σ !! "step") -> P σ) ->
  hoare P (pages r) Q E ->
  hoare J0 (script r) Q E.
Proof.
  intros Hpre HP Hpages σ H0. unfold script, bind.
  specialize (Hpre σ H0). destruct (prelude r σ) as [σ1 [[]|e]] eqn:Hp; [|exact Hpre].
  apply Hpages, HP; [exact Hpre|]. eapply prelude_step_present, Hp.
Qed.

Lemma keeps_script (J0 J : State -> Prop) (E : exn -> State -> Prop) (r : Run) :
  keeps J0 E (prelude r) ->
  (forall σ, J0 σ -> is_Some (session σ !! "step") -> J σ) ->
  keeps J E (pages r) ->
  forall σ, J0 σ ->
    match script r σ with
    | (σ', Ok _) => J σ'
    | (σ', Raise e) => E e σ'
    end.
Proof. intros Hpre HJ Hpages. now apply (hoare_script J0 J J E r). Qed.

(** With the token saved and a step of the survey, the prelude raises
    nothing. *)
Lemma step_index (s : string) : s ∈ steps -> list_index (str s) steps <> None.
Proof.
  unfold steps. intros H.
  repeat (apply elem_of_cons in H as [->|H]; [discriminate|]).
  now apply elem_of_nil in H.
Qed.

Lemma keeps_prelude_quiet (J : State -> Prop) (E : exn -> State -> Prop)
    `{HR : !StableR J} (r : Run) (s : string) :
  save_token_raises r = None -> s ∈ steps ->
  (forall σ, J σ -> step_is s σ) ->
  (forall k v, (k, v) ∈ defaults r -> allows_new J k v) ->
  allows J "step_changed" (PScalar (SBool false)) ->
  keeps J E (prelude r).
Proof.
  intros Hsave Hs Hstep Hdef Hflag. apply keeps_prelude; try assumption.
  - intros msg σ Hm. congruence.
  - intros σ HJ Hi. exfalso. apply (step_index s Hs).
    now rewrite <- (Hstep σ HJ).
Qed.

(** ** Navigation *)

#[global] Instance at_step_stableR (s : string) : StableR (at_step s).
Proof. intros e σ H. exact H. Qed.

#[global] Instance at_step_stableU (s : string) : StableU (at_step s).
Proof. intros u σ H. exact H. Qed.

#[global] Instance step_is_stableR (s : string) : StableR (step_is s).
Proof. intros e σ H. exact H. Qed.

Lemma at_step_step_is (s : string) (σ : State) : at_step s σ -> step_is s σ.
Proof. unfold at_step, step_is, current_step. now intros ->. Qed.

Lemma step_is_at_step (s : string) (σ : State) :
  step_is s σ -> is_Some (session σ !! "step") -> at_step s σ.
Proof.
  unfold at_step, step_is, current_step. intros H [v Hv].
  rewrite Hv in H |- *. simpl in H. now subst.
Qed.

Lemma at_step_allows (s k : string) (v : pyval) :
  k <> "step" -> allows (at_step s) k v.
Proof.
  intros Hk σ H. unfold at_step in *. simpl. now rewrite lookup_insert_ne.
Qed.

Lemma step_is_allows (s k : string) (v : pyval) :
  k <> "step" -> allows (step_is s) k v.
Proof.
  intros Hk σ H. unfold step_is, current_step in *. simpl.
  now rewrite lookup_insert_ne.
Qed.

(** An invariant that survives every assignment to the keys of the answers
    survives what the pages write. *)
Lemma allows_answers_any (J : State -> Prop) :
  (forall k v, k ∈ scalar_answer_keys ++ group_answer_keys -> allows J k v) ->
  allows_answers J.
Proof.
  intros H. split.
  - intros k v Hk. apply H, elem_of_app. now left.
  - intros g Hg σ d k v HJ _. apply H; [|exact HJ]. apply elem_of_app. now right.
Qed.

Lemma answer_keys_not_step (k : string) :
  k ∈ scalar_answer_keys ++ group_answer_keys -> k <> "step".
Proof. intros H ->. revert H. compute_done. Qed.

(** The defaults of [init_state] give ["step"] the value ["consent"]. *)
Lemma defaults_step (r : Run) (v : pyval) :
  ("step", v) ∈ defaults r -> v = str "consent".
Proof.
  unfold defaults. intros H.
  repeat (apply elem_of_cons in H as [H|H]; [congruence|]).
  now apply elem_of_nil in H.
Qed.

Lemma step_is_allows_new (r : Run) (s k : string) (v : pyval) :
  (k, v) ∈ defaults r -> allows_new (step_is s) k v.
Proof.
  intros Hkv σ H Hnone. destruct (decide (k = "step")) as [->|Hk].
  - apply defaults_step in Hkv as ->.
    unfold step_is, current_step in *. simpl. rewrite lookup_insert_eq.
    now rewrite Hnone in H.
  - now apply step_is_allows.
Qed.

Lemma tolerated_nav (r : Run) (s0 : string) : tolerated (at_step s0) (nav_exc r s0).
Proof.
  intros e σ He H. apply at_step_step_is in H. destruct e; simpl; congruence.
Qed.

Lemma nav_ok_nav (r : Run) (s0 p n : string) :
  (s0, (p, n)) ∈ nav_links ->
  nav_ok (at_step s0) (nav_exc r s0) r p n.
Proof.
  intros Hl. split; intros Hc σ _; simpl.
  - apply nav_back with p n; try assumption; unfold at_step, moved; simpl.
    + now rewrite lookup_insert_ne, lookup_insert_eq.
    + now rewrite lookup_insert_eq.
  - apply nav_next with p n; try assumption; unfold at_step, moved; simpl.
    + now rewrite lookup_insert_ne, lookup_insert_eq.
    + now rewrite lookup_insert_eq.
Qed.

(** One run of the script started at step [s0]: it keeps the step unless it
    ends with a navigation. *)
Lemma script_nav (r : Run) (s0 : string) (σ : State) :
  step_is s0 σ ->
  match script r σ with
  | (σ', Ok _) => at_step s0 σ'
  | (σ', Raise e) => nav_exc r s0 e σ'
  end.
Proof.
  apply (keeps_script (step_is s0) (at_step s0)).
  - apply keeps_prelude; try apply _.
    + intros e σ' He H.
      destruct (save_token_raises_cases r e He) as [[msg ->]|[msg ->]]; exact H.
    + intros k v Hkv. now apply step_is_allows_new with r.
    + now apply step_is_allows.
    + intros σ' H _. exact H.
  - apply step_is_at_step.
  - assert (allows_answers (at_step s0)) as Hans.
    { apply allows_answers_any. intros k v Hk.
      now apply at_step_allows, answer_keys_not_step. }
    pose proof (tolerated_nav r s0) as Htol.
    apply keeps_pages with s0; [auto|..]; intros ->.
    + apply keeps_consent_page; [apply _|]. intros Hc Hb σ' _. simpl.
      apply consent_continue; try assumption; try reflexivity.
      unfold at_step, consent_moved. simpl. now rewrite lookup_insert_eq.
    + apply keeps_demographics_page; try apply _; try assumption.
      apply nav_ok_nav; unfold nav_links; in_list_l.
    + apply keeps_baseline_page; try apply _; try assumption.
      apply nav_ok_nav; unfold nav_links; in_list_l.
    + apply keeps_session_emp_page; try apply _; try assumption.
      apply nav_ok_nav; unfold nav_links; in_list_l.
    + apply keeps_session_neu_page; try apply _; try assumption.
      apply nav_ok_nav; unfold nav_links; in_list_l.
    + apply keeps_open_page; try apply _; try assumption.
      apply nav_ok_nav; unfold nav_links; in_list_l.
    + apply keeps_review_page; try apply _; assumption.
Qed.

(** The links of the pages are edges of the step machine. *)
Lemma nav_links_edges (s p n : string) :
  (s, (p, n)) ∈ nav_links -> (p, s) ∈ forward_edges /\ (s, n) ∈ forward_edges.
Proof.
  unfold nav_links. intros H.
  repeat (apply elem_of_cons in H as [H|H];
          [injection H as -> -> ->; split; unfold forward_edges; in_list_l|]).
  now apply elem_of_nil in H.
Qed.

(** The edges join consecutive steps of the survey flow. *)
Lemma forward_edges_consecutive : forward_edges = zip steps (drop 1 steps).
Proof. reflexivity. Qed.

Lemma forward_edges_steps (a b : string) :
  (a, b) ∈ forward_edges -> a ∈ steps /\ b ∈ steps.
Proof.
  unfold forward_edges. intros H.
  repeat (apply elem_of_cons in H as [H|H];
          [injection H as -> ->; split; unfold steps; in_list_l|]).
  now apply elem_of_nil in H.
Qed.

(** A run that was not started by a click does not navigate. *)
Lemma transition_clicked (r : Run) (s0 : string) (σ' : State) :
  transition r s0 σ' -> is_Some (clicked r).
Proof. intros [? H _ _|? ? H _ _ _|? ? H _ _ _]; rewrite H; eauto. Qed.

Lemma step_is_clear (s : string) (σ : State) :
  step_is s σ -> step_is s {| session := session σ; rendered := []; uploads := uploads σ |}.
Proof. intros H. exact H. Qed.

(** One interaction started at step [s0]: either the first run navigates
    and the rerun stays where the first run went, or the step is kept. *)
Lemma interact_nav (r : Run) (s0 : string) (σ : State) :
  step_is s0 σ ->
  match run_script r σ with
  | (σ1, Raise RerunException) =>
      transition r s0 σ1 /\
      forall s1, at_step s1 σ1 ->
        step_is s1 (interact r σ).1 /\ (interact r σ).2 <> Raise RerunException
  | (σ1, res) => interact r σ = (σ1, res) /\ step_is s0 σ1
  end.
Proof.
  intros H0. unfold interact.
  pose proof (script_nav r s0 _ (step_is_clear _ _ H0)) as H1.
  fold (run_script r σ) in H1.
  destruct (run_script r σ) as [σ1 [[]|e]].
  - split; [reflexivity|now apply at_step_step_is].
  - destruct e; simpl in H1; try (split; [reflexivity|exact H1]).
    split; [exact H1|]. intros s1 Hs1.
    pose proof (script_nav (rerun_of r) s1 _
                  (step_is_clear _ _ (at_step_step_is _ _ Hs1))) as H2.
    fold (run_script (rerun_of r) σ1) in H2.
    destruct (run_script (rerun_of r) σ1) as [σ2 [[]|e2]]; simpl.
    + split; [now apply at_step_step_is|discriminate].
    + destruct e2; simpl in H2; try (split; [exact H2|discriminate]).
      apply transition_clicked in H2. simpl in H2. now destruct H2.
Qed.

(** ** Reading the session: the record *)

Section Yields.
Context (σ : State).

Lemma yields_ret {A} (a : A) (Φ : A -> Prop) : Φ a -> yields (ret a) σ Φ.
Proof. intros H. now split. Qed.

Lemma yields_bind {A B} (m : M A) (f : A -> M B) (Φ : B -> Prop) :
  yields m σ (fun a => yields (f a) σ Φ) -> yields (bind m f) σ Φ.
Proof.
  unfold yields, bind. destruct (m σ) as [σ' [a|e]]; [|auto].
  now intros [-> H].
Qed.

Lemma yields_getitem (k : string) (Φ : pyval -> Prop) :
  (forall v, session σ !! k = Some v -> Φ v) -> yields (ss_getitem k) σ Φ.
Proof.
  intros H. unfold yields, ss_getitem.
  destruct (session σ !! k) as [v|]; [split; auto|reflexivity].
Qed.

Lemma yields_get (k : string) (d : pyval) (Φ : pyval -> Prop) :
  Φ (default d (session σ !! k)) -> yields (ss_get k d) σ Φ.
Proof. intros H. now split. Qed.

Lemma yields_getitem_in (g k : string) (Φ : pyval -> Prop) :
  (forall d v, session σ !! g = Some (PDict d) -> d !! k = Some v -> Φ (PScalar v)) ->
  yields (ss_getitem_in g k) σ Φ.
Proof.
  intros H. unfold yields, ss_getitem_in, bind, ss_getitem.
  destruct (session σ !! g) as [[x|d]|] eqn:Hg; simpl; try reflexivity.
  destruct (d !! k) as [v|] eqn:Hk; simpl; [|reflexivity].
  split; [reflexivity|]. now apply H with d.
Qed.

End Yields.

Ltac yields_step :=
  lazymatch goal with
  | |- yields (bind _ _) _ _ => apply yields_bind
  | |- yields (ss_getitem _) _ _ => apply yields_getitem; intros ? ?
  | |- yields (ss_get _ _) _ _ => apply yields_get
  | |- yields (ss_getitem_in _ _) _ _ => apply yields_getitem_in; intros ? ? ? ?
  | |- yields (ret _) _ _ => apply yields_ret
  | |- yields (record_group _ _ _ _ _) _ _ =>
      unfold record_group; cbn [range seq Nat.sub for_acc]
  | |- yields (for_acc _ _ _) _ _ => cbn [for_acc]
  end.

(** Two reads of a group give the same dictionary. *)
Ltac same_group :=
  try match goal with
      | H1 : session ?σ !! ?g = Some (PDict ?d1),
        H2 : session ?σ !! ?g = Some (PDict ?d2) |- _ =>
          assert (d2 = d1) by congruence; subst d2; clear H2
      end.

Ltac forall_list := repeat first [apply Forall_nil_2 | apply Forall_cons_2].

Ltac session_lookup σ :=
  lazymatch goal with
  | |- _ = session σ !! ?k =>
      match goal with H : session σ !! k = Some _ |- _ => rewrite H; reflexivity end
  | |- _ = Some (default _ (session σ !! ?k)) => reflexivity
  end.

Ltac group_lookup :=
  lazymatch goal with
  | |- _ = PScalar <$> ?d !! ?k =>
      match goal with H : d !! k = Some _ |- _ => rewrite H; reflexivity end
  end.

(** The record holds the answers of the session. *)
Lemma build_record_flattens (r : Run) (σ : State) :
  yields (build_record r) σ (flattens (session σ) (utcnow r)).
Proof.
  unfold build_record, open_keys.
  repeat (yields_step; same_group).
  unfold flattens, copied_keys, open_keys, record_groups.
  repeat split; try reflexivity; try (session_lookup σ).
  - forall_list; session_lookup σ.
  - forall_list; (eexists; split; [eassumption|]);
      cbn [range seq Nat.sub]; forall_list; group_lookup.
Qed.

Lemma build_record_readonly (r : Run) (σ : State) : (build_record r σ).1 = σ.
Proof.
  pose proof (build_record_flattens r σ) as H. unfold yields in H.
  destruct (build_record r σ) as [σ' [record|e]]; simpl; [apply H|exact H].
Qed.

Section Returns.
Context (σ : State).

Lemma returns_ret {A} (a : A) (Φ : A -> Prop) : Φ a -> returns (ret a) σ Φ.
Proof. intros H. now exists a. Qed.

Lemma returns_bind {A B} (m : M A) (f : A -> M B) (Φ : B -> Prop) :
  returns m σ (fun a => returns (f a) σ Φ) -> returns (bind m f) σ Φ.
Proof.
  intros (a & Hm & b & Hf & Hb). exists b. split; [|exact Hb].
  unfold bind. now rewrite Hm.
Qed.

Lemma returns_getitem (k : string) (v : pyval) (Φ : pyval -> Prop) :
  session σ !! k = Some v -> Φ v -> returns (ss_getitem k) σ Φ.
Proof. intros Hk H. exists v. unfold ss_getitem. now rewrite Hk. Qed.

Lemma returns_get (k : string) (d : pyval) (Φ : pyval -> Prop) :
  Φ (default d (session σ !! k)) -> returns (ss_get k d) σ Φ.
Proof. intros H. now eexists. Qed.

Lemma returns_getitem_in (g k : string) (d : gmap string scalar) (v : scalar)
    (Φ : pyval -> Prop) :
  session σ !! g = Some (PDict d) -> d !! k = Some v -> Φ (PScalar v) ->
  returns (ss_getitem_in g k) σ Φ.
Proof.
  intros Hg Hk H. exists (PScalar v). split; [|exact H].
  unfold ss_getitem_in, bind, ss_getitem. rewrite Hg. simpl. now rewrite Hk.
Qed.

End Returns.

Ltac returns_step :=
  lazymatch goal with
  | |- returns (bind _ _) _ _ => apply returns_bind
  | |- returns (ss_getitem _) _ _ => eapply returns_getitem; [eassumption|]
  | |- returns (ss_get _ _) _ _ => apply returns_get
  | |- returns (ss_getitem_in _ _) _ _ =>
      eapply returns_getitem_in; [eassumption|eassumption|]
  | |- returns (ret _) _ _ => apply returns_ret
  | |- returns (record_group _ _ _ _ _) _ _ =>
      unfold record_group; cbn [range seq Nat.sub for_acc]
  | |- returns (for_acc _ _ _) _ _ => cbn [for_acc]
  end.

(** Take a well-formedness hypothesis apart into its lookups. *)
Ltac open_forall :=
  repeat match goal with
         | H : Forall _ (_ :: _) |- _ => apply Forall_cons in H as [? H]
         | H : Forall _ [] |- _ => clear H
         | H : is_Some _ |- _ => destruct H
         | H : group_ok ?s _ _ |- _ =>
             unfold group_ok in H; cbn [fst snd] in H;
             lazymatch type of H with
             | match s !! ?g with _ => _ end =>
                 destruct (s !! g) as [[?|?]|] eqn:?; try contradiction
             end;
             cbn [range seq Nat.sub] in H
         end.

(** In a well-formed session the record assembly returns. *)
Lemma build_record_returns (r : Run) (σ : State) :
  well_formed σ -> returns (build_record r) σ (fun _ => True).
Proof.
  intros [Hk Hg].
  unfold read_keys, copied_keys, open_keys in Hk.
  unfold groups_ok, record_groups in Hg.
  cbn [app] in Hk. open_forall; cbn [fst snd] in *.
  unfold build_record, open_keys. repeat returns_step. exact I.
Qed.

Lemma build_record_ok (r : Run) (σ : State) :
  well_formed σ ->
  exists record, build_record r σ = (σ, Ok record) /\
                 flattens (session σ) (utcnow r) record.
Proof.
  intros Hwf. destruct (build_record_returns r σ Hwf) as (record & Hb & _).
  exists record. split; [exact Hb|].
  pose proof (build_record_flattens r σ) as H. unfold yields in H.
  rewrite Hb in H. apply H.
Qed.

(** ** The submission *)

Lemma load_existing_eq (r : Run) (repo : option string) (path : string) (σ : State) :
  load_existing_hf_csv r repo path σ = (σ, Ok (fetched_table (remote r))).
Proof.
  unfold load_existing_hf_csv, try_except, bind, hf_hub_download, pd_read_csv,
    fetched_table.
  now destruct (remote r).
Qed.

Lemma submit_eq (r : Run) (record : pydict) (σ : State) :
  submit r record σ =
  let updated := pd.concat2 (fetched_table (remote r)) (pd.of_records [record]) in
  match upload_raises r with
  | None =>
      (add_rendered (ESuccess "Submitted successfully!")
         (add_upload (mkUpload (HF_DATASET_REPO r) (HF_DATASET_PATH r) updated) σ),
       Ok tt)
  | Some msg => (add_rendered (EError ("Upload failed: " +:+ msg)) σ, Ok tt)
  end.
Proof.
  unfold submit, try_except. unfold bind at 1. rewrite load_existing_eq.
  unfold bind, upload_csv_to_hf. now destruct (upload_raises r).
Qed.

Lemma if_step_enter_eq (name : string) (body : M unit) (σ : State) :
  at_step name σ -> if_step name body σ = body σ.
Proof.
  intros H. unfold if_step, bind, ss_getitem. rewrite H.
  now rewrite bool_decide_eq_true_2.
Qed.

(** The review page when Submit was clicked. *)
Lemma review_page_submit (r : Run) (σ : State) :
  clicked r = Some "Submit" ->
  review_page r σ =
  match build_record r (review_rendered σ) with
  | (σ', Ok record) => submit r record σ'
  | (σ', Raise e) => (σ', Raise e)
  end.
Proof.
  intros Hc. unfold review_page, bind, st_header, st_button, render, ret, when.
  simpl. rewrite Hc. now rewrite bool_decide_eq_true_2.
Qed.

(** ... and when it was not. *)
Lemma review_page_idle (r : Run) (σ : State) :
  clicked r <> Some "Submit" -> review_page r σ = (review_rendered σ, Ok tt).
Proof.
  intros Hc. unfold review_page, bind, st_header, st_button, render, ret, when.
  simpl. now rewrite bool_decide_eq_false_2.
Qed.

Lemma well_formed_rendered (σ : State) : well_formed σ -> well_formed (review_rendered σ).
Proof. intros H. exact H. Qed.

(** The whole submission, from the click to the message. *)
Lemma review_block_submit (r : Run) (σ : State) :
  at_step "review" σ -> clicked r = Some "Submit" -> well_formed σ ->
  exists record,
    flattens (session σ) (utcnow r) record /\
    review_block r σ = submit r record (review_rendered σ).
Proof.
  intros Hs Hc Hwf.
  destruct (build_record_ok r (review_rendered σ) (well_formed_rendered σ Hwf))
    as (record & Hb & Hf).
  exists record. split; [exact Hf|].
  unfold review_block. rewrite if_step_enter_eq by exact Hs.
  rewrite review_page_submit by exact Hc. now rewrite Hb.
Qed.

(** ** Invariants of a session *)

Section ScriptInvariant.
Context (J : State -> Prop) `{HR : !StableR J}.
Context (Hans : allows_answers J)
        (Hdef : forall r k v, (k, v) ∈ defaults r -> allows_new J k v)
        (Hflag : forall b, allows J "step_changed" (PScalar (SBool b)))
        (Hstep : forall s, allows J "step" (str s))
        (Hcons : allows J "consented" (PScalar (SBool true)))
        (Hreview : forall r, keeps J (fun _ => J) (review_page r))
        (Hclear : forall σ, J σ -> J (cleared σ)).

Lemma tolerated_inv : tolerated J (fun _ => J).
Proof. intros e σ _ H. exact H. Qed.

Lemma nav_ok_inv (r : Run) (p n : string) : nav_ok J (fun _ => J) r p n.
Proof. split; intros _ σ H; unfold moved; now apply Hflag, Hstep. Qed.

Lemma keeps_pages_inv (r : Run) : keeps J (fun _ => J) (pages r).
Proof.
  pose proof tolerated_inv as Htol.
  unfold pages, consent_block, demographics_block, baseline_block,
    session_emp_block, session_neu_block, open_block, review_block.
  repeat (apply keeps_bind; [|intros _]);
    (apply keeps_if_step; [intros σ H _; exact H|]).
  - apply keeps_consent_page; [exact HR|]. intros _ _ σ H.
    unfold consent_moved. now apply Hstep, Hcons.
  - apply keeps_demographics_page; auto using nav_ok_inv.
  - apply keeps_baseline_page; auto using nav_ok_inv.
  - apply keeps_session_emp_page; auto using nav_ok_inv.
  - apply keeps_session_neu_page; auto using nav_ok_inv.
  - apply keeps_open_page; auto using nav_ok_inv.
  - apply Hreview.
Qed.

Lemma keeps_script_inv (r : Run) : keeps J (fun _ => J) (script r).
Proof.
  unfold script. apply keeps_bind; [|intros _; apply keeps_pages_inv].
  apply keeps_prelude; [exact HR|..].
  - intros msg σ _ H. exact H.
  - apply Hdef.
  - apply Hflag.
  - intros σ H _. exact H.
Qed.

Lemma interact_inv (r : Run) (σ : State) : J σ -> J (interact r σ).1.
Proof.
  intros H. unfold interact, run_script.
  pose proof (keeps_script_inv r _ (Hclear σ H)) as H1. fold (cleared σ).
  destruct (script r (cleared σ)) as [σ1 [[]|e]]; simpl; try exact H1.
  destruct e; simpl; try exact H1.
  pose proof (keeps_script_inv (rerun_of r) _ (Hclear σ1 H1)) as H2.
  fold (cleared σ1).
  destruct (script (rerun_of r) (cleared σ1)) as [σ2 [[]|e2]]; exact H2.
Qed.

Lemma session_states_inv (rs : list Run) (σ : State) :
  J σ -> Forall J (session_states rs σ).
Proof.
  revert σ. induction rs as [|r rs IH]; intros σ H; simpl; constructor.
  - now apply interact_inv.
  - now apply IH, interact_inv.
Qed.

End ScriptInvariant.

(** *** The post-session groups are never written *)

#[global] Instance posts_inv_stableR : StableR posts_inv.
Proof. intros e σ H. exact H. Qed.

Lemma posts_allows (k : string) (v : pyval) : k ∉ post_groups -> allows posts_inv k v.
Proof.
  intros Hk σ [Hp Hu]. split; [|exact Hu].
  unfold posts_untouched in *. rewrite Forall_forall in Hp |- *.
  intros g Hg. simpl. rewrite lookup_insert_ne; [now apply Hp|].
  intros ->. contradiction.
Qed.

(** The defaults of [init_state] give the post-session groups [None] items. *)
Lemma defaults_posts (r : Run) (g : string) (v : pyval) :
  g ∈ post_groups -> (g, v) ∈ defaults r -> v = PDict (none_group 1 8).
Proof.
  unfold post_groups, defaults. intros Hg H.
  repeat (apply elem_of_cons in Hg as [->|Hg]);
    [..|now apply elem_of_nil in Hg];
    repeat (apply elem_of_cons in H as [H|H]; [congruence|]);
    now apply elem_of_nil in H.
Qed.

Lemma posts_allows_new (r : Run) (k : string) (v : pyval) :
  (k, v) ∈ defaults r -> allows_new posts_inv k v.
Proof.
  intros Hkv. destruct (decide (k ∈ post_groups)) as [Hk|Hk].
  - apply (defaults_posts r k v Hk) in Hkv as ->.
    intros σ [Hp Hu] _. split; [|exact Hu].
    unfold posts_untouched in *. rewrite Forall_forall in Hp |- *.
    intros g Hg. simpl. destruct (decide (k = g)) as [->|Hne].
    + right. apply lookup_insert_eq.
    + rewrite lookup_insert_ne by exact Hne. now apply Hp.
  - intros σ H _. now apply posts_allows.
Qed.

(** The record built in a session whose post-session groups are untouched
    has [None] in every post-session field. *)
Lemma flattens_posts_none (σ : State) (now : string) (record : pydict) :
  posts_untouched σ -> flattens (session σ) now record -> record_posts_none record.
Proof.
  intros Hp (_ & _ & _ & _ & _ & _ & Hg).
  unfold posts_untouched, post_groups in Hp. unfold record_groups in Hg.
  apply Forall_cons in Hp as [He Hp]. apply Forall_cons in Hp as [Hn _].
  do 3 (apply Forall_cons in Hg as [_ Hg]).
  apply Forall_cons in Hg as [(d1 & Hd1 & H1) Hg].
  apply Forall_cons in Hg as [_ Hg].
  apply Forall_cons in Hg as [(d2 & Hd2 & H2) _].
  destruct He as [He|He]; rewrite He in Hd1; [discriminate|].
  destruct Hn as [Hn|Hn]; rewrite Hn in Hd2; [discriminate|].
  injection Hd1 as <-. injection Hd2 as <-.
  cbn [range seq Nat.sub] in H1, H2.
  unfold record_posts_none, post_keys, flat_keys.
  cbn [range seq Nat.sub map app].
  open_forall. forall_list;
    match goal with H : dict_get record ?k = _ |- dict_get record ?k = _ =>
      rewrite H; reflexivity end.
Qed.

Lemma keeps_review_page_posts (r : Run) : keeps posts_inv (fun _ => posts_inv) (review_page r).
Proof.
  intros σ [Hp Hu]. destruct (decide (clicked r = Some "Submit")) as [Hc|Hc].
  - rewrite review_page_submit by exact Hc.
    pose proof (build_record_flattens r (review_rendered σ)) as Hy. unfold yields in Hy.
    destruct (build_record r (review_rendered σ)) as [σ' [record|e]].
    + destruct Hy as [-> Hfl]. rewrite submit_eq. cbv zeta.
      destruct (upload_raises r) as [msg|]; [now split|].
      split; [exact Hp|]. simpl. apply Forall_app. split; [exact Hu|].
      apply Forall_cons_2; [|apply Forall_nil_2].
      exists record. split; [apply last_snoc|].
      now apply flattens_posts_none with (review_rendered σ) (utcnow r).
    + subst σ'. now split.
  - rewrite review_page_idle by exact Hc. now split.
Qed.

Lemma posts_inv_sessions (rs : list Run) :
  Forall posts_inv (session_states rs new_session).
Proof.
  apply session_states_inv; try apply _.
  - apply allows_answers_any. intros k v Hk. apply posts_allows.
    intros Hp. unfold post_groups in Hp.
    repeat (apply elem_of_cons in Hp as [->|Hp]; [revert Hk; compute_done|]).
    now apply elem_of_nil in Hp.
  - apply posts_allows_new.
  - intros b. apply posts_allows. compute_done.
  - intros s. apply posts_allows. compute_done.
  - apply posts_allows. compute_done.
  - apply keeps_review_page_posts.
  - intros σ H. exact H.
  - split; [|constructor]. unfold posts_untouched, post_groups.
    forall_list; now left.
Qed.

(** *** What is on the page stays on the page *)

#[global] Instance shows_stableR (e : Element) : StableR (shows e).
Proof. intros e' σ H. unfold shows in *. simpl. apply elem_of_app. now left. Qed.

#[global] Instance shows_stableU (e : Element) : StableU (shows e).
Proof. intros u σ H. exact H. Qed.


#[global] Instance serving_stableR (s t : string) : StableR (serving s t).
Proof. intros e σ [H1 H2]. split; [exact H1|now apply shows_stableR]. Qed.

#[global] Instance serving_stableU (s t : string) : StableU (serving s t).
Proof. intros u σ H. exact H. Qed.





(** An unchecked consent box turns Continue into a warning. *)
Lemma consent_page_rejects (r : Run) :
  clicked r = Some continue_label ->
  checkbox r "I agree to participate." = false ->
  hoare (at_step "consent") (consent_page r) consent_warned no_exn.
Proof.
  intros Hc Hb σ Hs.
  unfold consent_page, bind, st_header, st_checkbox, st_button, render, ret, when.
  simpl. rewrite Hc, Hb. rewrite bool_decide_eq_true_2 by reflexivity.
  split; [exact Hs|]. unfold shows. simpl. apply elem_of_app. right. in_list_l.
Qed.

Lemma consent_rejected_warns (r : Run) :
  clicked r = Some continue_label ->
  checkbox r "I agree to participate." = false ->
  save_token_raises r = None ->
  hoare (step_is "consent") (script r) consent_warned no_exn.
Proof.
  intros Hc Hb Hsave.
  assert ("consent" ∈ steps) as Hs by (unfold steps; in_list_l).
  apply hoare_script with (P := at_step "consent").
  - apply keeps_prelude_quiet with "consent"; try apply _; auto.
    + intros k v Hkv. now apply step_is_allows_new with r.
    + now apply step_is_allows.
  - apply step_is_at_step.
  - apply hoare_pages with "consent";
      [auto|now intros σ [H _]|exact Hs|..]; intros Heq; try discriminate Heq.
    now apply consent_page_rejects.
Qed.

(** *** Every session is well-formed once [init_state] has run *)

#[global] Instance well_formed_stableR : StableR well_formed.
Proof. intros e σ H. exact H. Qed.

#[global] Instance well_formed_stableU : StableU well_formed.
Proof. intros u σ H. exact H. Qed.

#[global] Instance empty_or_well_formed_stableR : StableR empty_or_well_formed.
Proof. intros e σ H. exact H. Qed.

Lemma group_names : (fun pgb : string * string * nat => pgb.1.2) <$> record_groups
                    = ["gad"; "panas"; "emp"; "emp_post"; "neu"; "neu_post"].
Proof. reflexivity. Qed.

(** Assigning a key that is not a group keeps the session well-formed. *)
Lemma well_formed_allows (k : string) (v : pyval) :
  k ∉ ["gad"; "panas"; "emp"; "emp_post"; "neu"; "neu_post"] ->
  allows well_formed k v.
Proof.
  intros Hk σ [Hkeys Hg]. split.
  - eapply Forall_impl; [exact Hkeys|]. intros k' Hk'. simpl.
    destruct (decide (k = k')) as [->|Hne].
    + rewrite lookup_insert_eq. eauto.
    + now rewrite lookup_insert_ne.
  - unfold groups_ok in *. apply Forall_forall. intros pgb Hin.
    apply Forall_forall with (x := pgb) in Hg; [|exact Hin].
    unfold group_ok in *. simpl. rewrite lookup_insert_ne; [exact Hg|].
    intros ->. apply Hk. rewrite <- group_names.
    exact (list_elem_of_fmap_2 (fun pgb : string * string * nat => pgb.1.2) _ _ Hin).
Qed.

(** Assigning an item of a group keeps the session well-formed. *)
Lemma well_formed_allows_item (g : string) : allows_item well_formed g.
Proof.
  intros σ d k v [Hkeys Hg] Hd. split.
  - eapply Forall_impl; [exact Hkeys|]. intros k' Hk'. simpl.
    destruct (decide (g = k')) as [->|Hne].
    + rewrite lookup_insert_eq. eauto.
    + now rewrite lookup_insert_ne.
  - unfold groups_ok in *. apply Forall_forall. intros pgb Hin.
    apply Forall_forall with (x := pgb) in Hg; [|exact Hin].
    unfold group_ok in *. simpl. destruct (decide (g = pgb.1.2)) as [->|Hne].
    + rewrite lookup_insert_eq. rewrite Hd in Hg.
      eapply Forall_impl; [exact Hg|]. intros i Hi. simpl in *.
      destruct (decide (k = q_key i)) as [->|Hne].
      * rewrite lookup_insert_eq. eauto.
      * now rewrite lookup_insert_ne.
    + now rewrite lookup_insert_ne.
Qed.

Lemma well_formed_answers : allows_answers well_formed.
Proof.
  split.
  - intros k v Hk. apply well_formed_allows. revert Hk.
    unfold scalar_answer_keys, open_keys. intros Hk Hg.
    repeat (apply elem_of_cons in Hg as [->|Hg]; [revert Hk; compute_done|]).
    now apply elem_of_nil in Hg.
  - intros g _. apply well_formed_allows_item.
Qed.

(** In a well-formed session [init_state] finds every group present. *)
Lemma well_formed_allows_new (r : Run) (k : string) (v : pyval) :
  allows_new well_formed k v.
Proof.
  intros σ Hwf Hnone.
  destruct (decide (k ∈ ["gad"; "panas"; "emp"; "emp_post"; "neu"; "neu_post"]))
    as [Hk|Hk]; [|now apply well_formed_allows].
  exfalso. destruct Hwf as [_ Hg]. unfold groups_ok, record_groups in Hg.
  repeat (apply elem_of_cons in Hk as [->|Hk];
    [ repeat (apply Forall_cons in Hg as [Hg1 Hg]; unfold group_ok in Hg1;
              simpl in Hg1; first [rewrite Hnone in Hg1; contradiction | clear Hg1])
    | ]).
  now apply elem_of_nil in Hk.
Qed.

Lemma keeps_script_well_formed (r : Run) :
  keeps well_formed (fun _ => well_formed) (script r).
Proof.
  apply keeps_script_inv; try apply _.
  - apply well_formed_answers.
  - intros r' k v _. now apply well_formed_allows_new.
  - intros b. apply well_formed_allows. compute_done.
  - intros s. apply well_formed_allows. compute_done.
  - apply well_formed_allows. compute_done.
  - intros r'. apply keeps_review_page; try apply _. now intros e σ _ H.
Qed.

(** On an empty session [init_state] creates every key. *)
Lemma init_state_empty (r : Run) (σ : State) :
  session σ = ∅ ->
  (init_state r σ).2 = Ok tt /\ well_formed (init_state r σ).1.
Proof.
  destruct σ as [s re up]. simpl. intros ->. split; [reflexivity|].
  apply (bool_decide_unpack _). vm_compute. exact I.
Qed.

Lemma init_state_well_formed (r : Run) :
  hoare empty_or_well_formed (init_state r) well_formed (fun _ => empty_or_well_formed).
Proof.
  intros σ [Hempty|Hwf].
  - destruct (init_state_empty r σ Hempty) as [Hok Hwf].
    destruct (init_state r σ) as [σ' res]. simpl in *. now subst res.
  - pose proof (keeps_init_state well_formed (fun _ => well_formed) r) as H.
    specialize (H (fun k v _ => well_formed_allows_new r k v) σ Hwf).
    destruct (init_state r σ) as [σ' [[]|e]]; [exact H|now right].
Qed.

Lemma hoare_keeps {A} (J : State -> Prop) (E : exn -> State -> Prop) (m : M A) :
  keeps J E m -> hoare J m J E.
Proof. intros H. exact H. Qed.

(** The prelude of a run leaves the session well-formed. *)
Lemma prelude_well_formed (r : Run) :
  hoare empty_or_well_formed (prelude r) well_formed (fun _ => empty_or_well_formed).
Proof.
  unfold prelude.
  apply hoare_seq with empty_or_well_formed;
    [apply hoare_keeps, keeps_basic_validations; apply _|intros _].
  apply hoare_seq with empty_or_well_formed;
    [apply hoare_keeps, keeps_save_token; now intros|intros _].
  apply hoare_seq with well_formed; [apply init_state_well_formed|intros _].
  apply hoare_conseq with (P := well_formed) (Q := well_formed)
                          (E := fun _ => well_formed);
    [auto|auto|intros; now right|].
  apply hoare_keeps.
  apply keeps_bind;
    [apply keeps_scroll_to_top; [apply _|apply well_formed_allows; compute_done]
    |intros _].
  apply keeps_bind; [apply keeps_show_progress; [apply _|now intros]|intros _].
  apply keeps_set_if_absent. now apply well_formed_allows_new.
Qed.

Lemma keeps_script_empty_or_well_formed (r : Run) :
  keeps empty_or_well_formed (fun _ => empty_or_well_formed) (script r).
Proof.
  unfold script.
  apply hoare_seq with well_formed; [apply prelude_well_formed|intros _].
  apply hoare_conseq with (P := well_formed) (Q := well_formed)
                          (E := fun _ => well_formed);
    [auto|intros; now right|intros; now right|].
  apply hoare_keeps, keeps_pages_inv; try apply _.
  - apply well_formed_answers.
  - intros b. apply well_formed_allows. compute_done.
  - intros s. apply well_formed_allows. compute_done.
  - apply well_formed_allows. compute_done.
  - intros r'. apply keeps_review_page; try apply _. now intros e σ _ H.
Qed.

(** In every session, every state is empty or well-formed... *)
Lemma sessions_well_formed (rs : list Run) :
  Forall empty_or_well_formed (session_states rs new_session).
Proof.
  assert (forall r σ, empty_or_well_formed σ -> empty_or_well_formed (interact r σ).1)
    as Hstep.
  { intros r σ H. unfold interact.
    pose proof (keeps_script_empty_or_well_formed r (cleared σ) H) as H1.
    change (script r (cleared σ)) with (run_script r σ) in H1.
    destruct (run_script r σ) as [σ1 [[]|e]]; [exact H1|].
    destruct e; try exact H1.
    pose proof (keeps_script_empty_or_well_formed (rerun_of r) (cleared σ1) H1) as H2.
    change (script (rerun_of r) (cleared σ1)) with (run_script (rerun_of r) σ1) in H2.
    destruct (run_script (rerun_of r) σ1) as [σ2 [[]|e2]]; exact H2. }
  assert (forall σ, empty_or_well_formed σ ->
            Forall empty_or_well_formed (session_states rs σ)) as Hall.
  { induction rs as [|r rs IH]; intros σ H; simpl; constructor; auto. }
  apply Hall. now left.
Qed.

(** ... and the pages of a run, the review page among them, start in a
    well-formed state. *)
Lemma pages_start_well_formed (r : Run) (σ σ1 : State) :
  empty_or_well_formed σ -> prelude r (cleared σ) = (σ1, Ok tt) -> well_formed σ1.
Proof.
  intros H Hp. pose proof (prelude_well_formed r (cleared σ) H) as Hh.
  now rewrite Hp in Hh.
Qed.

(** ** The tone transform (C7) *)

Import PyStrFacts.

Ltac tone_rule :=
  intros a b; unfold preprocess_text_for_tone;
  cbn [String.eqb Ascii.eqb Bool.eqb]; cbv zeta;
  repeat first [ rewrite replace_hit by reflexivity
               | rewrite replace_pass by reflexivity ];
  reflexivity.

Lemma neutral_Im : rewrites (fun t => preprocess_text_for_tone t "neutral") "I'm" "I am".
Proof. tone_rule. Qed.

Lemma neutral_youre :
  rewrites (fun t => preprocess_text_for_tone t "neutral") "you're" "you are".
Proof. tone_rule. Qed.

Lemma neutral_its : rewrites (fun t => preprocess_text_for_tone t "neutral") "it's" "it is".
Proof. tone_rule. Qed.

Lemma neutral_cant :
  rewrites (fun t => preprocess_text_for_tone t "neutral") "can't" "cannot".
Proof. tone_rule. Qed.

Lemma neutral_glad :
  rewrites (fun t => preprocess_text_for_tone t "neutral") "glad" "pleased".
Proof. tone_rule. Qed.

Lemma neutral_wonderful :
  rewrites (fun t => preprocess_text_for_tone t "neutral") "wonderful" "acceptable".
Proof. tone_rule. Qed.

Lemma empathetic_period :
  rewrites (fun t => preprocess_text_for_tone t "empathetic") "." "... ".
Proof. tone_rule. Qed.

Lemma empathetic_comma :
  rewrites (fun t => preprocess_text_for_tone t "empathetic") "," ", ".
Proof. tone_rule. Qed.

Lemma empathetic_breath :
  rewrites (fun t => preprocess_text_for_tone t "empathetic")
    "Take a slow breath" "Take a slow, deep breath".
Proof. tone_rule. Qed.

Lemma empathetic_Youre :
  rewrites (fun t => preprocess_text_for_tone t "empathetic") "You're" "You are truly".
Proof. tone_rule. Qed.

Lemma empathetic_Im :
  rewrites (fun t => preprocess_text_for_tone t "empathetic") "I'm" "I'm".
Proof. tone_rule. Qed.

Lemma other_tone (text tone : string) :
  tone <> "empathetic" -> tone <> "neutral" -> preprocess_text_for_tone text tone = text.
Proof.
  intros He Hn. unfold preprocess_text_for_tone.
  destruct (String.eqb_spec tone "empathetic"); [contradiction|].
  destruct (String.eqb_spec tone "neutral"); [contradiction|reflexivity].
Qed.

(** C7. For every text: with tone [neutral] each rule of the table rewrites
    its substring wherever it stands ("I'm" to "I am", "you're" to
    "you are", "it's" to "it is", "can't" to "cannot", "glad" to "pleased",
    "wonderful" to "acceptable"); with tone [empathetic] "I'm" is left as it
    is and every "." becomes "... "; with any other tone the text is
    returned as it is. *)
Theorem C7_tone_transform_rules (text tone : string) :
  let neutral := fun t => preprocess_text_for_tone t "neutral" in
  let empathetic := fun t => preprocess_text_for_tone t "empathetic" in
  (rewrites neutral "I'm" "I am" /\ rewrites neutral "you're" "you are" /\
   rewrites neutral "it's" "it is" /\ rewrites neutral "can't" "cannot" /\
   rewrites neutral "glad" "pleased" /\ rewrites neutral "wonderful" "acceptable") /\
  (rewrites empathetic "I'm" "I'm" /\ rewrites empathetic "." "... ") /\
  neutral "I'm glad you're wonderful" = "I am pleased you are acceptable" /\
  empathetic "I'm glad. You're wonderful." = "I'm glad...  You are truly wonderful... " /\
  (tone <> "empathetic" -> tone <> "neutral" ->
   preprocess_text_for_tone text tone = text).
Proof.
  cbv zeta. split; [|split; [|split; [|split]]].
  - repeat split; [apply neutral_Im|apply neutral_youre|apply neutral_its
                  |apply neutral_cant|apply neutral_glad|apply neutral_wonderful].
  - split; [apply empathetic_Im|apply empathetic_period].
  - reflexivity.
  - reflexivity.
  - apply other_tone.
Qed.

Lemma C7_tone_transform_rules_witness :
  "formal" <> "empathetic" /\ "formal" <> "neutral" /\
  preprocess_text_for_tone "I'm glad. You're wonderful." "formal"
  = "I'm glad. You're wonderful.".
Proof.
  refine (conj _ (conj _ _)); [discriminate|discriminate|].
  exact (proj2 (proj2 (proj2 (proj2
           (C7_tone_transform_rules "I'm glad. You're wonderful." "formal"))))
           ltac:(discriminate) ltac:(discriminate)).
Defined.

(** * The claims *)

(** ** Navigation: the step machine (C4, C6) *)

Lemma transition_edge (r : Run) (a : string) (σ1 : State) :
  transition r a σ1 ->
  exists b, at_step b σ1 /\
    ((is_continue (clicked r) /\ (a, b) ∈ forward_edges) \/
     (is_back (clicked r) /\ (b, a) ∈ forward_edges)).
Proof.
  intros [-> Hc Hb Hs|p n Hc Hl Hs _|p n Hc Hl Hs _].
  - exists "demographics". split; [exact Hs|]. left. split; [now left|].
    unfold forward_edges. in_list_l.
  - exists p. split; [exact Hs|]. right. split; [now exists p|].
    now apply nav_links_edges in Hl.
  - exists n. split; [exact Hs|]. left. split; [right; now exists n|].
    now apply nav_links_edges in Hl.
Qed.

Lemma nav_step (r : Run) (σ : State) (a : string) :
  a ∈ steps -> step_is a σ -> nav_step_ok r σ.
Proof.
  intros Ha Hs. pose proof (interact_nav r a σ Hs) as H.
  unfold nav_step_ok, accepted.
  destruct (run_script r σ) as [σ1 [[]|e]] eqn:Hrun.
  - destruct H as [-> H]. exists a, a. repeat split; try assumption.
    right. right. split; [discriminate|reflexivity].
  - destruct e;
      try (destruct H as [-> H]; exists a, a; repeat split; try assumption;
           right; right; split; [discriminate|reflexivity]).
    destruct H as [Ht Hre]. apply transition_edge in Ht as (b & Hb & Hedge).
    destruct (Hre b Hb) as [Hb' _]. exists a, b.
    assert (b ∈ steps) as Hbs.
    { destruct Hedge as [[_ He]|[_ He]]; now apply forward_edges_steps in He. }
    repeat split; try assumption.
    destruct Hedge as [[Hc He]|[Hc He]]; [left|right; left]; now repeat split.
Qed.

Lemma nav_step_in_steps (r : Run) (σ : State) :
  nav_step_ok r σ -> in_steps (interact r σ).1.
Proof. intros (a & b & _ & Hb & _ & Hs & _). now exists b. Qed.

Lemma session_follows_edges (rs : list Run) (σ : State) :
  in_steps σ -> Forall in_steps (session_states rs σ) /\ follows_edges σ rs.
Proof.
  revert σ. induction rs as [|r rs IH]; intros σ (a & Ha & Hs); simpl.
  - split; constructor.
  - pose proof (nav_step r σ a Ha Hs) as Hok.
    pose proof (nav_step_in_steps r σ Hok) as Hin.
    destruct (IH _ Hin) as [IH1 IH2]. repeat split; try assumption.
    now constructor.
Qed.

Lemma new_session_in_steps : in_steps new_session.
Proof. exists "consent". split; [unfold steps; in_list_l|reflexivity]. Qed.

(** ** Submission (C1, C2, C3) *)

Lemma rows_concat_record (existing : pd.DataFrame) (record : pydict) :
  pd.rows (pd.concat2 existing (pd.of_records [record])) = pd.rows existing ++ [record].
Proof. reflexivity. Qed.

Lemma submission_holds (r : Run) (σ : State) :
  at_step "review" σ -> clicked r = Some "Submit" -> well_formed σ ->
  exists record, submission r σ record.
Proof.
  intros Hs Hc Hwf.
  destruct (review_block_submit r σ Hs Hc Hwf) as (record & Hf & Heq).
  exists record. unfold submission. rewrite Heq, submit_eq.
  split; [exact Hf|]. split; [apply rows_concat_record|].
  cbv zeta. destruct (upload_raises r) as [msg|]; simpl; auto.
Qed.

(** C1. When Submit is clicked while the current step is [review] (in a
    session holding the keys [init_state] creates), the program builds one
    record that flattens the answers of the session, takes the fetched table,
    appends the record as its last row leaving the earlier rows as they are
    and in their order, and writes the whole table in one upload; the
    message shown last is the success message exactly when the upload did
    not raise (otherwise it is the failure message). *)
Theorem C1_submit_appends_one_row (r : Run) (σ : State) :
  at_step "review" σ -> clicked r = Some "Submit" -> well_formed σ ->
  submit_appends r σ.
Proof.
  intros Hs Hc Hwf. destruct (submission_holds r σ Hs Hc Hwf) as (record & Hsub).
  exists record. split; [exact Hsub|]. split; [split; [|split]|].
  - intros i c Hi. unfold pd.cell. rewrite rows_concat_record.
    now rewrite lookup_app_l.
  - rewrite rows_concat_record, length_app. simpl. lia.
  - rewrite rows_concat_record. apply last_snoc.
  - destruct Hsub as (_ & _ & _ & _ & Hout).
    destruct (upload_raises r) as [msg|]; destruct Hout as [_ ->];
      rewrite last_snoc; split; congruence.
Qed.

Lemma demo_review_at_review : at_step "review" demo_review.
Proof. vm_compute. reflexivity. Qed.

Lemma C1_submit_appends_one_row_witness :
  let r := demo_run (Some "Submit") true (Table demo_table) None in
  at_step "review" demo_review /\ clicked r = Some "Submit" /\
  well_formed demo_review /\ submit_appends r demo_review.
Proof.
  intros r.
  assert (at_step "review" demo_review) as Hs by (vm_compute; reflexivity).
  assert (clicked r = Some "Submit") as Hc by reflexivity.
  assert (well_formed demo_review) as Hwf
    by (apply (bool_decide_unpack _); vm_compute; exact I).
  exact (conj Hs (conj Hc (conj Hwf
           (C1_submit_appends_one_row r demo_review Hs Hc Hwf)))).
Defined.

(** In the review step nothing navigates: no run is accepted as a
    navigation and the step is [review] after every interaction. *)
Lemma review_stays (r : Run) (σ : State) :
  step_is "review" σ -> ~ accepted r σ /\ step_is "review" (interact r σ).1.
Proof.
  intros Hs. pose proof (interact_nav r "review" σ Hs) as H. unfold accepted.
  destruct (run_script r σ) as [σ1 [[]|e]].
  - destruct H as [-> H]. split; [discriminate|exact H].
  - destruct e; try (destruct H as [-> H]; split; [discriminate|exact H]).
    destruct H as [Ht _]. exfalso.
    destruct Ht as [Hne _ _ _|p n _ Hl _ _|p n _ Hl _ _];
      [discriminate|revert Hl; compute_done..].
Qed.

(** C2. Whatever the failure of the remote read (no such file, network
    error, content that does not parse), [load_existing_hf_csv] does not
    raise: it returns the empty table whose only column is
    [participant_id]; the submission goes on, and when the upload succeeds
    the uploaded table has exactly one row, the record of this
    participant. *)
Theorem C2_read_failure_falls_back_to_empty_table (r : Run) (σ : State) :
  read_fails (remote r) ->
  fallback_table r /\
  (at_step "review" σ -> clicked r = Some "Submit" -> well_formed σ ->
   upload_raises r = None -> submits_single_row r σ).
Proof.
  intros Hf.
  assert (fetched_table (remote r) = pd.empty ["participant_id"]) as Hempty.
  { destruct (remote r); simpl in Hf; [reflexivity..|contradiction]. }
  split.
  - intros repo path σ0. now rewrite load_existing_eq, Hempty.
  - intros Hs Hc Hwf Hup.
    destruct (submission_holds r σ Hs Hc Hwf) as (record & Hfl & _ & Hok & _ & Hout).
    rewrite Hup, Hempty in Hout. destruct Hout as [Hu Hr].
    exists record, (mkUpload (HF_DATASET_REPO r) (HF_DATASET_PATH r)
                      (pd.concat2 (pd.empty ["participant_id"]) (pd.of_records [record]))).
    split; [exact Hfl|]. split; [exact Hok|]. split; [exact Hu|].
    split; [reflexivity|]. rewrite Hr. apply last_snoc.
Qed.

Lemma C2_read_failure_falls_back_to_empty_table_witness :
  let r := demo_run (Some "Submit") true (NotFound "404 Client Error") None in
  read_fails (remote r) /\ fallback_table r /\
  at_step "review" demo_review /\ clicked r = Some "Submit" /\
  well_formed demo_review /\ upload_raises r = None /\
  submits_single_row r demo_review.
Proof.
  intros r.
  assert (read_fails (remote r)) as Hf by exact I.
  assert (at_step "review" demo_review) as Hs by (vm_compute; reflexivity).
  assert (clicked r = Some "Submit") as Hc by reflexivity.
  assert (well_formed demo_review) as Hwf
    by (apply (bool_decide_unpack _); vm_compute; exact I).
  assert (upload_raises r = None) as Hup by reflexivity.
  pose proof (C2_read_failure_falls_back_to_empty_table r demo_review Hf) as H.
  exact (conj Hf (conj (proj1 H) (conj Hs (conj Hc (conj Hwf (conj Hup
           (proj2 H Hs Hc Hwf Hup))))))).
Defined.

(** C3. When the upload of a submission raises, the exception is caught:
    the user is shown the failure message with the text of the exception,
    no success message, and the session is as it was: every key of
    [st.session_state] keeps its value, the current step is still [review]
    (also after the interaction as a whole) and no upload was recorded, so
    Submit can be pressed again. *)
Theorem C3_failed_submission_keeps_state (r : Run) (σ : State) (msg : string) :
  at_step "review" σ -> clicked r = Some "Submit" -> well_formed σ ->
  upload_raises r = Some msg ->
  reported_failed r σ msg.
Proof.
  intros Hs Hc Hwf Hup.
  destruct (submission_holds r σ Hs Hc Hwf) as (record & _ & _ & Hok & Hsess & Hout).
  rewrite Hup in Hout. destruct Hout as [Hu Hr].
  unfold reported_failed. cbv zeta. repeat split; try assumption.
  - unfold at_step. now rewrite Hsess.
  - apply review_stays. now apply at_step_step_is.
Qed.

Lemma C3_failed_submission_keeps_state_witness :
  let r := demo_run (Some "Submit") true (Table demo_table) (Some "503 Server Error") in
  at_step "review" demo_review /\ clicked r = Some "Submit" /\
  well_formed demo_review /\ upload_raises r = Some "503 Server Error" /\
  reported_failed r demo_review "503 Server Error".
Proof.
  intros r.
  assert (at_step "review" demo_review) as Hs by (vm_compute; reflexivity).
  assert (clicked r = Some "Submit") as Hc by reflexivity.
  assert (well_formed demo_review) as Hwf
    by (apply (bool_decide_unpack _); vm_compute; exact I).
  assert (upload_raises r = Some "503 Server Error") as Hup by reflexivity.
  exact (conj Hs (conj Hc (conj Hwf (conj Hup
           (C3_failed_submission_keeps_state r demo_review _ Hs Hc Hwf Hup))))).
Defined.

(** ** The consent gate (C4) *)

Lemma str_inj (a b : string) : str a = str b -> a = b.
Proof. unfold str. congruence. Qed.

Lemma step_is_inj (a b : string) (σ : State) : step_is a σ -> step_is b σ -> a = b.
Proof. unfold step_is. intros Ha Hb. rewrite Ha in Hb. now apply str_inj. Qed.

Lemma interact_not_rerun (r : Run) (σ : State) :
  (run_script r σ).2 <> Raise RerunException -> interact r σ = run_script r σ.
Proof.
  unfold interact. destruct (run_script r σ) as [σ1 [[]|e]]; [reflexivity|].
  destruct e; simpl; congruence.
Qed.

(** C4. While the current step is [consent]: with the consent box
    unchecked no interaction changes the step, and Continue is answered by
    the warning; the step changes only to [demographics], and only by
    Continue with the box checked. *)
Theorem C4_consent_gate (r : Run) (σ : State) :
  step_is "consent" σ ->
  (checkbox r "I agree to participate." = false -> step_is "consent" (interact r σ).1) /\
  (checkbox r "I agree to participate." = false ->
   clicked r = Some continue_label -> save_token_raises r = None ->
   (interact r σ).2 = Ok tt /\ consent_warned (interact r σ).1) /\
  (forall s, step_is s (interact r σ).1 -> s <> "consent" ->
     s = "demographics" /\ checkbox r "I agree to participate." = true /\
     clicked r = Some continue_label).
Proof.
  intros Hs. pose proof (interact_nav r "consent" σ Hs) as Hnav.
  assert (forall σ1, transition r "consent" σ1 ->
            clicked r = Some continue_label /\
            checkbox r "I agree to participate." = true /\ at_step "demographics" σ1)
    as Htr.
  { intros σ1 [_ Hc Hb H1|p n _ Hl _ _|p n _ Hl _ _];
      [auto|exfalso; revert Hl; compute_done..]. }
  split; [|split].
  - intros Hb. destruct (run_script r σ) as [σ1 [[]|e]].
    + now destruct Hnav as [-> H].
    + destruct e; try (now destruct Hnav as [-> H]).
      destruct Hnav as [Ht _]. apply Htr in Ht as (_ & Hb' & _). congruence.
  - intros Hb Hc Hsave.
    pose proof (consent_rejected_warns r Hc Hb Hsave (cleared σ) Hs) as Hw.
    change (script r (cleared σ)) with (run_script r σ) in Hw.
    assert ((run_script r σ).2 <> Raise RerunException) as Hnr.
    { destruct (run_script r σ) as [σ1 [[]|e]]; [discriminate|contradiction]. }
    rewrite (interact_not_rerun r σ Hnr).
    destruct (run_script r σ) as [σ1 [[]|e]]; [now split|contradiction].
  - intros s Hs' Hne. destruct (run_script r σ) as [σ1 [[]|e]].
    + destruct Hnav as [Heq H]. rewrite Heq in Hs'. simpl in Hs'.
      now destruct (Hne (step_is_inj _ _ _ Hs' H)).
    + destruct e;
        try (destruct Hnav as [Heq H]; rewrite Heq in Hs'; simpl in Hs';
             now destruct (Hne (step_is_inj _ _ _ Hs' H))).
      destruct Hnav as [Ht Hre]. apply Htr in Ht as (Hc & Hb & H1).
      destruct (Hre _ H1) as [H2 _].
      now rewrite (step_is_inj _ _ _ Hs' H2).
Qed.

Lemma C4_consent_gate_witness :
  let r := demo_run (Some continue_label) false (NotFound "404 Client Error") None in
  step_is "consent" demo_consent /\
  checkbox r "I agree to participate." = false /\
  clicked r = Some continue_label /\ save_token_raises r = None /\
  step_is "consent" (interact r demo_consent).1 /\
  (interact r demo_consent).2 = Ok tt /\ consent_warned (interact r demo_consent).1.
Proof.
  intros r.
  assert (step_is "consent" demo_consent) as Hs by (vm_compute; reflexivity).
  assert (checkbox r "I agree to participate." = false) as Hb by reflexivity.
  assert (clicked r = Some continue_label) as Hc by reflexivity.
  assert (save_token_raises r = None) as Hsave by reflexivity.
  pose proof (C4_consent_gate r demo_consent Hs) as (H1 & H2 & _).
  exact (conj Hs (conj Hb (conj Hc (conj Hsave (conj (H1 Hb) (H2 Hb Hc Hsave)))))).
Defined.

(** ** The review step has no Back (C6) *)

(** The buttons the review page adds to the page: Submit, nothing else. *)
Lemma review_page_buttons (r : Run) (σ : State) (label ident : string) :
  EButton label ident ∈ rendered (review_page r σ).1 ->
  EButton label ident ∈ rendered σ \/ (label = "Submit" /\ ident = "Submit").
Proof.
  assert (EButton label ident ∈ rendered (review_rendered σ) ->
          EButton label ident ∈ rendered σ \/ (label = "Submit" /\ ident = "Submit"))
    as Hbase.
  { intros H. unfold review_rendered in H. simpl in H.
    apply elem_of_app in H as [H|H]; [apply elem_of_app in H as [H|H]|].
    - now left.
    - apply elem_of_cons in H as [H|H]; [discriminate|now apply elem_of_nil in H].
    - apply elem_of_cons in H as [H|H]; [injection H as -> ->; now right|].
      now apply elem_of_nil in H. }
  destruct (decide (clicked r = Some "Submit")) as [Hc|Hc].
  - rewrite review_page_submit by exact Hc.
    pose proof (build_record_readonly r (review_rendered σ)) as Hro.
    destruct (build_record r (review_rendered σ)) as [σ' [record|e]];
      simpl in Hro; subst σ'; [|now apply Hbase].
    rewrite submit_eq. cbv zeta.
    destruct (upload_raises r); simpl; intros H;
      (apply elem_of_app in H as [H|H];
       [now apply Hbase
       |apply elem_of_cons in H as [H|H]; [discriminate|now apply elem_of_nil in H]]).
  - rewrite review_page_idle by exact Hc. now apply Hbase.
Qed.

(** C6, as the code has it. The review step offers no Back action: the
    only button its page renders is Submit; no interaction in the review
    step is accepted as a navigation and none changes the current step, so
    the step machine has no edge from [review] to [open]. *)
Theorem C6_review_offers_only_submit (r : Run) (σ : State) :
  step_is "review" σ ->
  ~ accepted r σ /\
  step_is "review" (interact r σ).1 /\
  (forall σ0 label ident,
     EButton label ident ∈ rendered (review_page r σ0).1 ->
     EButton label ident ∈ rendered σ0 \/ (label = "Submit" /\ ident = "Submit")).
Proof.
  intros Hs. destruct (review_stays r σ Hs) as [H1 H2].
  split; [exact H1|]. split; [exact H2|]. apply review_page_buttons.
Qed.

Lemma C6_review_offers_only_submit_witness :
  let r := demo_run (Some "back_open") true (NotFound "404 Client Error") None in
  step_is "review" demo_review /\
  ~ accepted r demo_review /\ step_is "review" (interact r demo_review).1.
Proof.
  intros r.
  assert (step_is "review" demo_review) as Hs by (vm_compute; reflexivity).
  pose proof (C6_review_offers_only_submit r demo_review Hs) as (H1 & H2 & _).
  exact (conj Hs (conj H1 H2)).
Defined.

(** The claim fails: in the review step the page shows the progress bar,
    the header and Submit, and no button that leads back; a click on the
    key a Back button to [open] would have is ignored, and no run at all
    leads from [review] to [open]. *)
Lemma C6_review_back_counterexample :
  let r := demo_run (Some "back_open") true (NotFound "404 Client Error") None in
  rendered (interact r demo_review).1
  = [EProgress 7 7; EHeader "Review & Submit"; EButton "Submit" "Submit"] /\
  current_step (interact r demo_review).1 = str "review" /\
  ~ (exists r', step_is "open" (interact r' demo_review).1).
Proof.
  intros r. split; [vm_compute; reflexivity|]. split; [vm_compute; reflexivity|].
  intros [r' H].
  assert (step_is "review" demo_review) as Hs by (vm_compute; reflexivity).
  destruct (review_stays r' demo_review Hs) as [_ H'].
  discriminate (step_is_inj _ _ _ H H').
Qed.

(** ** The just-navigated flag (C8) *)

(** [navigation_buttons] sets the flag on every transition it makes. *)
Lemma navigation_sets_flag (r : Run) (s0 : string) (σ : State) :
  step_is s0 σ -> s0 <> "consent" -> accepted r σ ->
  session (run_script r σ).1 !! "step_changed" = Some (PScalar (SBool true)).
Proof.
  intros Hs Hne Hacc. unfold accepted in Hacc.
  pose proof (interact_nav r s0 σ Hs) as H.
  destruct (run_script r σ) as [σ1 [[]|e]]; simpl in Hacc; [discriminate|].
  injection Hacc as ->. destruct H as [[Heq _ _ _|p n _ _ _ Hf|p n _ _ _ Hf] _];
    [contradiction|exact Hf..].
Qed.

(** The flag is consumed once: [scroll_to_top] scrolls and clears it, and
    checking again does nothing. *)
Lemma scroll_to_top_one_shot (σ : State) :
  session σ !! "step_changed" = Some (PScalar (SBool true)) ->
  let σ' := set_session (insert "step_changed" (PScalar (SBool false)))
              (add_rendered EScrollTop σ) in
  scroll_to_top σ = (σ', Ok tt) /\ scroll_to_top σ' = (σ', Ok tt).
Proof.
  intros H. unfold scroll_to_top, bind, ss_get, when, render, ss_setitem.
  rewrite H. simpl. split; [reflexivity|].
  now rewrite lookup_insert_eq.
Qed.

(** C8, at the input where the code departs from it. The transition from
    [consent] to [demographics] is made by the consent page's own handler,
    which does not set [step_changed]: the run asks for the rerun with the
    flag absent and the next render does not scroll. A transition made by
    [navigation_buttons] (here from [demographics] to [baseline]) sets the
    flag, and the next render scrolls and clears it. *)
Theorem C8_consent_transition_leaves_flag_unset :
  let r := demo_run (Some continue_label) true (NotFound "404 Client Error") None in
  let r' := demo_run (Some "next_baseline") true (NotFound "404 Client Error") None in
  let σ1 := (interact r demo_consent).1 in
  (at_step "consent" demo_consent /\
   (run_script r demo_consent).2 = Raise RerunException /\
   at_step "demographics" (run_script r demo_consent).1 /\
   session (run_script r demo_consent).1 !! "step_changed" = None /\
   (EScrollTop ∉ rendered σ1) /\
   session σ1 !! "step_changed" = None) /\
  ((run_script r' σ1).2 = Raise RerunException /\
   at_step "baseline" (run_script r' σ1).1 /\
   session (run_script r' σ1).1 !! "step_changed" = Some (PScalar (SBool true)) /\
   (EScrollTop ∈ rendered (interact r' σ1).1) /\
   session (interact r' σ1).1 !! "step_changed" = Some (PScalar (SBool false))).
Proof.
  cbv zeta. repeat split; try (vm_compute; reflexivity).
  - apply (bool_decide_unpack _). vm_compute. exact I.
  - apply (bool_decide_unpack _). vm_compute. exact I.
Qed.

(** * Further properties *)

(** ** [str.replace] of a single character *)

Lemma replace_char_nil (c : ascii) (new : string) : PyStr.replace (String c "") new "" = "".
Proof. reflexivity. Qed.

Lemma replace_char_cons (c d : ascii) (new s : string) :
  PyStr.replace (String c "") new (String d s)
  = if Ascii.eqb c d then new +:+ PyStr.replace (String c "") new s
    else String d (PyStr.replace (String c "") new s).
Proof.
  unfold PyStr.replace. cbn [PyStr.replace_scan String.prefix String.length Nat.sub].
  destruct (Ascii.eqb_spec c d) as [->|Hne].
  - destruct (ascii_dec d d); [|congruence]. now destruct s.
  - destruct (ascii_dec c d); [congruence|reflexivity].
Qed.

(** A replacement that does not produce [c] leaves a string without [c]
    without [c]. *)
Lemma mem_append (c : ascii) (a b : string) :
  PyStr.mem c (a +:+ b) = PyStr.mem c a || PyStr.mem c b.
Proof.
  induction a as [|x a IH]; [reflexivity|]. rewrite append_cons. simpl.
  now destruct (Ascii.eqb c x).
Qed.

Lemma replace_char_removes (c : ascii) (new s : string) :
  PyStr.mem c new = false -> PyStr.mem c (PyStr.replace (String c "") new s) = false.
Proof.
  intros Hnew. induction s as [|d s IH]; [reflexivity|].
  rewrite replace_char_cons. destruct (Ascii.eqb c d) eqn:Hcd.
  - now rewrite mem_append, Hnew, IH.
  - simpl. now rewrite Hcd.
Qed.

(** *** Escaping with a backslash *)

Lemma guarded_from_mono (c : ascii) (s : string) (p : bool) :
  guarded_from c false s = true -> guarded_from c p s = true.
Proof.
  destruct s as [|d s]; [reflexivity|]. simpl.
  destruct (Ascii.eqb d c); [discriminate|]. auto.
Qed.

(** [s.replace(c, "\\" + c)] puts a backslash before every [c]. *)
Lemma escape_guards (c : ascii) (s : string) (p : bool) :
  c <> ascii_of_nat 92 ->
  guarded_from c p (PyStr.replace (String c "") (String (ascii_of_nat 92) (String c "")) s)
  = true.
Proof.
  intros Hc. revert p. induction s as [|d s IH]; intros p; [reflexivity|].
  rewrite replace_char_cons. destruct (Ascii.eqb_spec c d) as [<-|Hne].
  - rewrite !append_cons, append_nil_l. cbn [guarded_from].
    rewrite (proj2 (Ascii.eqb_neq _ _)) by congruence.
    rewrite Ascii.eqb_refl. cbn [andb]. rewrite Ascii.eqb_refl. apply IH.
  - cbn [guarded_from]. rewrite (proj2 (Ascii.eqb_neq _ _)) by congruence. apply IH.
Qed.

(** Escaping another character [d] as backslash-[x] keeps the backslashes
    before [c]. *)
Lemma escape_keeps_guard (c d x : ascii) (s : string) (p : bool) :
  c <> ascii_of_nat 92 -> d <> ascii_of_nat 92 -> d <> c -> x <> c ->
  guarded_from c p s = true ->
  guarded_from c p (PyStr.replace (String d "") (String (ascii_of_nat 92) (String x "")) s)
  = true.
Proof.
  intros Hc Hb Hd Hx. revert p. induction s as [|e s IH]; intros p H; [reflexivity|].
  rewrite replace_char_cons. cbn [guarded_from] in H.
  apply andb_prop in H as [H1 H2].
  destruct (Ascii.eqb_spec d e) as [<-|Hne].
  - rewrite !append_cons, append_nil_l. cbn [guarded_from].
    rewrite (proj2 (Ascii.eqb_neq _ c)) by congruence.
    rewrite (proj2 (Ascii.eqb_neq x c)) by congruence. cbn [andb].
    apply guarded_from_mono, IH.
    now rewrite (proj2 (Ascii.eqb_neq d _)) in H2 by congruence.
  - cbn [guarded_from]. rewrite H1. cbn [andb]. now apply IH.
Qed.

(** A string without the first character of [old] has no occurrence of
    [old]. *)
Lemma replace_absent (h : ascii) (t new s : string) :
  PyStr.mem h s = false -> PyStr.replace (String h t) new s = s.
Proof.
  intros H. unfold PyStr.replace.
  rewrite <- (append_nil_r s) at 1. rewrite scan_copy by exact H.
  apply append_nil_r.
Qed.

(** ** The text of the speech element *)

(** X1. [create_speech_html] hands over the transformed text with every
    apostrophe and every double quote preceded by a backslash and every line
    break written as backslash-n, together with the rate and the pitch of the
    chosen voice. Nothing else is escaped: a text of an unknown tone without
    these three characters, backslashes included, is handed over as it is. *)
Theorem speech_text_escapes_quotes_and_newlines (text tone : string)
    (voice_config : VoiceConfig) (unique_id : string) :
  create_speech_html text voice_config tone unique_id
  = ESpeech unique_id (safe_text text tone) (rate voice_config) (pitch voice_config) /\
  PyStr.mem (ascii_of_nat 10) (safe_text text tone) = false /\
  backslashed "'" (safe_text text tone) /\
  backslashed (ascii_of_nat 34) (safe_text text tone) /\
  (tone <> "empathetic" -> tone <> "neutral" ->
   PyStr.mem "'" text = false -> PyStr.mem (ascii_of_nat 34) text = false ->
   PyStr.mem (ascii_of_nat 10) text = false ->
   safe_text text tone = text).
Proof.
  split; [reflexivity|]. unfold safe_text, backslashed, newline, quote, backslash.
  change (String (ascii_of_nat 92) "" +:+ "n")
    with (String (ascii_of_nat 92) (String "n" "")).
  change (String (ascii_of_nat 92) "" +:+ String (ascii_of_nat 34) "")
    with (String (ascii_of_nat 92) (String (ascii_of_nat 34) "")).
  change (String (ascii_of_nat 92) "" +:+ "'")
    with (String (ascii_of_nat 92) (String "'" "")).
  split; [|split; [|split; [|]]].
  - now apply replace_char_removes.
  - apply escape_keeps_guard; try discriminate.
    apply escape_keeps_guard; try discriminate.
    apply escape_guards. discriminate.
  - apply escape_keeps_guard; try discriminate.
    apply escape_guards. discriminate.
  - intros He Hn H1 H2 H3. rewrite (other_tone text tone He Hn).
    now rewrite (replace_absent _ _ _ text H1), (replace_absent _ _ _ text H2),
      (replace_absent _ _ _ text H3).
Qed.

Lemma speech_text_escapes_quotes_and_newlines_witness :
  let text := String "C" (String ":" (String (ascii_of_nat 92) "")) in
  "plain" <> "empathetic" /\ "plain" <> "neutral" /\
  PyStr.mem "'" text = false /\ PyStr.mem (ascii_of_nat 34) text = false /\
  PyStr.mem (ascii_of_nat 10) text = false /\
  safe_text text "plain" = text.
Proof.
  intros text.
  assert ("plain" <> "empathetic") as He by discriminate.
  assert ("plain" <> "neutral") as Hn by discriminate.
  exact (conj He (conj Hn (conj eq_refl (conj eq_refl (conj eq_refl
    (proj2 (proj2 (proj2 (proj2
       (speech_text_escapes_quotes_and_newlines text "plain"
          (mkVoice "" "" "" "" "" "") "")))) He Hn eq_refl eq_refl eq_refl)))))).
Defined.

(** ** The tone transform *)

(** X2. The rest of the rule table: with tone [empathetic] every comma gets a
    space after it, "Take a slow breath" and "You're" are reworded wherever
    they stand; the contraction rules are case-sensitive (the empathetic
    rule does not touch "you're", the neutral one does not touch "You're"),
    and the neutral tone adds no pauses. *)
Theorem tone_rules_for_pauses_and_case :
  let neutral := fun t => preprocess_text_for_tone t "neutral" in
  let empathetic := fun t => preprocess_text_for_tone t "empathetic" in
  (rewrites empathetic "," ", " /\
   rewrites empathetic "Take a slow breath" "Take a slow, deep breath" /\
   rewrites empathetic "You're" "You are truly") /\
  (rewrites empathetic "you're" "you're" /\ rewrites neutral "You're" "You're") /\
  (rewrites neutral "." "." /\ rewrites neutral "," ",").
Proof.
  cbv zeta. repeat split; tone_rule.
Qed.

(** *** The transform never shortens *)

Lemma intersperse_length (new s : string) :
  String.length s <= String.length (PyStr.intersperse new s).
Proof.
  induction s as [|c s IH]; simpl; [lia|].
  rewrite length_append. simpl. lia.
Qed.

Lemma scan_length (old new : string) :
  1 <= String.length old <= String.length new ->
  forall (s : string) (k : nat),
    String.length s <= k + String.length (PyStr.replace_scan old new k s).
Proof.
  intros Hlen. induction s as [|c s IH]; intros k; [simpl; lia|].
  destruct k as [|k]; cbn [PyStr.replace_scan].
  - destruct (String.prefix old (String c s)) eqn:Hp.
    + rewrite length_append. specialize (IH (String.length old - 1)).
      simpl. lia.
    + simpl. specialize (IH 0). lia.
  - simpl. specialize (IH k). lia.
Qed.

Lemma replace_length (old new s : string) :
  String.length old <= String.length new ->
  String.length s <= String.length (PyStr.replace old new s).
Proof.
  intros H. unfold PyStr.replace. destruct old as [|a old].
  - apply intersperse_length.
  - assert (1 <= String.length (String a old) <= String.length new) as Hlen
      by (simpl in *; lia).
    exact (scan_length (String a old) new Hlen s 0).
Qed.

(** X3. Whatever the text and the tone, the transformed text is at least as
    long as the text: every rule replaces a phrase by one that is not
    shorter. *)
Theorem tone_transform_never_shortens (text tone : string) :
  String.length text <= String.length (preprocess_text_for_tone text tone).
Proof.
  unfold preprocess_text_for_tone.
  destruct (String.eqb tone "empathetic"); [|destruct (String.eqb tone "neutral")];
    cbv zeta; [..|lia];
    repeat (etransitivity; [|apply replace_length; simpl; lia]); lia.
Qed.

(** ** Voice labels *)

(** [label.split(sep)[0]] gives back the name in front of the separator
    when the second character of the separator does not occur in the name. *)
Lemma split_first_name (a b : ascii) (t name rest : string) :
  a <> b -> PyStr.mem b name = false ->
  split_first (String a (String b t)) (name +:+ String a (String b t) +:+ rest) = name.
Proof.
  intros Hab. induction name as [|c name IH]; intros Hm.
  - rewrite append_nil_l.
    pose proof (prefix_append_l (String a (String b t)) rest) as Hp.
    rewrite append_cons in *. cbn [split_first]. now rewrite Hp.
  - simpl in Hm. destruct (Ascii.eqb_spec b c) as [->|Hbc]; [discriminate|].
    rewrite append_cons. cbn [split_first].
    replace (String.prefix (String a (String b t))
               (String c (name +:+ String a (String b t) +:+ rest))) with false.
    + now rewrite IH.
    + simpl. destruct (ascii_dec a c); [|reflexivity].
      destruct name as [|y name].
      * rewrite append_nil_l, append_cons. simpl.
        destruct (ascii_dec b a); congruence.
      * rewrite append_cons. simpl in Hm |- *.
        destruct (Ascii.eqb_spec b y); [discriminate|].
        destruct (ascii_dec b y); congruence.
Qed.

Lemma split_first_label (name : string) (info : VoiceConfig) :
  PyStr.mem (ascii_of_nat 226) name = false ->
  split_first voice_sep (voice_option_label name info) = name.
Proof.
  intros Hm. unfold voice_option_label, voice_sep.
  apply (split_first_name " " (ascii_of_nat 226)); [discriminate|exact Hm].
Qed.

Lemma voice_label_lookup (name : string) (info : VoiceConfig) :
  (name, info) ∈ VOICE_OPTIONS ->
  voice_lookup (split_first voice_sep (voice_option_label name info)) VOICE_OPTIONS
  = Some info.
Proof.
  intros Hin. unfold VOICE_OPTIONS in Hin.
  repeat (apply elem_of_cons in Hin as [Hin|Hin];
          [injection Hin as -> ->; rewrite split_first_label by reflexivity; reflexivity|]).
  now apply elem_of_nil in Hin.
Qed.

(** X4. Each label offered in the voice select boxes leads back to its voice:
    the text in front of [" — "] is the name (for any name without the
    first byte of the dash), and [VOICE_OPTIONS[name]] is the configuration
    the label was made from. The five names are distinct. *)
Theorem voice_label_names_its_voice :
  (forall name info, PyStr.mem (ascii_of_nat 226) name = false ->
     split_first voice_sep (voice_option_label name info) = name) /\
  (forall name info, (name, info) ∈ VOICE_OPTIONS ->
     voice_lookup (split_first voice_sep (voice_option_label name info)) VOICE_OPTIONS
     = Some info) /\
  NoDup (map fst VOICE_OPTIONS).
Proof.
  split; [exact split_first_label|]. split; [exact voice_label_lookup|].
  apply (bool_decide_unpack _). vm_compute. exact I.
Qed.

Lemma voice_label_names_its_voice_witness :
  PyStr.mem (ascii_of_nat 226) "Slow Empathetic" = false /\
  split_first voice_sep
    "Slow Empathetic — Female | American | Slower, more caring pace for empathy"
  = "Slow Empathetic".
Proof.
  exact (conj eq_refl
           (proj1 voice_label_names_its_voice "Slow Empathetic"
              (mkVoice "Female" "American" "Slower, more caring pace for empathy"
                       "Google US English Female" "0.8" "1.1") eq_refl)).
Defined.

(** ** [init_state] *)

(** A lookup in a dictionary literal, as a lookup in the finite map it
    denotes. *)
Lemma dict_get_list_to_map (l : pydict) (k : string) :
  dict_get l k = (list_to_map l : gmap string pyval) !! k.
Proof.
  induction l as [|[k' v'] l IH]; simpl; [now rewrite lookup_empty|].
  destruct (String.eqb_spec k k') as [->|Hne].
  - now rewrite lookup_insert_eq.
  - rewrite lookup_insert_ne by congruence. exact IH.
Qed.

(** The loop [for k, v in l.items(): if k not in st.session_state: ...]
    completes the session with the entries of [l]. *)
Lemma setdefault_loop (l : pydict) (σ : State) :
  for_ l (fun '(k, v) => present <- ss_contains k ;;
                         when (negb present) (ss_setitem k v)) σ
  = (set_session (fun s => s ∪ list_to_map l) σ, Ok tt).
Proof.
  revert σ. induction l as [|[k v] l IH]; intros [s re up].
  - unfold set_session. simpl. unfold ret. now rewrite (right_id_L ∅ (∪)).
  - cbn [for_]. unfold bind at 1. unfold bind at 1, ss_contains, when, ss_setitem.
    cbn [negb fst snd]. case_bool_decide as Hk; cbn [negb].
    + unfold ret. rewrite IH. unfold set_session. cbn [session rendered uploads].
      do 2 f_equal. cbn [list_to_map foldr fst snd]. apply map_eq. intros i.
      rewrite !lookup_union. destruct (decide (k = i)) as [->|Hne].
      * rewrite lookup_insert_eq. destruct Hk as [x Hx]. cbn in Hx. rewrite Hx.
        now destruct (list_to_map l !! i).
      * now rewrite lookup_insert_ne.
    + rewrite IH. unfold set_session. cbn [session rendered uploads].
      do 2 f_equal. cbn [list_to_map foldr fst snd].
      apply eq_None_not_Some in Hk. cbn in Hk.
      now rewrite <- insert_union_l, insert_union_r.
Qed.

Lemma init_state_eq (r : Run) (σ : State) :
  init_state r σ = (set_session (fun s => s ∪ list_to_map (defaults r)) σ, Ok tt).
Proof. apply setdefault_loop. Qed.

(** X5. [init_state] never raises and touches neither the page nor the uploads;
    a key already in [st.session_state] keeps its value, whatever it is, and
    a key that is missing gets its default, if it has one. *)
Theorem init_state_keeps_existing_values (r : Run) (σ : State) (k : string) :
  let σ' := (init_state r σ).1 in
  (init_state r σ).2 = Ok tt /\
  rendered σ' = rendered σ /\ uploads σ' = uploads σ /\
  session σ' !! k = match session σ !! k with
                    | Some v => Some v
                    | None => dict_get (defaults r) k
                    end.
Proof.
  cbv zeta. rewrite init_state_eq. cbn [fst snd set_session session rendered uploads].
  repeat split. rewrite lookup_union, dict_get_list_to_map.
  destruct (session σ !! k) as [v|]; [|now rewrite (left_id None _)].
  now destruct (list_to_map (defaults r) !! k).
Qed.

(** The keys of the defaults do not depend on the run. *)
Lemma defaults_keys (r r' : Run) : (defaults r).*1 = (defaults r').*1.
Proof. reflexivity. Qed.

(** X6. [init_state] is idempotent: called again, in the same run or in a later
    one (with another clock and another fresh identifier), it changes
    nothing. *)
Theorem init_state_idempotent (r r' : Run) (σ : State) :
  init_state r' (init_state r σ).1 = ((init_state r σ).1, Ok tt).
Proof.
  rewrite !init_state_eq. cbn [fst]. unfold set_session. cbn [session rendered uploads].
  do 2 f_equal. apply map_eq. intros i. rewrite !lookup_union.
  destruct (session σ !! i) as [v|] eqn:Hs.
  - destruct (list_to_map (defaults r) !! i), (list_to_map (defaults r') !! i); reflexivity.
  - destruct (list_to_map (defaults r) !! i) as [v|] eqn:Hd.
    + now destruct (list_to_map (defaults r') !! i).
    + apply not_elem_of_list_to_map in Hd. rewrite (defaults_keys r r') in Hd.
      apply (not_elem_of_list_to_map (M := gmap string)) in Hd. now rewrite Hd.
Qed.

(** ** [scroll_to_top] *)

(** X7. [scroll_to_top] never raises. When the flag is not set it does nothing
    at all; when it is set, the scroll script is put on the page once and the
    flag is stored as [False]. Either way the flag is not set afterwards and
    a second call does nothing. *)
Theorem scroll_to_top_consumes_flag (σ : State) :
  let σ' := (scroll_to_top σ).1 in
  (scroll_to_top σ).2 = Ok tt /\
  (flag_set σ = false -> σ' = σ) /\
  (flag_set σ = true ->
   σ' = set_session (insert "step_changed" (PScalar (SBool false)))
          (add_rendered EScrollTop σ)) /\
  flag_set σ' = false /\
  scroll_to_top σ' = (σ', Ok tt).
Proof.
  cbv zeta. unfold scroll_to_top, bind, ss_get, when, render, ss_setitem, ret.
  fold (flag_set σ). destruct (flag_set σ) eqn:Hf; cbn [fst snd].
  - split; [reflexivity|]. split; [discriminate|]. split; [reflexivity|].
    assert (flag_set (set_session (insert "step_changed" (PScalar (SBool false)))
                        (add_rendered EScrollTop σ)) = false) as Hf'.
    { unfold flag_set. cbn [session set_session]. now rewrite lookup_insert_eq. }
    split; [exact Hf'|]. unfold flag_set in Hf'. now rewrite Hf'.
  - split; [reflexivity|]. split; [reflexivity|]. split; [discriminate|].
    split; [exact Hf|]. unfold flag_set in Hf. now rewrite Hf.
Qed.

Lemma scroll_to_top_consumes_flag_witness :
  let σ := moved "baseline" demo_consent in
  flag_set σ = true /\
  (scroll_to_top σ).1
  = set_session (insert "step_changed" (PScalar (SBool false)))
      (add_rendered EScrollTop σ).
Proof.
  intros σ.
  assert (flag_set σ = true) as Hf by (vm_compute; reflexivity).
  exact (conj Hf (proj1 (proj2 (proj2 (scroll_to_top_consumes_flag σ))) Hf)).
Defined.

(** ** [show_progress] *)

Lemma list_index_steps (i : nat) (s : string) :
  steps !! i = Some s -> list_index (str s) steps = Some i.
Proof.
  unfold steps. intros H.
  do 7 (destruct i as [|i]; [injection H as <-; reflexivity|]).
  discriminate H.
Qed.

Lemma list_index_none (x : pyval) (l : list string) :
  (forall s, s ∈ l -> x <> str s) -> list_index x l = None.
Proof.
  induction l as [|y l IH]; intros H; [reflexivity|]. simpl.
  rewrite bool_decide_eq_false_2 by (apply H; left).
  rewrite IH; [reflexivity|]. intros s Hs. apply H. now right.
Qed.

(** X8. At the [i]-th step of the flow (counting from 0, and with [consent] when
    the key ["step"] is missing) [show_progress] puts the progress
    [(i + 1) / 7] on the page and changes nothing else; when the value of
    ["step"] is not a step of the flow, [steps.index] raises [ValueError]
    and nothing is put on the page. *)
Theorem show_progress_counts_steps (σ : State) :
  (forall i s, steps !! i = Some s -> step_is s σ ->
     show_progress σ = (add_rendered (EProgress (i + 1) 7) σ, Ok tt) /\
     1 <= i + 1 <= 7) /\
  ((forall s, s ∈ steps -> ~ step_is s σ) ->
     exists msg, show_progress σ = (σ, Raise (ValueError msg))).
Proof.
  split.
  - intros i s Hi Hs. split.
    + unfold show_progress, bind, ss_get. fold (current_step σ). rewrite Hs.
      now rewrite (list_index_steps i s Hi).
    + apply lookup_lt_Some in Hi. simpl in Hi. lia.
  - intros H. eexists. unfold show_progress, bind, ss_get. fold (current_step σ).
    rewrite list_index_none; [reflexivity|]. intros s Hs Heq. now apply (H s Hs).
Qed.

Lemma show_progress_counts_steps_witness :
  steps !! 6 = Some "review" /\ step_is "review" demo_review /\
  show_progress demo_review = (add_rendered (EProgress 7 7) demo_review, Ok tt).
Proof.
  assert (steps !! 6 = Some "review") as Hi by reflexivity.
  assert (step_is "review" demo_review) as Hs by (vm_compute; reflexivity).
  exact (conj Hi (conj Hs
           (proj1 (proj1 (show_progress_counts_steps demo_review) 6 "review" Hi Hs)))).
Defined.

(** ** Keys the script does not assign *)

#[global] Instance holds_stableR (k : string) (v : pyval) : StableR (holds k v).
Proof. intros e σ H. exact H. Qed.

#[global] Instance holds_stableU (k : string) (v : pyval) : StableU (holds k v).
Proof. intros u σ H. exact H. Qed.

Lemma holds_allows (k k' : string) (v v' : pyval) : k <> k' -> allows (holds k v) k' v'.
Proof. intros Hne σ H. unfold holds in *. simpl. now rewrite lookup_insert_ne. Qed.

Lemma holds_allows_new (k k' : string) (v v' : pyval) : allows_new (holds k v) k' v'.
Proof.
  intros σ H Hnone. destruct (decide (k = k')) as [<-|Hne].
  - unfold holds in H. congruence.
  - now apply holds_allows.
Qed.

Lemma holds_answers (k : string) (v : pyval) :
  k ∉ assigned_keys -> allows_answers (holds k v).
Proof.
  intros Hk. apply allows_answers_any. intros k' v' Hk'. apply holds_allows.
  intros <-. apply Hk. unfold assigned_keys. apply elem_of_app. now right.
Qed.

Lemma keeps_script_holds (k : string) (v : pyval) (r : Run) :
  k ∉ assigned_keys -> keeps (holds k v) (fun _ => holds k v) (script r).
Proof.
  intros Hk.
  assert (forall k' v', k' ∈ ["step"; "step_changed"; "consented"] ->
            allows (holds k v) k' v') as Hctl.
  { intros k' v' Hk'. apply holds_allows. intros <-. apply Hk.
    unfold assigned_keys. apply elem_of_app. now left. }
  apply keeps_script_inv; try apply _.
  - now apply holds_answers.
  - intros r' k' v' _. apply holds_allows_new.
  - intros b. apply Hctl. in_list_l.
  - intros s. apply Hctl. in_list_l.
  - apply Hctl. in_list_l.
  - intros r'. apply keeps_review_page; try apply _. now intros e σ _ H.
Qed.

Lemma interact_holds (k : string) (v : pyval) (r : Run) (σ : State) :
  k ∉ assigned_keys -> holds k v σ -> holds k v (interact r σ).1.
Proof.
  intros Hk H. unfold interact.
  pose proof (keeps_script_holds k v r Hk (cleared σ) H) as H1.
  change (script r (cleared σ)) with (run_script r σ) in H1.
  destruct (run_script r σ) as [σ1 [[]|e]]; [exact H1|].
  destruct e; try exact H1.
  pose proof (keeps_script_holds k v (rerun_of r) Hk (cleared σ1) H1) as H2.
  change (script (rerun_of r) (cleared σ1)) with (run_script (rerun_of r) σ1) in H2.
  destruct (run_script (rerun_of r) σ1) as [σ2 [[]|e2]]; exact H2.
Qed.

Lemma session_keeps_unassigned_keys_aux (k : string) (v : pyval) (rs : list Run) (σ : State) :
  k ∉ assigned_keys -> holds k v σ -> Forall (holds k v) (session_states rs σ).
Proof.
  intros Hk. revert σ. induction rs as [|r rs IH]; intros σ H; simpl; constructor.
  - now apply interact_holds.
  - now apply IH, interact_holds.
Qed.

(** The widgets' keys are none of the script's. *)
Lemma widget_keys_not_state_keys (r : Run) :
  Forall (fun k => k ∉ "step_changed" :: state_keys r) widget_keys.
Proof. apply (bool_decide_unpack _). vm_compute. exact I. Qed.

(** X9. Of the keys [init_state] creates, the script later assigns only the
    step, the consent flag and the answers: each of the others (the
    participant identifier, the start time and the two post-session
    groups), once present, keeps its value through every interaction that
    follows, whatever the participant does. *)
Theorem session_keeps_unassigned_keys (r0 : Run) (k : string) (v : pyval) (rs : list Run)
    (σ : State) :
  k ∈ state_keys r0 -> k ∉ assigned_keys -> holds k v σ ->
  Forall (holds k v) (session_states rs σ).
Proof.
  intros _ Hk. revert σ. induction rs as [|r rs IH]; intros σ H; simpl.
  - constructor.
  - pose proof (interact_holds k v r σ Hk H) as H1.
    constructor; [exact H1|]. apply IH, H1.
Qed.

Lemma session_keeps_unassigned_keys_witness :
  let r0 := demo_run None true (NotFound "404 Client Error") None in
  let v := str "0f8fad5b-d9cb-469f-a165-70867728950e" in
  ("participant_id" ∈ state_keys r0) /\
  ("participant_id" ∉ assigned_keys) /\ holds "participant_id" v demo_consent /\
  Forall (holds "participant_id" v) (session_states (drop 1 demo_walk) demo_consent).
Proof.
  intros r0 v.
  assert ("participant_id" ∈ state_keys r0) as Hin
    by (apply (bool_decide_unpack _); vm_compute; exact I).
  assert ("participant_id" ∉ assigned_keys) as Hk
    by (apply (bool_decide_unpack _); vm_compute; exact I).
  assert (holds "participant_id" v demo_consent) as H by (vm_compute; reflexivity).
  exact (conj Hin (conj Hk (conj H
           (session_keeps_unassigned_keys r0 "participant_id" v (drop 1 demo_walk)
              demo_consent Hin Hk H)))).
Defined.

(** ** The identity of a session *)

(** The script, taken apart at [init_state]: what precedes it works on the
    session as the browser hands it over, what follows on the session with
    its defaults. *)
Lemma hoare_script_init (P0 Q R : State -> Prop) (E : exn -> State -> Prop) (r : Run) :
  hoare P0 (basic_validations r) P0 E ->
  hoare P0 (HfFolder_save_token r) P0 E ->
  hoare P0 (init_state r) Q E ->
  keeps Q E (scroll_to_top ;; show_progress ;;
             present <- ss_contains "step" ;;
             when (negb present) (ss_setitem "step" (str "consent"))) ->
  hoare (fun σ => Q σ /\ is_Some (session σ !! "step")) (pages r) R E ->
  hoare P0 (script r) R E.
Proof.
  intros Hbv Hsave Hinit Hrest Hpages σ H0.
  unfold script, prelude, bind.
  specialize (Hbv σ H0). destruct (basic_validations r σ) as [σ1 [[]|e]]; [|exact Hbv].
  specialize (Hsave σ1 Hbv).
  destruct (HfFolder_save_token r σ1) as [σ2 [[]|e]]; [|exact Hsave].
  specialize (Hinit σ2 Hsave). destruct (init_state r σ2) as [σ3 [[]|e]]; [|exact Hinit].
  specialize (Hrest σ3 Hinit). unfold bind in Hrest.
  destruct (scroll_to_top σ3) as [σ4 [[]|e]]; [|exact Hrest].
  destruct (show_progress σ4) as [σ5 [[]|e]]; [|exact Hrest].
  unfold ss_contains, when, ss_setitem, ret in *.
  case_bool_decide as Hs; cbn [negb] in *; apply Hpages; (split; [exact Hrest|]).
  - exact Hs.
  - cbn [session set_session]. rewrite lookup_insert_eq. eauto.
Qed.

(** The first run of a session that gets as far as [init_state] stores the
    defaults. *)
Lemma first_run_defaults (r : Run) (k : string) (v : pyval) (σ : State) :
  save_token_raises r = None -> session σ = ∅ ->
  dict_get (defaults r) k = Some v -> k ∉ assigned_keys ->
  match script r σ with
  | (σ', _) => holds k v σ'
  end.
Proof.
  intros Hsave Hempty Hd Hk.
  assert (hoare (fun σ => session σ = ∅) (script r) (holds k v) (fun _ => holds k v)) as Hh.
  { assert (forall k' v', k' ∈ ["step"; "step_changed"; "consented"] ->
              allows (holds k v) k' v') as Hctl.
    { intros k' v' Hk'. apply holds_allows. intros <-. apply Hk.
      unfold assigned_keys. apply elem_of_app. now left. }
    apply hoare_script_init with (P0 := fun σ => session σ = ∅) (Q := holds k v).
    - apply hoare_keeps, keeps_basic_validations. now intros e σ0 H.
    - apply hoare_keeps, keeps_save_token. intros; congruence.
    - intros σ0 H0. rewrite init_state_eq. unfold holds. cbn [session set_session].
      rewrite H0, (left_id_L ∅ (∪)), <- dict_get_list_to_map. exact Hd.
    - apply keeps_bind;
        [apply keeps_scroll_to_top; [apply _|apply Hctl; in_list_l]|intros _].
      apply keeps_bind; [apply keeps_show_progress; [apply _|now intros]|intros _].
      apply keeps_set_if_absent. apply holds_allows_new.
    - apply hoare_conseq with (P := holds k v) (Q := holds k v) (E := fun _ => holds k v);
        [now intros σ0 [H _]|auto|auto|].
      apply hoare_keeps, keeps_pages_inv; try apply _.
      + now apply holds_answers.
      + intros b. apply Hctl. in_list_l.
      + intros s. apply Hctl. in_list_l.
      + apply Hctl. in_list_l.
      + intros r'. apply keeps_review_page; try apply _. now intros e σ0 _ H. }
  specialize (Hh σ Hempty). now destruct (script r σ) as [σ' [[]|e]].
Qed.

(** X10. When the first run of a session gets past the token call, the
    participant identifier and the start time are the ones drawn in that
    run, and they stay the same in every state of the session: later runs
    draw new values and do not store them. *)
Theorem session_identity_is_fixed (r : Run) (rs : list Run) :
  save_token_raises r = None ->
  Forall (fun σ => holds "participant_id" (str (uuid4 r)) σ /\
                   holds "start_ts" (str (utcnow r)) σ)
         (session_states (r :: rs) new_session).
Proof.
  intros Hsave.
  assert (forall k v, dict_get (defaults r) k = Some v -> k ∉ assigned_keys ->
            Forall (holds k v) (session_states (r :: rs) new_session)) as Hkey.
  { intros k v Hd Hk. cbn [session_states].
    assert (holds k v (interact r new_session).1) as H1.
    { unfold interact.
      pose proof (first_run_defaults r k v (cleared new_session) Hsave eq_refl Hd Hk) as H.
      change (script r (cleared new_session)) with (run_script r new_session) in H.
      destruct (run_script r new_session) as [σ1 [[]|e]]; [exact H|].
      destruct e; try exact H.
      pose proof (keeps_script_holds k v (rerun_of r) Hk (cleared σ1) H) as H2.
      change (script (rerun_of r) (cleared σ1)) with (run_script (rerun_of r) σ1) in H2.
      destruct (run_script (rerun_of r) σ1) as [σ2 [[]|e2]]; exact H2. }
    constructor; [exact H1|]. now apply session_keeps_unassigned_keys_aux. }
  apply Forall_and. split; apply Hkey; try reflexivity;
    apply (bool_decide_unpack _); vm_compute; exact I.
Qed.

Lemma session_identity_is_fixed_witness :
  let r := demo_run None true (NotFound "404 Client Error") None in
  save_token_raises r = None /\
  Forall (fun σ => holds "participant_id" (str "0f8fad5b-d9cb-469f-a165-70867728950e") σ /\
                   holds "start_ts" (str "2025-01-01T10:00:00") σ)
         (session_states (r :: drop 1 demo_walk) new_session).
Proof.
  intros r.
  exact (conj eq_refl (session_identity_is_fixed r (drop 1 demo_walk) eq_refl)).
Defined.

(** ** Rules for the pages, key by key *)

#[global] Instance and_stableR (J1 J2 : State -> Prop) `{!StableR J1} `{!StableR J2} :
  StableR (fun σ => J1 σ /\ J2 σ).
Proof. intros e σ [H1 H2]. split; now apply stable_render. Qed.

#[global] Instance and_stableU (J1 J2 : State -> Prop) `{!StableU J1} `{!StableU J2} :
  StableU (fun σ => J1 σ /\ J2 σ).
Proof. intros u σ [H1 H2]. split; now apply stable_upload. Qed.

Section PageRules.
Context (J : State -> Prop) (E : exn -> State -> Prop) `{HR : !StableR J} (r : Run).

Lemma keeps_ss_setitem_in_guarded (g k : string) (v : scalar) :
  allows_item J g -> group_guard J E g -> keeps J E (ss_setitem_in g k v).
Proof.
  intros Hitem Hg σ HJ. unfold ss_setitem_in, bind, ss_getitem.
  specialize (Hg σ HJ).
  destruct (session σ !! g) as [[x|d]|] eqn:Hd; simpl; try exact Hg.
  now apply Hitem.
Qed.

Lemma keeps_voice_session_guarded (a b c d tone uid : string) :
  voice_guard J E r b d -> keeps J E (voice_session r a b c d tone uid).
Proof.
  intros Hv σ HJ. unfold voice_session, bind, st_input, render, ret.
  cbn [default from_option id].
  assert (J (add_rendered (EInput d) (add_rendered (EInput b) σ))) as HJ2
    by now do 2 apply stable_render.
  specialize (Hv _ HJ2).
  destruct (widget r b) as [|?|?|label]; try exact Hv.
  destruct (widget r d) as [|?|?|text]; try exact Hv.
  unfold bind. cbn [fst snd].
  destruct (voice_lookup (split_first voice_sep label) VOICE_OPTIONS); [|exact Hv].
  now apply stable_render.
Qed.

Ltac guarded_step :=
  lazymatch goal with
  | |- keeps _ _ (navigation_buttons _ _ _ _ _) =>
      apply keeps_navigation_buttons; assumption
  | |- keeps _ _ (ss_setitem_in _ _ _) => apply keeps_ss_setitem_in_guarded
  | |- keeps _ _ (voice_session _ _ _ _ _ _ _) =>
      apply keeps_voice_session_guarded; assumption
  | _ => keeps_step
  end.

(** Each page keeps [J] when [J] survives the assignments of that page. *)
Lemma keeps_demographics_page_keys :
  (forall k (v : scalar), k ∈ page_scalars "demographics" -> allows J k (PScalar v)) ->
  nav_ok J E r "consent" "baseline" ->
  keeps J E (demographics_page r).
Proof.
  intros Hs Hnav. unfold demographics_page.
  repeat guarded_step; apply Hs; cbn; in_list_l.
Qed.

Lemma keeps_baseline_page_keys :
  (forall k (v : scalar), k ∈ page_scalars "baseline" -> allows J k (PScalar v)) ->
  (forall g, g ∈ page_groups "baseline" -> allows_item J g /\ group_guard J E g) ->
  nav_ok J E r "demographics" "session_emp" ->
  keeps J E (baseline_page r).
Proof.
  intros Hs Hg Hnav. unfold baseline_page.
  repeat guarded_step;
    first [ apply Hs; cbn; in_list_l
          | apply Hg; cbn; in_list_l ].
Qed.

Lemma keeps_session_emp_page_keys :
  (forall k (v : scalar), k ∈ page_scalars "session_emp" -> allows J k (PScalar v)) ->
  (forall g, g ∈ page_groups "session_emp" -> allows_item J g /\ group_guard J E g) ->
  voice_guard J E r "emp_voice_select" "emp_script_text" ->
  nav_ok J E r "baseline" "session_neu" ->
  keeps J E (session_emp_page r).
Proof.
  intros Hs Hg Hv Hnav. unfold session_emp_page.
  repeat guarded_step;
    first [ apply Hs; cbn; in_list_l
          | apply Hg; cbn; in_list_l ].
Qed.

Lemma keeps_session_neu_page_keys :
  (forall k (v : scalar), k ∈ page_scalars "session_neu" -> allows J k (PScalar v)) ->
  (forall g, g ∈ page_groups "session_neu" -> allows_item J g /\ group_guard J E g) ->
  voice_guard J E r "neu_voice_select" "neu_script_text" ->
  nav_ok J E r "session_emp" "open" ->
  keeps J E (session_neu_page r).
Proof.
  intros Hs Hg Hv Hnav. unfold session_neu_page.
  repeat guarded_step;
    first [ apply Hs; cbn; in_list_l
          | apply Hg; cbn; in_list_l ].
Qed.

Lemma keeps_open_page_keys :
  (forall k (v : scalar), k ∈ page_scalars "open" -> allows J k (PScalar v)) ->
  nav_ok J E r "session_neu" "review" ->
  keeps J E (open_page r).
Proof.
  intros Hs Hnav. unfold open_page.
  repeat guarded_step.
  apply Hs. change (page_scalars "open") with (fst <$> open_questions).
  match goal with H : (?k, ?l) ∈ open_questions |- _ =>
    apply (list_elem_of_fmap_2 fst _ _ H) end.
Qed.

(** The pages, whatever the step: each block reads ["step"] and runs its
    page when the step is its own. The review block comes last and may
    change the assertion. *)
Lemma hoare_pages_any (Q : State -> Prop) :
  (forall σ, J σ -> session σ !! "step" = None -> E (KeyError "step") σ) ->
  keeps J E (consent_page r) ->
  keeps J E (demographics_page r) ->
  keeps J E (baseline_page r) ->
  keeps J E (session_emp_page r) ->
  keeps J E (session_neu_page r) ->
  keeps J E (open_page r) ->
  hoare J (review_block r) Q E ->
  hoare J (pages r) Q E.
Proof.
  intros Hk H1 H2 H3 H4 H5 H6 H7. unfold pages, consent_block, demographics_block,
    baseline_block, session_emp_block, session_neu_block, open_block.
  apply hoare_seq with J; [now apply hoare_keeps, keeps_if_step|intros _].
  apply hoare_seq with J; [now apply hoare_keeps, keeps_if_step|intros _].
  apply hoare_seq with J; [now apply hoare_keeps, keeps_if_step|intros _].
  apply hoare_seq with J; [now apply hoare_keeps, keeps_if_step|intros _].
  apply hoare_seq with J; [now apply hoare_keeps, keeps_if_step|intros _].
  apply hoare_seq with J; [now apply hoare_keeps, keeps_if_step|intros _].
  exact H7.
Qed.

Lemma keeps_pages_any :
  (forall σ, J σ -> session σ !! "step" = None -> E (KeyError "step") σ) ->
  keeps J E (consent_page r) ->
  keeps J E (demographics_page r) ->
  keeps J E (baseline_page r) ->
  keeps J E (session_emp_page r) ->
  keeps J E (session_neu_page r) ->
  keeps J E (open_page r) ->
  keeps J E (review_block r) ->
  keeps J E (pages r).
Proof. apply hoare_pages_any. Qed.

End PageRules.

(** ** What a run assigns *)

Lemma page_keys_not_control (s k : string) :
  k ∈ page_scalars s ++ page_groups s ->
  k <> "step" /\ k <> "step_changed" /\ k <> "consented".
Proof.
  intros H.
  assert (forall l : list string,
            Forall (fun k => k <> "step" /\ k <> "step_changed" /\ k <> "consented") l ->
            k ∈ l -> k <> "step" /\ k <> "step_changed" /\ k <> "consented") as Hl.
  { intros l Hall Hin. now apply (proj1 (Forall_forall _ _) Hall). }
  destruct (String.eqb_spec s "demographics") as [->|H1];
    [revert H; apply Hl; compute_done|].
  destruct (String.eqb_spec s "baseline") as [->|H2];
    [revert H; apply Hl; compute_done|].
  destruct (String.eqb_spec s "session_emp") as [->|H3];
    [revert H; apply Hl; compute_done|].
  destruct (String.eqb_spec s "session_neu") as [->|H4];
    [revert H; apply Hl; compute_done|].
  destruct (String.eqb_spec s "open") as [->|H5];
    [revert H; apply Hl; compute_done|].
  unfold page_scalars, page_groups in H.
  apply String.eqb_neq in H1, H2, H3, H4, H5. rewrite H1, H2, H3, H4, H5 in H.
  now apply elem_of_nil in H.
Qed.

Lemma page_keys_written (s k : string) :
  k ∈ page_scalars s ++ page_groups s -> k ∈ written_keys s.
Proof.
  intros H. unfold written_keys. apply elem_of_app. right. apply elem_of_app. now right.
Qed.

#[global] Instance frame_inv_stableR (s k : string) (v : pyval) : StableR (frame_inv s k v).
Proof. intros e σ H. exact H. Qed.

#[global] Instance frame_inv_stableU (s k : string) (v : pyval) : StableU (frame_inv s k v).
Proof. intros u σ H. exact H. Qed.

Lemma frame_not_control (s k : string) :
  k ∉ written_keys s -> k <> "step" /\ k <> "step_changed".
Proof.
  intros Hk.
  split; intros Heq; apply Hk; rewrite Heq; unfold written_keys; apply elem_of_app;
    left; in_list_l.
Qed.

Lemma frame_allows (s k k' : string) (v v' : pyval) :
  k ∉ written_keys s -> k' ∈ page_scalars s ++ page_groups s ->
  allows (frame_inv s k v) k' v'.
Proof.
  intros Hk Hk' σ [H1 H2]. split.
  - apply at_step_allows; [|exact H1]. now apply page_keys_not_control in Hk'.
  - apply holds_allows; [|exact H2]. intros Heq. apply Hk. rewrite Heq.
    now apply page_keys_written.
Qed.

Lemma frame_scalars (s k : string) (v : pyval) :
  k ∉ written_keys s ->
  forall k' (v' : scalar), k' ∈ page_scalars s -> allows (frame_inv s k v) k' (PScalar v').
Proof. intros Hk k' v' H. apply frame_allows; [exact Hk|]. apply elem_of_app. now left. Qed.

Lemma frame_groups (s k : string) (v : pyval) :
  k ∉ written_keys s ->
  forall g, g ∈ page_groups s ->
    allows_item (frame_inv s k v) g /\ group_guard (frame_inv s k v) (fun _ => holds k v) g.
Proof.
  intros Hk g H. split.
  - intros σ d k' v' HJ _. apply frame_allows; [exact Hk| |exact HJ].
    apply elem_of_app. now right.
  - intros σ [_ HJ]. now destruct (session σ !! g) as [[?|?]|].
Qed.

Lemma frame_voice (s k : string) (v : pyval) (r : Run) (a b : string) :
  voice_guard (frame_inv s k v) (fun _ => holds k v) r a b.
Proof.
  intros σ [_ HJ]. destruct (widget r a) as [|?|?|label]; try exact HJ.
  destruct (widget r b) as [|?|?|text]; try exact HJ.
  now destruct (voice_lookup _ _).
Qed.

Lemma frame_nav (s k : string) (v : pyval) (r : Run) (p n : string) :
  k ∉ written_keys s -> nav_ok (frame_inv s k v) (fun _ => holds k v) r p n.
Proof.
  intros Hk. destruct (frame_not_control s k Hk) as [H1 H2].
  split; intros _ σ [_ HJ]; unfold moved;
    (apply holds_allows; [exact H2|]; apply holds_allows; [exact H1|exact HJ]).
Qed.

Lemma keeps_pages_frame (s k : string) (v : pyval) (r : Run) :
  k ∉ written_keys s -> keeps (frame_inv s k v) (fun _ => holds k v) (pages r).
Proof.
  intros Hk.
  apply keeps_pages with s; [now intros σ [H _]|..]; intros ->.
  - apply keeps_consent_page; [apply _|]. intros _ _ σ [_ HJ].
    unfold consent_moved. apply holds_allows; [|apply holds_allows; [|exact HJ]];
      intros Heq; apply Hk; rewrite Heq; unfold written_keys; cbn; in_list_l.
  - apply keeps_demographics_page_keys;
      [apply _|now apply frame_scalars|now apply frame_nav].
  - apply keeps_baseline_page_keys;
      [apply _|now apply frame_scalars|now apply frame_groups|now apply frame_nav].
  - apply keeps_session_emp_page_keys;
      [apply _|now apply frame_scalars|now apply frame_groups|apply frame_voice
      |now apply frame_nav].
  - apply keeps_session_neu_page_keys;
      [apply _|now apply frame_scalars|now apply frame_groups|apply frame_voice
      |now apply frame_nav].
  - apply keeps_open_page_keys; [apply _|now apply frame_scalars|now apply frame_nav].
  - apply keeps_review_page; try apply _. now intros e σ _ [_ H].
Qed.

Lemma script_frame (s k : string) (v : pyval) (r : Run) (σ : State) :
  k ∉ written_keys s -> step_is s σ -> holds k v σ -> holds k v (script r σ).1.
Proof.
  intros Hk Hs Hv. destruct (frame_not_control s k Hk) as [H1 H2].
  pose proof (keeps_script (fun σ => step_is s σ /\ holds k v σ) (frame_inv s k v)
                (fun _ => holds k v) r) as H.
  assert (match script r σ with
          | (σ', Ok _) => frame_inv s k v σ'
          | (σ', Raise e) => holds k v σ'
          end) as Hout.
  { apply H; [| |now apply keeps_pages_frame|now split].
    - apply keeps_prelude; try apply _.
      + now intros msg σ0 _ [_ H0].
      + intros k' v' Hd σ0 [Ha Hb] Hnone. split.
        * now apply (step_is_allows_new r).
        * now apply holds_allows_new.
      + intros σ0 [Ha Hb]. split; [now apply step_is_allows|now apply holds_allows].
      + now intros σ0 [_ H0] _.
    - intros σ0 [Ha Hb] Hsome. split; [now apply step_is_at_step|exact Hb]. }
  destruct (script r σ) as [σ' [[]|e]]; [apply Hout|exact Hout].
Qed.

(** X11. Of the keys [init_state] creates, a run of the script started at
    step [s] assigns, besides ["step"], only the answers of the page of [s]
    (and on the consent page the consent flag): every other one keeps its
    value, so the answers given on a page stay as they are while the
    participant is on any other page. *)
Theorem run_assigns_only_the_keys_of_its_page (r : Run) (σ : State) (s k : string) (v : pyval) :
  k ∈ state_keys r -> step_is s σ -> k ∉ written_keys s -> holds k v σ ->
  holds k v (run_script r σ).1.
Proof.
  intros _ Hs Hk Hv. destruct (frame_not_control s k Hk) as [H1 H2]. unfold run_script.
  fold (cleared σ).
  pose proof (keeps_script (fun σ => step_is s σ /\ holds k v σ) (frame_inv s k v)
                (fun _ => holds k v) r) as H.
  assert (match script r (cleared σ) with
          | (σ', Ok _) => frame_inv s k v σ'
          | (σ', Raise e) => holds k v σ'
          end) as Hout.
  { apply H; [| |now apply keeps_pages_frame|now split].
    - apply keeps_prelude; try apply _.
      + now intros msg σ0 _ [_ H0].
      + intros k' v' Hd σ0 [Ha Hb] Hnone. split.
        * now apply (step_is_allows_new r).
        * now apply holds_allows_new.
      + intros σ0 [Ha Hb]. split; [now apply step_is_allows|now apply holds_allows].
      + now intros σ0 [_ H0] _.
    - intros σ0 [Ha Hb] Hsome. split; [now apply step_is_at_step|exact Hb]. }
  destruct (script r (cleared σ)) as [σ' [[]|e]]; [apply Hout|exact Hout].
Qed.

Lemma run_assigns_only_the_keys_of_its_page_witness :
  let r := demo_run (Some "back_open") true (NotFound "404 Client Error") None in
  "age" ∈ state_keys r /\
  step_is "review" demo_review /\ ("age" ∉ written_keys "review") /\
  holds "age" (PScalar (SInt 25)) demo_review /\
  holds "age" (PScalar (SInt 25)) (run_script r demo_review).1.
Proof.
  intros r.
  assert ("age" ∈ state_keys r) as Hin
    by (apply (bool_decide_unpack _); vm_compute; exact I).
  assert (step_is "review" demo_review) as Hs by (vm_compute; reflexivity).
  assert ("age" ∉ written_keys "review") as Hk
    by (apply (bool_decide_unpack _); vm_compute; exact I).
  assert (holds "age" (PScalar (SInt 25)) demo_review) as Hv by (vm_compute; reflexivity).
  exact (conj Hin (conj Hs (conj Hk (conj Hv
           (run_assigns_only_the_keys_of_its_page r demo_review "review" "age" _
              Hin Hs Hk Hv))))).
Defined.

(** ** Consent comes first *)

Lemma consented_not_written (s : string) : s <> "consent" -> "consented" ∉ written_keys s.
Proof.
  intros Hs. unfold written_keys. apply String.eqb_neq in Hs. rewrite Hs.
  intros H. apply elem_of_app in H as [H|H]; [revert H; compute_done|].
  now apply page_keys_not_control in H.
Qed.

Lemma script_consent_given (r : Run) (σ : State) (s : string) :
  step_is s σ -> consent_given σ -> consent_given (script r σ).1.
Proof.
  intros Hs Hc. destruct (decide (s = "consent")) as [->|Hne].
  - pose proof (keeps_script (step_is "consent") (at_step "consent")
                  (fun _ => consent_given) r) as H.
    assert (match script r σ with
            | (σ', Ok _) => at_step "consent" σ'
            | (σ', Raise e) => consent_given σ'
            end) as Hout.
    { apply H; [| |
        |exact Hs].
      - apply keeps_prelude; try apply _.
        + intros msg σ0 _ H0. now left.
        + intros k v Hd. now apply (step_is_allows_new r).
        + now apply step_is_allows.
        + intros σ0 H0 _. now left.
      - apply step_is_at_step.
      - apply keeps_pages with "consent"; [auto|..]; intros Heq; try discriminate Heq.
        apply keeps_consent_page; [apply _|]. intros _ _ σ0 _. right.
        unfold holds, consent_moved. simpl.
        now rewrite lookup_insert_ne, lookup_insert_eq. }
    destruct (script r σ) as [σ' [[]|e]]; [|exact Hout].
    left. now apply at_step_step_is.
  - destruct Hc as [Hc|Hc]; [now destruct (Hne (step_is_inj _ _ _ Hs Hc))|].
    right. apply script_frame with s; auto using consented_not_written.
Qed.

Lemma interact_consent_given (r : Run) (σ : State) (a : string) :
  step_is a σ -> consent_given σ -> consent_given (interact r σ).1.
Proof.
  intros Hs Hc. unfold interact.
  pose proof (script_consent_given r (cleared σ) a Hs Hc) as H1.
  pose proof (script_nav r a (cleared σ) Hs) as Hnav.
  change (script r (cleared σ)) with (run_script r σ) in H1, Hnav.
  destruct (run_script r σ) as [σ1 [[]|e]]; [exact H1|].
  destruct e; try exact H1. cbn in Hnav, H1.
  apply transition_edge in Hnav as (b & Hb & _). apply at_step_step_is in Hb.
  apply (script_consent_given (rerun_of r) (cleared σ1) b Hb H1).
Qed.

Lemma consent_given_sessions (rs : list Run) (σ : State) :
  in_steps σ -> consent_given σ -> Forall consent_given (session_states rs σ).
Proof.
  revert σ. induction rs as [|r rs IH]; intros σ (a & Ha & Hs) Hc; simpl; constructor.
  - now apply interact_consent_given with a.
  - apply IH.
    + apply nav_step_in_steps. now apply nav_step with a.
    + now apply interact_consent_given with a.
Qed.

(** Once [True], the consent flag stays [True]: the only assignment to it
    stores [True], and [init_state] leaves a flag that is present alone. *)
Lemma consent_flag_stays (rs : list Run) (σ : State) :
  holds "consented" (PScalar (SBool true)) σ ->
  Forall (holds "consented" (PScalar (SBool true))) (session_states rs σ).
Proof.
  assert (forall k v, k <> "consented" ->
            allows (holds "consented" (PScalar (SBool true))) k v) as Hother
    by (intros k v Hk; apply holds_allows; congruence).
  apply session_states_inv; try apply _.
  - apply allows_answers_any. intros k v Hk. apply Hother. intros ->.
    revert Hk. compute_done.
  - intros r k v _. apply holds_allows_new.
  - intros b. now apply Hother.
  - intros s. now apply Hother.
  - intros σ0 _. unfold holds. simpl. apply lookup_insert_eq.
  - intros r. apply keeps_review_page; try apply _. now intros e σ0 _ H.
  - now intros σ0 H.
Qed.

(** X12. In every state of every session the participant is still on the
    consent page or the consent flag ["consented"] is [True]: no page of the
    survey is reached before the participant has agreed. And the flag is
    never withdrawn: from any state in which it is [True] it is [True] in
    every state that follows, also when the participant goes back to the
    consent page, unchecks the box or presses Continue there again. *)
Theorem no_survey_step_without_consent (rs : list Run) :
  Forall consent_given (session_states rs new_session) /\
  (forall σ, holds "consented" (PScalar (SBool true)) σ ->
     Forall (fun σ' => holds "consented" (PScalar (SBool true)) σ' /\ consent_given σ')
            (session_states rs σ)).
Proof.
  split.
  - apply consent_given_sessions; [apply new_session_in_steps|now left].
  - intros σ H. eapply Forall_impl; [apply consent_flag_stays, H|].
    intros σ' H'. split; [exact H'|now right].
Qed.

Lemma no_survey_step_without_consent_witness :
  let back := demo_run (Some "back_consent") false (NotFound "404 Client Error") None in
  let σ := default new_session (last (session_states (take 2 demo_walk) new_session)) in
  holds "consented" (PScalar (SBool true)) σ /\
  step_is "demographics" σ /\
  step_is "consent" (interact back σ).1 /\
  holds "consented" (PScalar (SBool true)) (interact back σ).1.
Proof.
  intros back σ.
  assert (holds "consented" (PScalar (SBool true)) σ) as H by (vm_compute; reflexivity).
  pose proof (proj2 (no_survey_step_without_consent [back]) σ H) as Hall.
  apply Forall_cons in Hall as [[Hflag _] _].
  refine (conj H (conj _ (conj _ Hflag))); vm_compute; reflexivity.
Defined.

(** ** When the script uploads *)

#[global] Instance not_submitting_stableR (r : Run) (U : list Upload) :
  StableR (not_submitting r U).
Proof. intros e σ H. exact H. Qed.

#[global] Instance uploads_are_stableR (U : list Upload) : StableR (uploads_are U).
Proof. intros e σ H. exact H. Qed.

Lemma not_submitting_allows (r : Run) (U : list Upload) (k : string) (v : pyval) :
  k <> "step" -> allows (not_submitting r U) k v.
Proof.
  intros Hk σ [Hu Hs]. split; [exact Hu|]. intros Hc Hr. apply (Hs Hc).
  unfold step_is, current_step in *. simpl in Hr. now rewrite lookup_insert_ne in Hr.
Qed.

Lemma not_submitting_allows_new (r r' : Run) (U : list Upload) (k : string) (v : pyval) :
  (k, v) ∈ defaults r' -> allows_new (not_submitting r U) k v.
Proof.
  intros Hd σ [Hu Hs] Hnone. destruct (decide (k = "step")) as [->|Hk].
  - apply defaults_step in Hd as ->. split; [exact Hu|]. intros _ Hr.
    unfold step_is, current_step in Hr. simpl in Hr. rewrite lookup_insert_eq in Hr.
    discriminate Hr.
  - now apply not_submitting_allows.
Qed.

Lemma not_submitting_page_keys (r : Run) (U : list Upload) (s k : string) (v : pyval) :
  k ∈ page_scalars s ++ page_groups s -> allows (not_submitting r U) k v.
Proof. intros H. apply not_submitting_allows. now apply page_keys_not_control in H. Qed.

(** A run that is not a submission uploads nothing. *)
Lemma script_no_upload (r : Run) (σ : State) :
  (clicked r = Some "Submit" -> ~ step_is "review" σ) ->
  uploads (script r σ).1 = uploads σ.
Proof.
  intros Hsub. set (U := uploads σ).
  set (J := not_submitting r U). set (E := fun (_ : exn) σ' => uploads σ' = U).
  assert (forall e σ', J σ' -> E e σ') as HJE by (now intros e σ' [H _]).
  assert (forall s k (v : scalar), k ∈ page_scalars s -> allows J k (PScalar v)) as Hsc.
  { intros s k v H. apply (not_submitting_page_keys r U s), elem_of_app. now left. }
  assert (forall s g, g ∈ page_groups s -> allows_item J g /\ group_guard J E g) as Hgr.
  { intros s g H. split.
    - intros σ' d k v HJ _. apply (not_submitting_page_keys r U s); [|exact HJ].
      apply elem_of_app. now right.
    - intros σ' HJ. destruct (session σ' !! g) as [[?|?]|]; auto. }
  assert (forall a b, voice_guard J E r a b) as Hvoice.
  { intros a b σ' HJ. destruct (widget r a) as [|?|?|label]; auto.
    destruct (widget r b) as [|?|?|text]; auto. destruct (voice_lookup _ _); auto. }
  assert (forall p n, nav_ok J E r p n) as Hnav.
  { intros p n. split; intros _ σ' [Hu _]; exact Hu. }
  assert (match script r σ with
          | (σ', Ok _) => J σ'
          | (σ', Raise e) => E e σ'
          end) as Hout.
  { apply (keeps_script J J E r).
    - apply keeps_prelude; try apply _.
      + intros msg σ' _ H. now apply HJE.
      + intros k v Hd. now apply not_submitting_allows_new with r.
      + now apply not_submitting_allows.
      + intros σ' H _. now apply HJE.
    - auto.
    - apply keeps_pages_any; try apply _.
      + intros σ' H _. now apply HJE.
      + apply keeps_consent_page; [apply _|]. intros _ _ σ' [Hu _]. exact Hu.
      + apply keeps_demographics_page_keys; [apply _|apply Hsc|apply Hnav].
      + apply keeps_baseline_page_keys; [apply _|apply Hsc|apply Hgr|apply Hnav].
      + apply keeps_session_emp_page_keys;
          [apply _|apply Hsc|apply Hgr|apply Hvoice|apply Hnav].
      + apply keeps_session_neu_page_keys;
          [apply _|apply Hsc|apply Hgr|apply Hvoice|apply Hnav].
      + apply keeps_open_page_keys; [apply _|apply Hsc|apply Hnav].
      + intros σ' [Hu Hs]. unfold review_block, if_step, bind, ss_getitem.
        destruct (session σ' !! "step") as [x|] eqn:Hx; [|exact Hu].
        unfold when. case_bool_decide as Hr; [|now split]. subst x.
        rewrite review_page_idle; [now split|].
        intros Hc. apply (Hs Hc). unfold step_is, current_step. now rewrite Hx.
    - now split. }
  destruct (script r σ) as [σ' [[]|e]]; [apply Hout|exact Hout].
Qed.

(** The review block uploads at most once. *)
Lemma review_block_uploads (r : Run) (U : list Upload) :
  hoare (uploads_are U) (review_block r) (one_upload_more r U)
        (fun _ => one_upload_more r U).
Proof.
  intros σ Hu. unfold review_block, if_step, bind, ss_getitem.
  destruct (session σ !! "step") as [x|]; [|now left].
  unfold when. case_bool_decide as Hr; [|now left].
  destruct (decide (clicked r = Some "Submit")) as [Hc|Hc].
  - rewrite review_page_submit by exact Hc.
    pose proof (build_record_readonly r (review_rendered σ)) as Hro.
    destruct (build_record r (review_rendered σ)) as [σ' [record|e]];
      simpl in Hro; subst σ'; [|now left].
    rewrite submit_eq. cbv zeta. destruct (upload_raises r); [now left|].
    right. eexists. simpl. now rewrite Hu.
  - rewrite review_page_idle by exact Hc. now left.
Qed.

Lemma script_one_upload (r : Run) (σ : State) : one_upload_more r (uploads σ) (script r σ).1.
Proof.
  set (U := uploads σ).
  assert (tolerated (uploads_are U) (fun _ => uploads_are U)) as Htol
    by (now intros e σ' _ H).
  assert (allows_answers (uploads_are U)) as Hans.
  { apply allows_answers_any. now intros k v _ σ' H. }
  assert (forall p n, nav_ok (uploads_are U) (fun _ => uploads_are U) r p n) as Hnav.
  { intros p n. split; intros _ σ' H; exact H. }
  assert (hoare (uploads_are U) (script r) (one_upload_more r U)
            (fun _ => one_upload_more r U)) as Hh.
  { unfold script. apply hoare_seq with (uploads_are U).
    - apply hoare_conseq with (P := uploads_are U) (Q := uploads_are U)
                              (E := fun _ => uploads_are U);
        [auto|auto|intros e0 σ0 H0; now left|].
      apply hoare_keeps, keeps_prelude; try apply _; now intros.
    - intros _. apply hoare_pages_any.
      + intros σ' H _. now left.
      + apply keeps_weaken with (E := fun _ => uploads_are U); [now left|].
        apply keeps_consent_page; [apply _|now intros].
      + apply keeps_weaken with (E := fun _ => uploads_are U); [now left|].
        now apply keeps_demographics_page.
      + apply keeps_weaken with (E := fun _ => uploads_are U); [now left|].
        now apply keeps_baseline_page.
      + apply keeps_weaken with (E := fun _ => uploads_are U); [now left|].
        now apply keeps_session_emp_page.
      + apply keeps_weaken with (E := fun _ => uploads_are U); [now left|].
        now apply keeps_session_neu_page.
      + apply keeps_weaken with (E := fun _ => uploads_are U); [now left|].
        now apply keeps_open_page.
      + apply review_block_uploads. }
  specialize (Hh σ eq_refl). now destruct (script r σ) as [σ' [[]|e]].
Qed.

(** X13. One interaction uploads at most once, to the repository and the path of
    the configuration, and only when it was started by a click on Submit
    while the step is [review]: no other page, no navigation and no rerun
    uploads anything. *)
Theorem uploads_only_on_submit (r : Run) (σ : State) :
  (~ (step_is "review" σ /\ clicked r = Some "Submit") ->
   uploads (interact r σ).1 = uploads σ) /\
  one_upload_more r (uploads σ) (interact r σ).1.
Proof.
  assert (forall σ1, uploads (script (rerun_of r) (cleared σ1)).1 = uploads σ1) as Hre.
  { intros σ1. now apply (script_no_upload (rerun_of r) (cleared σ1)). }
  unfold interact. split.
  - intros Hn.
    assert (uploads (run_script r σ).1 = uploads σ) as H1.
    { apply (script_no_upload r (cleared σ)). intros Hc Hs. apply Hn. now split. }
    destruct (run_script r σ) as [σ1 [[]|e]]; [exact H1|].
    destruct e; try exact H1. cbn in H1. unfold run_script. fold (cleared σ1).
    now rewrite Hre.
  - pose proof (script_one_upload r (cleared σ)) as H1.
    change (script r (cleared σ)) with (run_script r σ) in H1.
    change (uploads (cleared σ)) with (uploads σ) in H1.
    destruct (run_script r σ) as [σ1 [[]|e]]; [exact H1|].
    destruct e; try exact H1. cbn in H1. unfold run_script. fold (cleared σ1).
    unfold one_upload_more in *. now rewrite Hre.
Qed.

(** ** The voice sessions *)

Lemma voice_session_eq (r : Run) (σ : State)
    (select_label select_key script_label script_key tone unique_id name text : string)
    (info : VoiceConfig) :
  (name, info) ∈ VOICE_OPTIONS ->
  widget r select_key = SStr (voice_option_label name info) ->
  widget r script_key = SStr text ->
  voice_session r select_label select_key script_label script_key tone unique_id σ
  = (add_rendered (ESpeech unique_id (safe_text text tone) (rate info) (pitch info))
       (add_rendered (EInput script_key) (add_rendered (EInput select_key) σ)),
     Ok tt).
Proof.
  intros Hin Hsel Htext. unfold voice_session, st_input, render, ret. unfold bind.
  cbn [default from_option id]. rewrite Hsel, Htext. cbv beta iota.
  now rewrite (voice_label_lookup name info Hin).
Qed.

(** X14. With one of the offered labels in the select box and a text in the text
    area, the part of a voice session up to the speech element raises
    nothing and puts on the page the speech element of the chosen voice:
    its rate and pitch, and the text transformed for the tone of the
    session and escaped. *)
Theorem voice_session_speaks_with_the_chosen_voice (r : Run) (σ : State)
    (select_label select_key script_label script_key tone unique_id name text : string)
    (info : VoiceConfig) :
  (name, info) ∈ VOICE_OPTIONS ->
  widget r select_key = SStr (voice_option_label name info) ->
  widget r script_key = SStr text ->
  voice_session r select_label select_key script_label script_key tone unique_id σ
  = (add_rendered (ESpeech unique_id (safe_text text tone) (rate info) (pitch info))
       (add_rendered (EInput script_key) (add_rendered (EInput select_key) σ)),
     Ok tt).
Proof.
  intros Hin Hsel Htext. unfold voice_session, st_input, render, ret. unfold bind.
  cbn [default from_option id]. rewrite Hsel, Htext. cbv beta iota.
  rewrite (voice_label_lookup name info Hin). reflexivity.
Qed.

Lemma voice_session_speaks_with_the_chosen_voice_witness :
  let r := demo_run None true (NotFound "404 Client Error") None in
  let info := mkVoice "Female" "American" "Slower, more caring pace for empathy"
                      "Google US English Female" "0.8" "1.1" in
  ("Slow Empathetic", info) ∈ VOICE_OPTIONS /\
  widget r "emp_voice_select" = SStr (voice_option_label "Slow Empathetic" info) /\
  widget r "emp_script_text" = SStr "Hi, I'm glad you're here." /\
  voice_session r "Choose empathetic voice:" "emp_voice_select" "Empathetic script:"
    "emp_script_text" "empathetic" "empathetic" new_session
  = (add_rendered (ESpeech "empathetic" "Hi,  I\'m glad you\'re here... " "0.8" "1.1")
       (add_rendered (EInput "emp_script_text")
          (add_rendered (EInput "emp_voice_select") new_session)),
     Ok tt).
Proof.
  intros r info.
  assert (("Slow Empathetic", info) ∈ VOICE_OPTIONS) as Hin
    by (unfold VOICE_OPTIONS; in_list_l).
  exact (conj Hin (conj eq_refl (conj eq_refl
           (voice_session_speaks_with_the_chosen_voice r new_session
              "Choose empathetic voice:" "emp_voice_select" "Empathetic script:"
              "emp_script_text" "empathetic" "empathetic" "Slow Empathetic"
              "Hi, I'm glad you're here." info Hin eq_refl eq_refl)))).
Defined.

(** The markup of the speech element names the voice by the second word
    of its [voice_name] ([voice_config['voice_name'].split()[1]], line 161):
    every voice of the table has one. *)
Lemma voice_names_have_a_second_word :
  Forall (fun '(_, info) => is_Some (split_words (voice_name info) "" !! 1)) VOICE_OPTIONS.
Proof. unfold VOICE_OPTIONS. forall_list; vm_compute; eauto. Qed.

(** ** Reruns *)

#[global] Instance anything_stableR : StableR anything.
Proof. intros e σ H. exact H. Qed.

#[global] Instance anything_stableU : StableU anything.
Proof. intros u σ H. exact H. Qed.

(** A run that no click started presses no button. *)
Lemma script_no_rerun (r : Run) (σ : State) :
  clicked r = None -> (script r σ).2 <> Raise RerunException.
Proof.
  intros Hc.
  assert (tolerated anything never_rerun) as Htol by (intros e σ' He _; exact He).
  assert (allows_answers anything) as Hans.
  { apply allows_answers_any. now intros k v _ σ' H. }
  assert (forall p n, nav_ok anything never_rerun r p n) as Hnav.
  { intros p n. split; intros H; congruence. }
  assert (keeps anything never_rerun (script r)) as Hk.
  { unfold script. apply keeps_bind; [|intros _].
    - apply keeps_prelude; try apply _.
      + intros e σ' He _.
        destruct (save_token_raises_cases r e He) as [[msg ->]|[msg ->]]; discriminate.
      + now intros k v _ σ' H _.
      + now intros σ' H.
      + intros σ' _ _. discriminate.
    - apply keeps_pages_any.
      + intros σ' _ _. discriminate.
      + apply keeps_consent_page; [apply _|]. intros H. congruence.
      + now apply keeps_demographics_page.
      + now apply keeps_baseline_page.
      + now apply keeps_session_emp_page.
      + now apply keeps_session_neu_page.
      + now apply keeps_open_page.
      + apply keeps_if_step; [intros σ' _ _; discriminate|].
        apply keeps_review_page; try apply _. exact Htol. }
  specialize (Hk σ I). destruct (script r σ) as [σ' [[]|e]]; [discriminate|].
  intros Heq. injection Heq as ->. now apply Hk.
Qed.

(** X15. An interaction is at most two runs of the script: the run Streamlit
    starts after [st.rerun()] was started by no click, so no button of it is
    pressed and it does not ask for another rerun, in whatever state it
    starts. *)
Theorem interaction_ends_after_one_rerun (r : Run) (σ : State) :
  (run_script (rerun_of r) σ).2 <> Raise RerunException /\
  (interact r σ).2 <> Raise RerunException.
Proof.
  assert (forall σ', (run_script (rerun_of r) σ').2 <> Raise RerunException) as H.
  { intros σ'. now apply (script_no_rerun (rerun_of r) (cleared σ')). }
  split; [apply H|]. unfold interact.
  destruct (run_script r σ) as [σ1 [[]|e]] eqn:Hrun; [discriminate|].
  destruct e; try discriminate. apply H.
Qed.

(** ** Sessions without exceptions *)

#[global] Instance ready_stableR (s : string) : StableR (ready s).
Proof. intros e σ H. exact H. Qed.

#[global] Instance ready_stableU (s : string) : StableU (ready s).
Proof. intros u σ H. exact H. Qed.

Lemma well_formed_group (σ : State) (g : string) :
  well_formed σ -> g ∈ ["gad"; "panas"; "emp"; "neu"] ->
  exists d, session σ !! g = Some (PDict d).
Proof.
  intros [_ Hg] Hin. unfold groups_ok, record_groups in Hg.
  repeat (apply Forall_cons in Hg as [? Hg]).
  repeat (apply elem_of_cons in Hin as [->|Hin]);
    [..|now apply elem_of_nil in Hin];
    match goal with
    | H : group_ok _ (_, ?g, _).1.2 _ |- exists d, _ !! ?g = _ =>
        unfold group_ok in H; cbn [fst snd] in H;
        destruct (session σ !! g) as [[?|d]|]; try contradiction; now exists d
    end.
Qed.

Lemma page_scalars_not_group (s k : string) :
  k ∈ page_scalars s -> k ∉ ["gad"; "panas"; "emp"; "emp_post"; "neu"; "neu_post"].
Proof.
  intros H.
  assert (forall l : list string,
            Forall (fun k => k ∉ ["gad"; "panas"; "emp"; "emp_post"; "neu"; "neu_post"]) l ->
            k ∈ l -> k ∉ ["gad"; "panas"; "emp"; "emp_post"; "neu"; "neu_post"]) as Hl.
  { intros l Hall Hin. now apply (proj1 (Forall_forall _ _) Hall). }
  destruct (String.eqb_spec s "demographics") as [->|H1];
    [revert H; apply Hl; compute_done|].
  destruct (String.eqb_spec s "baseline") as [->|H2];
    [revert H; apply Hl; compute_done|].
  destruct (String.eqb_spec s "session_emp") as [->|H3];
    [revert H; apply Hl; compute_done|].
  destruct (String.eqb_spec s "session_neu") as [->|H4];
    [revert H; apply Hl; compute_done|].
  destruct (String.eqb_spec s "open") as [->|H5];
    [revert H; apply Hl; compute_done|].
  unfold page_scalars in H.
  apply String.eqb_neq in H1, H2, H3, H4, H5. rewrite H1, H2, H3, H4, H5 in H.
  now apply elem_of_nil in H.
Qed.

Lemma page_groups_answers (s g : string) :
  g ∈ page_groups s -> g ∈ ["gad"; "panas"; "emp"; "neu"].
Proof.
  unfold page_groups. intros H.
  destruct (String.eqb s "baseline");
    [repeat (apply elem_of_cons in H as [->|H]; [in_list_l|]); now apply elem_of_nil in H|].
  destruct (String.eqb s "session_emp");
    [repeat (apply elem_of_cons in H as [->|H]; [in_list_l|]); now apply elem_of_nil in H|].
  destruct (String.eqb s "session_neu");
    [repeat (apply elem_of_cons in H as [->|H]; [in_list_l|]); now apply elem_of_nil in H|].
  now apply elem_of_nil in H.
Qed.

Lemma ready_scalars (s0 s k : string) (v : scalar) :
  k ∈ page_scalars s -> allows (ready s0) k (PScalar v).
Proof.
  intros Hk σ [H1 H2]. split.
  - apply at_step_allows; [|exact H1].
    apply (page_keys_not_control s), elem_of_app. now left.
  - apply well_formed_allows; [|exact H2]. now apply page_scalars_not_group with s.
Qed.

Lemma ready_groups (s0 s g : string) :
  g ∈ page_groups s -> allows_item (ready s0) g /\ group_guard (ready s0) only_rerun g.
Proof.
  intros Hg. split.
  - intros σ d k v [H1 H2] Hd. split.
    + apply at_step_allows; [|exact H1].
      apply (page_keys_not_control s), elem_of_app. now right.
    + now apply well_formed_allows_item.
  - intros σ [_ Hwf].
    destruct (well_formed_group σ g Hwf (page_groups_answers s g Hg)) as [d Hd].
    now rewrite Hd.
Qed.

Lemma ready_voice (s0 : string) (r : Run) (a b : string) :
  offered r a -> is_text r b -> voice_guard (ready s0) only_rerun r a b.
Proof.
  intros (name & info & Hin & Ha) [text Hb] σ _. rewrite Ha, Hb.
  now rewrite (voice_label_lookup name info Hin).
Qed.

Lemma ready_nav (s0 : string) (r : Run) (p n : string) : nav_ok (ready s0) only_rerun r p n.
Proof. split; intros _ σ _; reflexivity. Qed.

(** On a well-formed session the review page raises nothing. *)
Lemma keeps_review_page_ready (s0 : string) (r : Run) :
  keeps (ready s0) only_rerun (review_page r).
Proof.
  intros σ [Hs Hwf]. destruct (decide (clicked r = Some "Submit")) as [Hc|Hc].
  - rewrite review_page_submit by exact Hc.
    destruct (build_record_ok r (review_rendered σ) (well_formed_rendered σ Hwf))
      as (record & Hb & _).
    rewrite Hb, submit_eq. cbv zeta. now destruct (upload_raises r).
  - rewrite review_page_idle by exact Hc. now split.
Qed.

Lemma keeps_pages_ready (s0 : string) (r : Run) :
  valid_run r -> keeps (ready s0) only_rerun (pages r).
Proof.
  intros (_ & He & Het & Hn & Hnt).
  apply keeps_pages with s0; [now intros σ [H _]|..]; intros _.
  - apply keeps_consent_page; [apply _|]. now intros.
  - apply keeps_demographics_page_keys; [apply _|apply ready_scalars|apply ready_nav].
  - apply keeps_baseline_page_keys;
      [apply _|apply ready_scalars|apply ready_groups|apply ready_nav].
  - apply keeps_session_emp_page_keys;
      [apply _|apply ready_scalars|apply ready_groups|now apply ready_voice
      |apply ready_nav].
  - apply keeps_session_neu_page_keys;
      [apply _|apply ready_scalars|apply ready_groups|now apply ready_voice
      |apply ready_nav].
  - apply keeps_open_page_keys; [apply _|apply ready_scalars|apply ready_nav].
  - apply keeps_review_page_ready.
Qed.

(** One run of a valid run at a step of the flow ends normally or with the
    request for a rerun. *)
Lemma script_quiet (r : Run) (σ : State) (s : string) :
  valid_run r -> s ∈ steps -> step_is s σ -> empty_or_well_formed σ ->
  match (script r σ).2 with
  | Ok _ => True
  | Raise e => e = RerunException
  end.
Proof.
  intros Hv Hs Hstep Hwf.
  assert (hoare (fun σ => step_is s σ /\ empty_or_well_formed σ) (script r)
            anything only_rerun) as Hh.
  { apply hoare_script_init with (Q := fun σ => step_is s σ /\ well_formed σ).
    - apply hoare_keeps, keeps_basic_validations. apply _.
    - apply hoare_keeps, keeps_save_token. intros msg σ0 Hm. destruct Hv. congruence.
    - intros σ0 [H1 H2].
      pose proof (keeps_init_state (step_is s) (fun _ => step_is s) r
                    (fun k v Hd => step_is_allows_new r s k v Hd) σ0 H1) as Hi1.
      pose proof (init_state_well_formed r σ0 H2) as Hi2.
      rewrite init_state_eq in *. now split.
    - apply keeps_bind; [|intros _; apply keeps_bind; [|intros _]].
      + apply keeps_scroll_to_top; [apply _|]. intros σ0 [H1 H2]. split.
        * now apply step_is_allows.
        * apply well_formed_allows; [compute_done|exact H2].
      + apply keeps_show_progress; [apply _|]. intros σ0 [H1 _] Hi. exfalso.
        apply (step_index s Hs). now rewrite <- H1.
      + apply keeps_set_if_absent. intros σ0 [H1 H2] Hnone. split.
        * apply (step_is_allows_new r); [unfold defaults; in_list_l|exact H1|exact Hnone].
        * now apply (well_formed_allows_new r).
    - apply hoare_conseq with (P := ready s) (Q := ready s) (E := only_rerun);
        [|now intros|auto|now apply hoare_keeps, keeps_pages_ready].
      intros σ0 [[H1 H2] H3]. split; [now apply step_is_at_step|exact H2]. }
  specialize (Hh σ (conj Hstep Hwf)). now destruct (script r σ) as [σ' [[]|e]].
Qed.

Lemma interact_empty_or_well_formed (r : Run) (σ : State) :
  empty_or_well_formed σ -> empty_or_well_formed (interact r σ).1.
Proof.
  intros H. unfold interact.
  pose proof (keeps_script_empty_or_well_formed r (cleared σ) H) as H1.
  change (script r (cleared σ)) with (run_script r σ) in H1.
  destruct (run_script r σ) as [σ1 [[]|e]]; [exact H1|].
  destruct e; try exact H1.
  pose proof (keeps_script_empty_or_well_formed (rerun_of r) (cleared σ1) H1) as H2.
  change (script (rerun_of r) (cleared σ1)) with (run_script (rerun_of r) σ1) in H2.
  destruct (run_script (rerun_of r) σ1) as [σ2 [[]|e2]]; exact H2.
Qed.

Lemma valid_rerun (r : Run) : valid_run r -> valid_run (rerun_of r).
Proof. intros H. exact H. Qed.

Lemma interact_quiet (r : Run) (σ : State) (a : string) :
  valid_run r -> a ∈ steps -> step_is a σ -> empty_or_well_formed σ ->
  (interact r σ).2 = Ok tt.
Proof.
  intros Hv Ha Hs Hwf.
  pose proof (script_quiet r (cleared σ) a Hv Ha Hs Hwf) as H1.
  pose proof (keeps_script_empty_or_well_formed r (cleared σ) Hwf) as Hw1.
  pose proof (interact_nav r a σ Hs) as Hnav.
  change (script r (cleared σ)) with (run_script r σ) in H1, Hw1.
  destruct (run_script r σ) as [σ1 [[]|e]] eqn:Hrun.
  - destruct Hnav as [-> _]. reflexivity.
  - cbn in H1. subst e. destruct Hnav as [Ht Hre].
    apply transition_edge in Ht as (b & Hb & Hedge).
    assert (b ∈ steps) as Hbs.
    { destruct Hedge as [[_ He]|[_ He]]; now apply forward_edges_steps in He. }
    destruct (Hre b Hb) as [_ Hnr].
    unfold interact in *. rewrite Hrun in *.
    pose proof (script_quiet (rerun_of r) (cleared σ1) b (valid_rerun r Hv) Hbs
                  (at_step_step_is _ _ Hb) Hw1) as H2.
    change (script (rerun_of r) (cleared σ1)) with (run_script (rerun_of r) σ1) in H2.
    destruct (run_script (rerun_of r) σ1) as [σ2 [[]|e2]]; [reflexivity|].
    cbn in H2. subst e2. now destruct Hnr.
Qed.

Lemma session_outcomes_ok (rs : list Run) (σ : State) :
  Forall valid_run rs -> in_steps σ -> empty_or_well_formed σ ->
  Forall (fun o => o = Ok tt) (session_outcomes rs σ).
Proof.
  revert σ. induction rs as [|r rs IH]; intros σ Hv (a & Ha & Hs) Hwf; simpl;
    [constructor|].
  apply Forall_cons in Hv as [Hr Hv]. constructor.
  - now apply interact_quiet with a.
  - apply IH; [exact Hv| |now apply interact_empty_or_well_formed].
    apply nav_step_in_steps. now apply nav_step with a.
Qed.

(** X16. In a session whose runs are valid (the token call returns and each
    voice select box holds one of its labels, each script area a text) no
    interaction ends with an exception: every read of [st.session_state]
    finds its key, every voice label names a voice of the table (whose name
    has the second word the markup asks for,
    [voice_names_have_a_second_word]), the step is always one [steps.index]
    finds, and a failed upload is caught. *)
Theorem valid_sessions_raise_nothing (rs : list Run) :
  Forall valid_run rs ->
  Forall (fun o => o = Ok tt) (session_outcomes rs new_session).
Proof.
  intros Hv. apply session_outcomes_ok;
    [exact Hv|apply new_session_in_steps|now left].
Qed.

Lemma demo_run_valid (click : option string) (agree : bool) (f : RemoteFile)
    (up : option string) :
  valid_run (demo_run click agree f up).
Proof.
  split; [reflexivity|]. split; [|split; [|split]].
  - exists "Slow Empathetic", (mkVoice "Female" "American"
      "Slower, more caring pace for empathy" "Google US English Female" "0.8" "1.1").
    split; [unfold VOICE_OPTIONS; in_list_l|reflexivity].
  - now eexists.
  - exists "Neutral Robotic", (mkVoice "Male" "Neutral"
      "Faster, monotone for neutral tone" "Google US English Male" "1.2" "0.8").
    split; [unfold VOICE_OPTIONS; in_list_l|reflexivity].
  - now eexists.
Qed.

Lemma valid_sessions_raise_nothing_witness :
  Forall valid_run demo_walk /\
  Forall (fun o => o = Ok tt) (session_outcomes demo_walk new_session).
Proof.
  assert (Forall valid_run demo_walk) as Hv
    by (unfold demo_walk; cbn [map]; forall_list; apply demo_run_valid).
  exact (conj Hv (valid_sessions_raise_nothing demo_walk Hv)).
Defined.

(** ** What the pages store *)

#[global] Instance reads_stableR (k : string) (o : option pyval) : StableR (reads k o).
Proof. intros e σ H. exact H. Qed.

Lemma reads_allows (k k' : string) (o : option pyval) (v : pyval) :
  k <> k' -> allows (reads k o) k' v.
Proof. intros Hne σ H. unfold reads in *. simpl. now rewrite lookup_insert_ne. Qed.

(** Navigation assigns only the step and its flag. *)
Lemma navigation_buttons_session (r : Run) (p n pl nl k : string) (σ : State) :
  k <> "step" -> k <> "step_changed" ->
  session (navigation_buttons r (Some p) (Some n) pl nl σ).1 !! k = session σ !! k.
Proof.
  intros H1 H2.
  assert (nav_ok (reads k (session σ !! k)) (fun _ => reads k (session σ !! k)) r p n)
    as Hnav.
  { split; intros _ σ' H'; unfold moved;
      (apply reads_allows; [exact H2|]; apply reads_allows; [exact H1|exact H']). }
  pose proof (keeps_navigation_buttons (reads k (session σ !! k))
                (fun _ => reads k (session σ !! k)) r p n pl nl Hnav σ eq_refl) as H.
  now destruct (navigation_buttons r (Some p) (Some n) pl nl σ) as [σ' [[]|e]].
Qed.

Lemma ss_setitem_in_eq (g k : string) (v : scalar) (σ : State) (d : gmap string scalar) :
  session σ !! g = Some (PDict d) ->
  ss_setitem_in g k v σ = (set_session (insert g (PDict (<[k := v]> d))) σ, Ok tt).
Proof. intros H. unfold ss_setitem_in, bind, ss_getitem. now rewrite H. Qed.

(** Run the straight-line part of a page. *)
Ltac page_run :=
  cbv beta iota zeta delta [bind st_header st_input render ret ss_setitem when default
    from_option id for_ enumerate combine seq length
    gad_items panas_items empathetic_questions neutral_questions open_questions].

(** A lookup in a session built by assignments. *)
Ltac session_get :=
  cbn [session set_session add_rendered];
  repeat (rewrite lookup_insert_ne by discriminate);
  first [apply lookup_insert_eq | eassumption | reflexivity].

Ltac items_run :=
  repeat (erewrite ss_setitem_in_eq by session_get; cbv beta iota zeta).

(** Write the item keys as literals. *)
Ltac q_keys :=
  repeat match goal with
         | |- context [q_key ?n] =>
             let t := eval vm_compute in (q_key n) in change (q_key n) with t
         end.

(** X17. The demographics page stores the value of each of its widgets under
    its key, whether or not the run ends with a navigation. The text of
    "Please specify:" is stored only while "Non-binary/Other (specify)" is
    selected: with any other choice ["gender_other"] keeps what it held
    before, also a text entered for an earlier choice. *)
Theorem demographics_page_stores_the_answers (r : Run) (σ : State) :
  let σ' := (demographics_page r σ).1 in
  holds "age" (widget r "Q1. Enter your age (years)") σ' /\
  holds "gender" (widget r "Q2. Your gender") σ' /\
  holds "education" (widget r "Q3. Select your highest education level") σ' /\
  holds "voice_exp" (widget r "Q4. Do you have any voice technology experience?") σ' /\
  holds "used_assistants"
    (widget r "Q5. Have you used voice assistants (e.g. Siri, Alexa)  before?") σ' /\
  holds "tech_comfort"
    (widget r "Q6.How comfortable are you with using technology (e.g., smartphones, computers, voice assistants)? ") σ' /\
  reads "gender_other"
    (if bool_decide (widget r "Q2. Your gender" = SStr "Non-binary/Other (specify)")
     then Some (PScalar (widget r "Please specify:"))
     else session σ !! "gender_other") σ'.
Proof.
  cbv zeta. unfold demographics_page. page_run.
  case_bool_decide as Hg; cbv beta iota zeta;
    unfold holds, reads; rewrite !navigation_buttons_session by discriminate;
    repeat split; session_get.
Qed.

(** A lookup inside a larger expression. *)
Ltac session_rw :=
  cbn [session set_session add_rendered];
  repeat first [rewrite lookup_insert_eq | rewrite lookup_insert_ne by discriminate].

(** An item other than those the page assigns. *)
Ltac other_item Hk :=
  repeat (rewrite lookup_insert_ne
            by (let Heq := fresh in intros Heq; apply Hk; rewrite <- Heq; in_list_l));
  reflexivity.

Lemma navigation_buttons_shows (r : Run) (p n pl nl : string) (e : Element) (σ : State) :
  shows e σ -> shows e (navigation_buttons r (Some p) (Some n) pl nl σ).1.
Proof.
  intros He.
  assert (nav_ok (shows e) (fun _ => shows e) r p n) as Hnav
    by (split; intros _ σ' H'; exact H').
  pose proof (keeps_navigation_buttons (shows e) (fun _ => shows e) r p n pl nl Hnav σ He)
    as H.
  now destruct (navigation_buttons r (Some p) (Some n) pl nl σ) as [σ' [[]|e']].
Qed.

(** X18. The baseline page stores the GAD-7 answers under [q1] ... [q7] of
    ["gad"] and the PANAS answers under [q1] ... [q10] of ["panas"], in the
    order of the questions, with the two single answers under their keys;
    it assigns no other item of the two groups. These are the items
    [init_state] creates and the record exports. *)
Theorem baseline_page_stores_every_item (r : Run) (σ : State) (d1 d2 : gmap string scalar) :
  session σ !! "gad" = Some (PDict d1) -> session σ !! "panas" = Some (PDict d2) ->
  let σ' := (baseline_page r σ).1 in
  Forall (fun '(i, label) => item σ' "gad" (q_key i) = Some (widget r label))
         (enumerate gad_items 1) /\
  Forall (fun '(i, label) =>
            item σ' "panas" (q_key i)
            = Some (widget r ("Q9." +:+ str_of_nat i +:+ " " +:+ label)))
         (enumerate panas_items 1) /\
  holds "gad_impact"
    (widget r " Q8. If you checked any problems above, how difficult have these made it for you to do your work, take care of things at home, or get along with other people??") σ' /\
  holds "single_mood"
    (widget r "Q10.Overall, right now I feel… (1=very negative, 5=very positive):") σ' /\
  other_items σ' "gad" ["q1"; "q2"; "q3"; "q4"; "q5"; "q6"; "q7"] d1 /\
  other_items σ' "panas" ["q1"; "q2"; "q3"; "q4"; "q5"; "q6"; "q7"; "q8"; "q9"; "q10"] d2.
Proof.
  intros H1 H2. cbv zeta. unfold baseline_page. page_run. q_keys. items_run.
  unfold item, holds, other_items. rewrite !navigation_buttons_session by discriminate.
  split; [|split; [|split; [|split; [|split]]]].
  - forall_list; q_keys; now session_rw.
  - forall_list; q_keys; now session_rw.
  - session_get.
  - session_get.
  - intros k Hk. unfold item. rewrite navigation_buttons_session by discriminate.
    session_rw. other_item Hk.
  - intros k Hk. unfold item. rewrite navigation_buttons_session by discriminate.
    session_rw. other_item Hk.
Qed.

Lemma baseline_page_stores_every_item_witness :
  let r := demo_run None true (NotFound "404 Client Error") None in
  let σ' := (baseline_page r demo_consent).1 in
  session demo_consent !! "gad" = Some (PDict (none_group 1 8)) /\
  session demo_consent !! "panas" = Some (PDict (none_group 1 11)) /\
  Forall (fun '(i, label) => item σ' "gad" (q_key i) = Some (widget r label))
         (enumerate gad_items 1) /\
  Forall (fun '(i, label) =>
            item σ' "panas" (q_key i)
            = Some (widget r ("Q9." +:+ str_of_nat i +:+ " " +:+ label)))
         (enumerate panas_items 1).
Proof.
  intros r σ'.
  assert (session demo_consent !! "gad" = Some (PDict (none_group 1 8))) as H1
    by (vm_compute; reflexivity).
  assert (session demo_consent !! "panas" = Some (PDict (none_group 1 11))) as H2
    by (vm_compute; reflexivity).
  pose proof (baseline_page_stores_every_item r demo_consent _ _ H1 H2) as (Ha & Hb & _).
  exact (conj H1 (conj H2 (conj Ha Hb))).
Defined.

(** X19. The page of the empathetic session stores the answer to the statement
    with widget key [Q11] ... [Q18] under [q1] ... [q8] of ["emp"] (the
    loop counts from 11 and stores under [i - 10]), and the anxiety rating
    under ["emp_state_anxiety"]; it assigns no other item of the group, and
    the speech element of the chosen voice is on the page. *)
Theorem session_emp_page_stores_every_item (r : Run) (σ : State) (d : gmap string scalar)
    (name text : string) (info : VoiceConfig) :
  session σ !! "emp" = Some (PDict d) ->
  (name, info) ∈ VOICE_OPTIONS ->
  widget r "emp_voice_select" = SStr (voice_option_label name info) ->
  widget r "emp_script_text" = SStr text ->
  let σ' := (session_emp_page r σ).1 in
  Forall (fun '(k, key) => item σ' "emp" k = Some (widget r key))
         [ ("q1", "Q11"); ("q2", "Q12"); ("q3", "Q13"); ("q4", "Q14");
           ("q5", "Q15"); ("q6", "Q16"); ("q7", "Q17"); ("q8", "Q18") ] /\
  holds "emp_state_anxiety" (widget r "emp_anxiety") σ' /\
  other_items σ' "emp" ["q1"; "q2"; "q3"; "q4"; "q5"; "q6"; "q7"; "q8"] d /\
  shows (ESpeech "empathetic" (safe_text text "empathetic") (rate info) (pitch info)) σ'.
Proof.
  intros Hd Hin Hsel Htext. cbv zeta. unfold session_emp_page. page_run.
  rewrite (voice_session_eq r _ _ _ _ _ _ _ name text info Hin Hsel Htext).
  cbv beta iota zeta. q_keys. items_run.
  split; [|split; [|split]].
  - unfold item. rewrite !navigation_buttons_session by discriminate.
    forall_list; now session_rw.
  - unfold holds. rewrite navigation_buttons_session by discriminate. session_get.
  - intros k Hk. unfold item. rewrite navigation_buttons_session by discriminate.
    session_rw. other_item Hk.
  - apply navigation_buttons_shows. unfold shows.
    cbn [rendered set_session add_rendered]. rewrite <- !app_assoc.
    apply elem_of_app. right. apply elem_of_app. right.
    apply elem_of_app. right. apply elem_of_app. right. apply elem_of_cons. now left.
Qed.

Lemma session_emp_page_stores_every_item_witness :
  let r := demo_run None true (NotFound "404 Client Error") None in
  let info := mkVoice "Female" "American" "Slower, more caring pace for empathy"
                      "Google US English Female" "0.8" "1.1" in
  let σ' := (session_emp_page r demo_consent).1 in
  session demo_consent !! "emp" = Some (PDict (none_group 1 9)) /\
  ("Slow Empathetic", info) ∈ VOICE_OPTIONS /\
  widget r "emp_voice_select" = SStr (voice_option_label "Slow Empathetic" info) /\
  widget r "emp_script_text" = SStr "Hi, I'm glad you're here." /\
  Forall (fun '(k, key) => item σ' "emp" k = Some (widget r key))
         [ ("q1", "Q11"); ("q2", "Q12"); ("q3", "Q13"); ("q4", "Q14");
           ("q5", "Q15"); ("q6", "Q16"); ("q7", "Q17"); ("q8", "Q18") ].
Proof.
  intros r info σ'.
  assert (session demo_consent !! "emp" = Some (PDict (none_group 1 9))) as Hd
    by (vm_compute; reflexivity).
  assert (("Slow Empathetic", info) ∈ VOICE_OPTIONS) as Hin
    by (unfold VOICE_OPTIONS; in_list_l).
  pose proof (session_emp_page_stores_every_item r demo_consent _ "Slow Empathetic"
                "Hi, I'm glad you're here." info Hd Hin eq_refl eq_refl) as (Ha & _).
  exact (conj Hd (conj Hin (conj eq_refl (conj eq_refl Ha)))).
Defined.

(** X20. The page of the neutral session stores the answer to the statement
    with widget key [Q20] ... [Q27] under [q1] ... [q8] of ["neu"] (the loop
    counts from 20 and stores under [i - 19]), and the anxiety rating under
    ["neu_state_anxiety"]; it assigns no other item of the group, and the
    speech element of the chosen voice is on the page. *)
Theorem session_neu_page_stores_every_item (r : Run) (σ : State) (d : gmap string scalar)
    (name text : string) (info : VoiceConfig) :
  session σ !! "neu" = Some (PDict d) ->
  (name, info) ∈ VOICE_OPTIONS ->
  widget r "neu_voice_select" = SStr (voice_option_label name info) ->
  widget r "neu_script_text" = SStr text ->
  let σ' := (session_neu_page r σ).1 in
  Forall (fun '(k, key) => item σ' "neu" k = Some (widget r key))
         [ ("q1", "Q20"); ("q2", "Q21"); ("q3", "Q22"); ("q4", "Q23");
           ("q5", "Q24"); ("q6", "Q25"); ("q7", "Q26"); ("q8", "Q27") ] /\
  holds "neu_state_anxiety" (widget r "neu_anxiety") σ' /\
  other_items σ' "neu" ["q1"; "q2"; "q3"; "q4"; "q5"; "q6"; "q7"; "q8"] d /\
  shows (ESpeech "neutral" (safe_text text "neutral") (rate info) (pitch info)) σ'.
Proof.
  intros Hd Hin Hsel Htext. cbv zeta. unfold session_neu_page. page_run.
  rewrite (voice_session_eq r _ _ _ _ _ _ _ name text info Hin Hsel Htext).
  cbv beta iota zeta. q_keys. items_run.
  split; [|split; [|split]].
  - unfold item. rewrite !navigation_buttons_session by discriminate.
    forall_list; now session_rw.
  - unfold holds. rewrite navigation_buttons_session by discriminate. session_get.
  - intros k Hk. unfold item. rewrite navigation_buttons_session by discriminate.
    session_rw. other_item Hk.
  - apply navigation_buttons_shows. unfold shows.
    cbn [rendered set_session add_rendered]. rewrite <- !app_assoc.
    apply elem_of_app. right. apply elem_of_app. right.
    apply elem_of_app. right. apply elem_of_app. right. apply elem_of_cons. now left.
Qed.

Lemma session_neu_page_stores_every_item_witness :
  let r := demo_run None true (NotFound "404 Client Error") None in
  let info := mkVoice "Male" "Neutral" "Faster, monotone for neutral tone"
                      "Google US English Male" "1.2" "0.8" in
  let σ' := (session_neu_page r demo_consent).1 in
  session demo_consent !! "neu" = Some (PDict (none_group 1 9)) /\
  ("Neutral Robotic", info) ∈ VOICE_OPTIONS /\
  widget r "neu_voice_select" = SStr (voice_option_label "Neutral Robotic" info) /\
  widget r "neu_script_text" = SStr "Hello, thank you for participating." /\
  Forall (fun '(k, key) => item σ' "neu" k = Some (widget r key))
         [ ("q1", "Q20"); ("q2", "Q21"); ("q3", "Q22"); ("q4", "Q23");
           ("q5", "Q24"); ("q6", "Q25"); ("q7", "Q26"); ("q8", "Q27") ].
Proof.
  intros r info σ'.
  assert (session demo_consent !! "neu" = Some (PDict (none_group 1 9))) as Hd
    by (vm_compute; reflexivity).
  assert (("Neutral Robotic", info) ∈ VOICE_OPTIONS) as Hin
    by (unfold VOICE_OPTIONS; in_list_l).
  pose proof (session_neu_page_stores_every_item r demo_consent _ "Neutral Robotic"
                "Hello, thank you for participating." info Hd Hin eq_refl eq_refl)
    as (Ha & _).
  exact (conj Hd (conj Hin (conj eq_refl (conj eq_refl Ha)))).
Defined.

(** X21. The page of the open questions stores the text of each of its ten text
    areas under the key of the question. *)
Theorem open_page_stores_the_answers (r : Run) (σ : State) :
  Forall (fun '(k, label) => holds k (widget r label) (open_page r σ).1) open_questions.
Proof.
  unfold open_page. page_run. unfold holds.
  forall_list; rewrite navigation_buttons_session by discriminate; session_get.
Qed.

(** ** The record assembly *)

(** What the record assembly reads is what a well-formed session holds. *)
Lemma build_record_needs (r : Run) (σ : State) :
  yields (build_record r) σ (fun _ => well_formed σ).
Proof.
  unfold build_record, open_keys.
  repeat (yields_step; same_group).
  unfold well_formed, read_keys, copied_keys, open_keys, groups_ok, record_groups.
  split.
  - cbn [app]. forall_list; eauto.
  - forall_list; unfold group_ok; cbn [fst snd];
      match goal with
      | H : session σ !! ?g = Some (PDict _) |- match session σ !! ?g with _ => _ end =>
          rewrite H
      end;
      cbn [range seq Nat.sub]; forall_list; eauto.
Qed.

Lemma keeps_ss_getitem_in_lookup (g k : string) :
  keeps anything raises_lookup_error (ss_getitem_in g k).
Proof.
  intros σ _. unfold ss_getitem_in, bind, ss_getitem.
  destruct (session σ !! g) as [[x|d]|]; simpl; try exact I.
  now destruct (d !! k).
Qed.

Lemma keeps_build_record_lookup (r : Run) :
  keeps anything raises_lookup_error (build_record r).
Proof.
  unfold build_record, record_group.
  repeat lazymatch goal with
         | |- keeps _ _ (ss_getitem_in _ _) => apply keeps_ss_getitem_in_lookup
         | |- keeps _ _ (for_acc _ _ _) => apply keeps_for_acc; intros ? ? ?
         | |- keeps _ _ (ss_getitem _) => apply keeps_ss_getitem; intros ? ? ?; exact I
         | _ => keeps_step
         end.
Qed.

Lemma record_columns_NoDup : NoDup record_columns.
Proof. apply (bool_decide_unpack _). vm_compute. exact I. Qed.

(** X22. The record assembly only reads: it leaves the state as it is. It
    returns a record exactly when the session is well-formed (every key it
    reads with [st.session_state[k]] is present and every group is a
    dictionary with its items; ["gender_other"] alone may be missing); the
    record then has the 71 columns of [record_columns], each once. Otherwise
    it raises [KeyError] or [TypeError], outside the [try] of the
    submission. *)
Theorem build_record_returns_iff_well_formed (r : Run) (σ : State) :
  (build_record r σ).1 = σ /\
  (well_formed σ <-> exists record, (build_record r σ).2 = Ok record) /\
  (forall record, (build_record r σ).2 = Ok record ->
     map fst record = record_columns /\ length record = 71 /\ NoDup (map fst record)) /\
  (forall e, (build_record r σ).2 = Raise e -> lookup_error e).
Proof.
  split; [apply build_record_readonly|]. split; [split|split].
  - intros Hwf. destruct (build_record_ok r σ Hwf) as (record & Hb & _).
    exists record. now rewrite Hb.
  - intros [record Hb]. pose proof (build_record_needs r σ) as H. unfold yields in H.
    destruct (build_record r σ) as [σ' [record'|e]]; [apply H|discriminate].
  - intros record Hb. pose proof (build_record_flattens r σ) as H. unfold yields in H.
    destruct (build_record r σ) as [σ' [record'|e]]; [|discriminate].
    injection Hb as ->. destruct H as (_ & Hcols & _).
    split; [exact Hcols|]. split.
    + rewrite <- (length_map fst), Hcols. reflexivity.
    + rewrite Hcols. apply record_columns_NoDup.
  - intros e Hb. pose proof (keeps_build_record_lookup r σ I) as H.
    destruct (build_record r σ) as [σ' [record'|e']]; [discriminate|].
    injection Hb as ->. exact H.
Qed.

(** ** Submitting twice *)

(** X23. Submission has no memory: when Submit is pressed a second time after a
    successful upload, and the hub returns the table just written, the
    record of the same participant is appended once more; the table then
    ends with two rows carrying the same [participant_id]. *)
Theorem second_submit_appends_a_second_row (r1 r2 : Run) (σ : State) :
  at_step "review" σ -> well_formed σ ->
  clicked r1 = Some "Submit" -> clicked r2 = Some "Submit" ->
  upload_raises r1 = None -> upload_raises r2 = None ->
  reads_back r2 (review_block r1 σ).1 ->
  exists rec1 rec2 u1 u2,
    uploads (review_block r2 (review_block r1 σ).1).1 = uploads σ ++ [u1; u2] /\
    pd.rows (up_table u1) = pd.rows (fetched_table (remote r1)) ++ [rec1] /\
    pd.rows (up_table u2) = pd.rows (fetched_table (remote r1)) ++ [rec1; rec2] /\
    dict_get rec1 "participant_id" = session σ !! "participant_id" /\
    dict_get rec2 "participant_id" = session σ !! "participant_id".
Proof.
  intros Hs Hwf Hc1 Hc2 Hu1 Hu2 Hback.
  destruct (submission_holds r1 σ Hs Hc1 Hwf) as (rec1 & Hf1 & _ & _ & Hsess & Hout1).
  rewrite Hu1 in Hout1. destruct Hout1 as [Hup1 _].
  set (σ1 := (review_block r1 σ).1) in *.
  assert (at_step "review" σ1) as Hs1 by (unfold at_step; now rewrite Hsess).
  assert (well_formed σ1) as Hwf1 by (unfold well_formed; now rewrite Hsess).
  destruct (submission_holds r2 σ1 Hs1 Hc2 Hwf1) as (rec2 & Hf2 & _ & _ & _ & Hout2).
  rewrite Hu2 in Hout2. destruct Hout2 as [Hup2 _].
  unfold reads_back in Hback. rewrite Hup1, last_snoc in Hback.
  injection Hback as Hremote. rewrite Hremote in Hup2. cbn [fetched_table up_table] in Hup2.
  eexists rec1, rec2, _, _. split; [|split; [|split; [|split]]].
  - rewrite Hup2, Hup1, <- app_assoc. reflexivity.
  - reflexivity.
  - cbn [up_table pd.concat2 pd.rows pd.of_records]. now rewrite <- app_assoc.
  - apply Hf1.
  - rewrite <- Hsess. apply Hf2.
Qed.

Lemma second_submit_appends_a_second_row_witness :
  let r1 := demo_run (Some "Submit") true (Table demo_table) None in
  let σ1 := (review_block r1 demo_review).1 in
  let r2 := demo_run (Some "Submit") true
              (default (remote r1) ((fun u => Table (up_table u)) <$> last (uploads σ1)))
              None in
  at_step "review" demo_review /\ well_formed demo_review /\ reads_back r2 σ1 /\
  exists rec1 rec2 u1 u2,
    uploads (review_block r2 σ1).1 = uploads demo_review ++ [u1; u2] /\
    pd.rows (up_table u1) = pd.rows (fetched_table (remote r1)) ++ [rec1] /\
    pd.rows (up_table u2) = pd.rows (fetched_table (remote r1)) ++ [rec1; rec2] /\
    dict_get rec1 "participant_id" = session demo_review !! "participant_id" /\
    dict_get rec2 "participant_id" = session demo_review !! "participant_id".
Proof.
  intros r1 σ1 r2.
  assert (at_step "review" demo_review) as Hs by (vm_compute; reflexivity).
  assert (well_formed demo_review) as Hwf
    by (apply (bool_decide_unpack _); vm_compute; exact I).
  assert (reads_back r2 σ1) as Hback by (vm_compute; reflexivity).
  exact (conj Hs (conj Hwf (conj Hback
           (second_submit_appends_a_second_row r1 r2 demo_review Hs Hwf
              eq_refl eq_refl eq_refl eq_refl Hback)))).
Defined.

(** ** Clicks that move the step (C5) *)

(** The script of a valid run, started at a step of the flow on an empty or
    well-formed session, gets to the pages with the step unchanged and the
    session well formed. *)
Lemma hoare_script_ready (r : Run) (s : string) (R : State -> Prop)
    (E : exn -> State -> Prop) :
  valid_run r -> s ∈ steps ->
  hoare (ready s) (pages r) R E ->
  hoare (fun σ => step_is s σ /\ empty_or_well_formed σ) (script r) R E.
Proof.
  intros Hv Hs Hpages.
  apply hoare_script_init with (Q := fun σ => step_is s σ /\ well_formed σ).
  - apply hoare_keeps, keeps_basic_validations. apply _.
  - apply hoare_keeps, keeps_save_token. intros e σ0 Hm. destruct Hv. congruence.
  - intros σ0 [H1 H2].
    pose proof (keeps_init_state (step_is s) (fun _ => step_is s) r
                  (fun k v Hd => step_is_allows_new r s k v Hd) σ0 H1) as Hi1.
    pose proof (init_state_well_formed r σ0 H2) as Hi2.
    rewrite init_state_eq in *. now split.
  - apply keeps_bind; [|intros _; apply keeps_bind; [|intros _]].
    + apply keeps_scroll_to_top; [apply _|]. intros σ0 [H1 H2]. split.
      * now apply step_is_allows.
      * apply well_formed_allows; [compute_done|exact H2].
    + apply keeps_show_progress; [apply _|]. intros σ0 [H1 _] Hi. exfalso.
      apply (step_index s Hs). now rewrite <- H1.
    + apply keeps_set_if_absent. intros σ0 [H1 H2] Hnone. split.
      * apply (step_is_allows_new r); [unfold defaults; in_list_l|exact H1|exact Hnone].
      * now apply (well_formed_allows_new r).
  - apply hoare_conseq with (P := ready s) (Q := R) (E := E); [|auto|auto|exact Hpages].
    intros σ0 [[H1 H2] H3]. split; [now apply step_is_at_step|exact H2].
Qed.

Lemma next_not_back (p n : string) : Some ("next_" +:+ n) <> Some ("back_" +:+ p).
Proof. intros Heq. injection Heq as Heq. cbv in Heq. discriminate. Qed.

(** [navigation_buttons] acts on the click on its Continue button ... *)
Lemma navigation_buttons_next (r : Run) (p n pl nl : string) (σ : State) :
  truthy_opt (Some p) = true -> truthy_opt (Some n) = true ->
  clicked r = Some ("next_" +:+ n) ->
  navigation_buttons r (Some p) (Some n) pl nl σ
  = (moved n (add_rendered (EButton nl ("next_" +:+ n))
                (add_rendered (EButton pl ("back_" +:+ p)) σ)),
     Raise RerunException).
Proof.
  intros Hp Hn Hc. unfold navigation_buttons. rewrite Hp, Hn.
  unfold bind, st_button, render, ret, when, ss_setitem, st_rerun, raise, moved.
  cbn [default from_option id fst snd]. rewrite Hc.
  rewrite bool_decide_eq_false_2 by apply next_not_back.
  now rewrite bool_decide_eq_true_2.
Qed.

(** ... and on the click on its Back button, before it gets to the other
    one. *)
Lemma navigation_buttons_back (r : Run) (p n pl nl : string) (σ : State) :
  truthy_opt (Some p) = true ->
  clicked r = Some ("back_" +:+ p) ->
  navigation_buttons r (Some p) (Some n) pl nl σ
  = (moved p (add_rendered (EButton pl ("back_" +:+ p)) σ), Raise RerunException).
Proof.
  intros Hp Hc. unfold navigation_buttons. rewrite Hp.
  unfold bind, st_button, render, ret, when, ss_setitem, st_rerun, raise, moved.
  cbn [default from_option id fst snd]. rewrite Hc.
  now rewrite bool_decide_eq_true_2.
Qed.

(** The consent page acts on Continue when the box is checked. *)
Lemma consent_page_continue (r : Run) (σ : State) :
  clicked r = Some continue_label -> checkbox r "I agree to participate." = true ->
  consent_page r σ
  = (consent_moved
       (add_rendered (EButton continue_label continue_label)
          (add_rendered (ECheckbox "I agree to participate.")
             (add_rendered (EHeader "Informed Consent") σ))),
     Raise RerunException).
Proof.
  intros Hc Hb. unfold consent_page.
  unfold bind, st_header, st_checkbox, st_button, render, ret, when, ss_setitem,
    st_rerun, raise, consent_moved.
  cbn [default from_option id fst snd]. rewrite Hc, Hb.
  now rewrite bool_decide_eq_true_2.
Qed.

(** Each page with [navigation_buttons] gets to it: on a well-formed session
    and with the widgets of a valid run nothing before it raises. *)
Lemma demographics_page_ends (r : Run) (σ : State) :
  exists σ1, demographics_page r σ
             = navigation_buttons r (Some "consent") (Some "baseline")
                 back_label continue_label σ1.
Proof.
  unfold demographics_page. page_run.
  case_bool_decide; cbv beta iota zeta; eexists; reflexivity.
Qed.

Lemma baseline_page_ends (r : Run) (σ : State) :
  well_formed σ ->
  exists σ1, baseline_page r σ
             = navigation_buttons r (Some "demographics") (Some "session_emp")
                 back_label continue_label σ1.
Proof.
  intros Hwf.
  destruct (well_formed_group σ "gad" Hwf ltac:(in_list_l)) as [d1 H1].
  destruct (well_formed_group σ "panas" Hwf ltac:(in_list_l)) as [d2 H2].
  unfold baseline_page. page_run. q_keys. items_run. eexists. reflexivity.
Qed.

Lemma session_emp_page_ends (r : Run) (σ : State) :
  valid_run r -> well_formed σ ->
  exists σ1, session_emp_page r σ
             = navigation_buttons r (Some "baseline") (Some "session_neu")
                 back_label continue_label σ1.
Proof.
  intros (_ & (name & info & Hin & Hsel) & [text Htext] & _) Hwf.
  destruct (well_formed_group σ "emp" Hwf ltac:(in_list_l)) as [d Hd].
  unfold session_emp_page. page_run.
  rewrite (voice_session_eq r _ _ _ _ _ _ _ name text info Hin Hsel Htext).
  cbv beta iota zeta. q_keys. items_run. eexists. reflexivity.
Qed.

Lemma session_neu_page_ends (r : Run) (σ : State) :
  valid_run r -> well_formed σ ->
  exists σ1, session_neu_page r σ
             = navigation_buttons r (Some "session_emp") (Some "open")
                 back_label continue_label σ1.
Proof.
  intros (_ & _ & _ & (name & info & Hin & Hsel) & [text Htext]) Hwf.
  destruct (well_formed_group σ "neu" Hwf ltac:(in_list_l)) as [d Hd].
  unfold session_neu_page. page_run.
  rewrite (voice_session_eq r _ _ _ _ _ _ _ name text info Hin Hsel Htext).
  cbv beta iota zeta. q_keys. items_run. eexists. reflexivity.
Qed.

Lemma open_page_ends (r : Run) (σ : State) :
  exists σ1 nl, open_page r σ
                = navigation_buttons r (Some "session_neu") (Some "review") back_label nl σ1.
Proof. unfold open_page. page_run. eexists. eexists. reflexivity. Qed.

Lemma moved_at_step (t : string) (σ : State) : at_step t (moved t σ).
Proof.
  unfold at_step, moved. simpl.
  now rewrite lookup_insert_ne, lookup_insert_eq.
Qed.

(** The pages, entered at step [s] by a click on a button that leads to
    [t]: the run does not return, it asks for a rerun at [t]. *)
Lemma pages_click (r : Run) (s t : string) :
  valid_run r -> leads r s t ->
  hoare (ready s) (pages r) nowhere (reruns_at t).
Proof.
  intros Hv Hl.
  assert (forall p n pl nl σ1,
            truthy_opt (Some p) = true -> truthy_opt (Some n) = true ->
            (t = n /\ clicked r = Some ("next_" +:+ n)) \/
            (t = p /\ clicked r = Some ("back_" +:+ p)) ->
            match navigation_buttons r (Some p) (Some n) pl nl σ1 with
            | (σ', Ok _) => nowhere σ'
            | (σ', Raise e) => reruns_at t e σ'
            end) as Hnav.
  { intros p n pl nl σ1 Hp Hn [[-> Hc]|[-> Hc]].
    - rewrite navigation_buttons_next by assumption.
      split; [reflexivity|apply moved_at_step].
    - rewrite navigation_buttons_back by assumption.
      split; [reflexivity|apply moved_at_step]. }
  destruct Hl as [(-> & -> & Hc & Hb)|(p & n & Hin & Hc)].
  - apply hoare_pages with "consent";
      [now intros σ [H _]|now intros σ []|unfold steps; in_list_l|..];
      intros Heq; try discriminate Heq.
    intros σ _. rewrite consent_page_continue by assumption.
    split; [reflexivity|]. unfold at_step, consent_moved. simpl.
    now rewrite lookup_insert_eq.
  - unfold nav_links in Hin.
    repeat (apply elem_of_cons in Hin as [Hin|Hin];
      [ injection Hin as -> -> ->;
        match goal with
        | |- hoare (ready ?s0) _ _ _ =>
            apply hoare_pages with s0;
              [now intros σ [H _]|now intros σ []|unfold steps; in_list_l|..];
              intros Heq; try discriminate Heq
        end
      | ]);
      try (now apply elem_of_nil in Hin); intros σ [_ Hwf].
    + destruct (demographics_page_ends r σ) as [σ1 ->]. now apply Hnav.
    + destruct (baseline_page_ends r σ Hwf) as [σ1 ->]. now apply Hnav.
    + destruct (session_emp_page_ends r σ Hv Hwf) as [σ1 ->]. now apply Hnav.
    + destruct (session_neu_page_ends r σ Hv Hwf) as [σ1 ->]. now apply Hnav.
    + destruct (open_page_ends r σ) as (σ1 & nl & ->). now apply Hnav.
Qed.

Lemma leads_steps (r : Run) (s t : string) : leads r s t -> s ∈ steps.
Proof.
  intros [(-> & _)|(p & n & Hin & _)]; [unfold steps; in_list_l|].
  apply nav_links_edges in Hin as [_ Hin]. now apply forward_edges_steps in Hin.
Qed.

(** A click on an offered button is accepted, and the interaction ends at
    the step the button leads to. *)
Lemma click_leads (r : Run) (s t : string) (σ : State) :
  valid_run r -> leads r s t -> step_is s σ -> empty_or_well_formed σ ->
  accepted r σ /\ step_is t (interact r σ).1.
Proof.
  intros Hv Hl Hs Hwf.
  pose proof (hoare_script_ready r s nowhere (reruns_at t) Hv (leads_steps r s t Hl)
                (pages_click r s t Hv Hl) (cleared σ) (conj Hs Hwf)) as Hrun.
  change (script r (cleared σ)) with (run_script r σ) in Hrun.
  pose proof (interact_nav r s σ Hs) as Hnav. unfold accepted.
  destruct (run_script r σ) as [σ1 [[]|e]]; [destruct Hrun|].
  destruct Hrun as [-> Ht]. split; [reflexivity|]. now apply Hnav.
Qed.

(** The buttons of the edges of the step machine are offered buttons. *)
Lemma continue_click_leads (r : Run) (a b : string) :
  (a, b) ∈ forward_edges -> continue_click a b r -> leads r a b.
Proof.
  unfold forward_edges. intros Hin Hc.
  apply elem_of_cons in Hin as [Hin|Hin]; [injection Hin as -> ->; now left|].
  right. unfold continue_click in Hc.
  repeat (apply elem_of_cons in Hin as [Hin|Hin];
    [ injection Hin as -> ->; cbn [String.eqb Ascii.eqb Bool.eqb] in Hc;
      eexists _, _; split; [unfold nav_links; in_list_l|left; split; [reflexivity|exact Hc]]
    | ]).
  now apply elem_of_nil in Hin.
Qed.

Lemma back_click_leads (r : Run) (a b : string) :
  (a, b) ∈ forward_edges -> b <> "review" -> back_click a r -> leads r b a.
Proof.
  unfold forward_edges, back_click. intros Hin Hne Hc. right.
  repeat (apply elem_of_cons in Hin as [Hin|Hin];
    [ injection Hin as -> ->;
      first [ congruence
            | eexists _, _; split;
              [unfold nav_links; in_list_l|right; split; [reflexivity|exact Hc]] ]
    | ]).
  now apply elem_of_nil in Hin.
Qed.

Lemma clicks_move_holds (σ : State) : empty_or_well_formed σ -> clicks_move σ.
Proof.
  intros Hwf r a b Hv Hedge. split.
  - intros Hs Hc. apply click_leads with a; auto using continue_click_leads.
  - intros Hs Hne Hc. apply click_leads with b; auto using back_click_leads.
Qed.

(** C5. For every sequence of interactions of a session that starts with
    an empty [st.session_state] (hence at [consent]), the current step is
    always one of the seven steps, and every interaction either keeps the
    step or follows an edge of the step machine: an accepted Continue goes
    one step forward in the order of [steps], an accepted Back one step
    backward. And the offered buttons do move the step: in every state of
    the session, for every edge from [a] to [b], a click on Continue at [a]
    (on the consent page with the box checked) is accepted and ends at [b],
    and a click on Back at [b] is accepted and ends at [a], for every run
    whose token call returns and whose voice widgets hold what they
    offer. *)
Theorem C5_navigation_follows_step_machine (rs : list Run) :
  current_step new_session = str "consent" /\
  Forall in_steps (new_session :: session_states rs new_session) /\
  follows_edges new_session rs /\
  forward_edges = zip steps (drop 1 steps) /\
  Forall clicks_move (new_session :: session_states rs new_session).
Proof.
  destruct (session_follows_edges rs new_session new_session_in_steps) as [H1 H2].
  split; [reflexivity|]. split; [|split; [exact H2|split; [reflexivity|]]].
  - constructor; [apply new_session_in_steps|exact H1].
  - constructor; [apply clicks_move_holds; now left|].
    eapply Forall_impl; [apply sessions_well_formed|]. apply clicks_move_holds.
Qed.

Lemma C5_navigation_follows_step_machine_witness :
  let r := demo_run (Some continue_label) true (NotFound "404 Client Error") None in
  let back := demo_run (Some "back_consent") true (NotFound "404 Client Error") None in
  let σ := (interact r new_session).1 in
  valid_run r /\ ("consent", "demographics") ∈ forward_edges /\
  step_is "consent" new_session /\ continue_click "consent" "demographics" r /\
  accepted r new_session /\ step_is "demographics" σ /\
  valid_run back /\ back_click "consent" back /\
  accepted back σ /\ step_is "consent" (interact back σ).1.
Proof.
  intros r back σ.
  pose proof (C5_navigation_follows_step_machine [r]) as (_ & _ & _ & _ & Hall).
  apply Forall_cons in Hall as [H0 Hall]. apply Forall_cons in Hall as [H1 _].
  assert (("consent", "demographics") ∈ forward_edges) as Hedge
    by (unfold forward_edges; in_list_l).
  assert (continue_click "consent" "demographics" r) as Hc by (split; reflexivity).
  assert (step_is "consent" new_session) as Hs by reflexivity.
  pose proof (demo_run_valid (Some continue_label) true (NotFound "404 Client Error") None)
    as Hv.
  pose proof (demo_run_valid (Some "back_consent") true (NotFound "404 Client Error") None)
    as Hvb.
  destruct (proj1 (H0 r "consent" "demographics" Hv Hedge) Hs Hc) as [Ha Hb].
  destruct (proj2 (H1 back "consent" "demographics" Hvb Hedge) Hb
              ltac:(discriminate) eq_refl) as [Hc1 Hc2].
  exact (conj Hv (conj Hedge (conj Hs (conj Hc (conj Ha (conj Hb
           (conj Hvb (conj eq_refl (conj Hc1 Hc2))))))))).
Defined.

(** ** Missing configuration (C9) *)






(** ** The post-session groups (C10) *)

#[global] Instance absent_or_stableR (k : string) (v : pyval) : StableR (absent_or k v).
Proof. intros e σ H. exact H. Qed.

(** A run that gets past the token call stores the default of a key that
    is absent and that no page assigns. *)
Lemma script_sets_default (r : Run) (k : string) (v : pyval) (σ : State) :
  save_token_raises r = None -> dict_get (defaults r) k = Some v ->
  k ∉ assigned_keys -> absent_or k v σ -> holds k v (script r σ).1.
Proof.
  intros Hsave Hd Hk H0.
  assert (hoare (absent_or k v) (script r) (holds k v) (fun _ => holds k v)) as Hh.
  { assert (forall k' v', k' ∈ ["step"; "step_changed"; "consented"] ->
              allows (holds k v) k' v') as Hctl.
    { intros k' v' Hk'. apply holds_allows. intros <-. apply Hk.
      unfold assigned_keys. apply elem_of_app. now left. }
    apply hoare_script_init with (P0 := absent_or k v) (Q := holds k v).
    - apply hoare_keeps, keeps_basic_validations. apply _.
    - apply hoare_keeps, keeps_save_token. intros; congruence.
    - intros σ0 H. rewrite init_state_eq. unfold holds. cbn [session set_session].
      destruct H as [H|H].
      + rewrite lookup_union_r by exact H. now rewrite <- dict_get_list_to_map.
      + now apply lookup_union_Some_l.
    - apply keeps_bind;
        [apply keeps_scroll_to_top; [apply _|apply Hctl; in_list_l]|intros _].
      apply keeps_bind; [apply keeps_show_progress; [apply _|now intros]|intros _].
      apply keeps_set_if_absent. apply holds_allows_new.
    - apply hoare_conseq with (P := holds k v) (Q := holds k v) (E := fun _ => holds k v);
        [now intros σ0 [H _]|auto|auto|].
      apply hoare_keeps, keeps_pages_inv; try apply _.
      + now apply holds_answers.
      + intros b. apply Hctl. in_list_l.
      + intros s. apply Hctl. in_list_l.
      + apply Hctl. in_list_l.
      + intros r'. apply keeps_review_page; try apply _. now intros e σ0 _ H. }
  specialize (Hh σ H0). now destruct (script r σ) as [σ' [[]|e]].
Qed.

Lemma interact_sets_default (r : Run) (k : string) (v : pyval) (σ : State) :
  save_token_raises r = None -> dict_get (defaults r) k = Some v ->
  k ∉ assigned_keys -> absent_or k v σ -> holds k v (interact r σ).1.
Proof.
  intros Hsave Hd Hk H0. unfold interact.
  pose proof (script_sets_default r k v (cleared σ) Hsave Hd Hk H0) as H.
  change (script r (cleared σ)) with (run_script r σ) in H.
  destruct (run_script r σ) as [σ1 [[]|e]]; [exact H|].
  destruct e; try exact H.
  pose proof (keeps_script_holds k v (rerun_of r) Hk (cleared σ1) H) as H2.
  change (script (rerun_of r) (cleared σ1)) with (run_script (rerun_of r) σ1) in H2.
  destruct (run_script (rerun_of r) σ1) as [σ2 [[]|e2]]; exact H2.
Qed.

Lemma post_groups_unassigned (g : string) : g ∈ post_groups -> g ∉ assigned_keys.
Proof.
  unfold post_groups. intros H.
  repeat (apply elem_of_cons in H as [->|H]; [compute_done|]).
  now apply elem_of_nil in H.
Qed.

Lemma post_groups_defaults (r : Run) (g : string) :
  g ∈ post_groups -> dict_get (defaults r) g = Some (PDict (none_group 1 8)).
Proof.
  unfold post_groups. intros H.
  repeat (apply elem_of_cons in H as [->|H]; [reflexivity|]).
  now apply elem_of_nil in H.
Qed.

(** [init_state] creates the two groups where they are missing. *)
Lemma init_state_posts_none (r : Run) (σ : State) :
  posts_untouched σ -> posts_none (init_state r σ).1.
Proof.
  unfold posts_untouched, posts_none. rewrite !Forall_forall. intros H g Hg.
  rewrite init_state_eq. unfold holds. cbn [fst session set_session].
  destruct (H g Hg) as [Hn|Hs].
  - rewrite lookup_union_r by exact Hn. rewrite <- dict_get_list_to_map.
    now apply post_groups_defaults.
  - now apply lookup_union_Some_l.
Qed.

(** An interaction whose first run gets past the token call leaves both
    groups in the session. *)
Lemma interact_posts_none (r : Run) (σ : State) :
  save_token_raises r = None -> posts_untouched σ -> posts_none (interact r σ).1.
Proof.
  unfold posts_untouched, posts_none. rewrite !Forall_forall. intros Hsave H g Hg.
  apply interact_sets_default;
    [exact Hsave|now apply post_groups_defaults|now apply post_groups_unassigned|].
  apply (H g Hg).
Qed.

Lemma posts_none_sessions (rs : list Run) (σ : State) :
  posts_none σ -> Forall posts_none (session_states rs σ).
Proof.
  assert (forall r σ0, posts_none σ0 -> posts_none (interact r σ0).1) as Hstep.
  { unfold posts_none. intros r σ0. rewrite !Forall_forall. intros H g Hg.
    apply interact_holds; [now apply post_groups_unassigned|now apply H]. }
  revert σ. induction rs as [|r rs IH]; intros σ H; simpl; constructor.
  - now apply Hstep.
  - now apply IH, Hstep.
Qed.

(** C10. [init_state] gives the groups [emp_post] and [neu_post] the keys
    [q1] to [q7], all [None]: it returns, and after it both groups are in
    the session with these items. In every session, after every
    interaction, the two groups are as [init_state] made them (no page and
    no navigation writes them), and the record each submission has uploaded
    carries [None] in [emp_post_q1] ... [emp_post_q7] and [neu_post_q1] ...
    [neu_post_q7]. The groups are there from the first interaction that
    gets past the token call: every such interaction ends with both groups
    in the session, all items [None], and they stay so in every later
    state. *)
Theorem C10_post_groups_stay_none (r : Run) (rs : list Run) :
  dict_get (defaults r) "emp_post" = Some (PDict (none_group 1 8)) /\
  dict_get (defaults r) "neu_post" = Some (PDict (none_group 1 8)) /\
  none_group 1 8
  = list_to_map [ ("q1", SNone); ("q2", SNone); ("q3", SNone); ("q4", SNone);
                  ("q5", SNone); ("q6", SNone); ("q7", SNone) ] /\
  post_keys = [ "emp_post_q1"; "emp_post_q2"; "emp_post_q3"; "emp_post_q4";
                "emp_post_q5"; "emp_post_q6"; "emp_post_q7";
                "neu_post_q1"; "neu_post_q2"; "neu_post_q3"; "neu_post_q4";
                "neu_post_q5"; "neu_post_q6"; "neu_post_q7" ] /\
  Forall (fun σ => posts_untouched σ /\ Forall upload_posts_none (uploads σ))
         (session_states rs new_session) /\
  (forall σ, (init_state r σ).2 = Ok tt /\
             (posts_untouched σ -> posts_none (init_state r σ).1)) /\
  Forall (fun σ => forall r', save_token_raises r' = None ->
                     posts_none (interact r' σ).1 /\
                     forall rs', Forall posts_none (session_states rs' (interact r' σ).1))
         (new_session :: session_states rs new_session) /\
  (save_token_raises r = None -> Forall posts_none (session_states (r :: rs) new_session)).
Proof.
  pose proof (posts_inv_sessions rs) as Hinv.
  assert (posts_untouched new_session) as Hnew.
  { unfold posts_untouched, post_groups. forall_list; now left. }
  do 4 (split; [reflexivity|]). split; [exact Hinv|]. split; [|split].
  - intros σ. split; [now rewrite init_state_eq|apply init_state_posts_none].
  - assert (forall σ, posts_untouched σ ->
              forall r', save_token_raises r' = None ->
                posts_none (interact r' σ).1 /\
                forall rs', Forall posts_none (session_states rs' (interact r' σ).1))
      as Hone.
    { intros σ Hσ r' Hsave. pose proof (interact_posts_none r' σ Hsave Hσ) as H.
      split; [exact H|]. intros rs'. now apply posts_none_sessions. }
    constructor; [now apply Hone|].
    eapply Forall_impl; [exact Hinv|]. intros σ [Hσ _]. now apply Hone.
  - intros Hsave. cbn [session_states].
    pose proof (interact_posts_none r new_session Hsave Hnew) as H.
    constructor; [exact H|]. now apply posts_none_sessions.
Qed.

Lemma C10_post_groups_stay_none_witness :
  let r := demo_run None true (NotFound "404 Client Error") None in
  save_token_raises r = None /\
  Forall posts_none (session_states (r :: drop 1 demo_walk) new_session).
Proof.
  intros r.
  pose proof (C10_post_groups_stay_none r (drop 1 demo_walk)) as H.
  exact (conj eq_refl (proj2 (proj2 (proj2 (proj2 (proj2 (proj2 (proj2 H)))))) eq_refl)).
Defined.
